(** * Trident storage orchestrator: a shallow embedding and its properties

    The development follows the packages of the repository:
    - [tridentconfig]   protocols and access modes ([config]);
    - [strconv]         Go's [strconv.ParseInt] as used on volume sizes;
    - [storage]         volume records shared by all layers;
    - [csi]             the CSI controller plugin ([frontend/csi]);
    - [persistentstore] the passthrough persistence client;
    - [core]            the orchestrator engine, modelled from the written
                        specification and from the assertions of the
                        orchestrator test-suite ([orchestrator_core_test]).
    - [gostrings], [utils], [storagefull]
                        Go's string functions, the access and publish
                        records, and the volume records in full;
    - [csicontroller]   the other handlers of the CSI controller;
    - [kubernetes]      the volume helpers of the Kubernetes frontend;
    - [solidfire], [ontap]
                        the SolidFire SAN and the ONTAP NAS drivers;
    - [passthrough]     the remaining methods of the passthrough client;
    - [cli]             the [get] and [update] commands of the client.

Definitions come first, grouped in modules; the theorems follow. *)

From Stdlib Require Import ZArith Lia Ascii String List Permutation
  DecimalString.
From Stdlib Require DecimalPos DecimalZ.
From stdpp Require Import base option list gmap strings fin_maps.

Local Open Scope Z_scope.

(* ===================================================================== *)
(** * Part I: definitions                                                 *)
(* ===================================================================== *)

(** ** package config *)
Module tridentconfig.

Inductive Protocol := File | Block | ProtocolAny.

Inductive AccessMode := ReadWriteOnce | ReadOnlyMany | ReadWriteMany | ModeAny.

#[global] Instance Protocol_eq_dec : EqDecision Protocol.
Proof. solve_decision. Defined.

#[global] Instance AccessMode_eq_dec : EqDecision AccessMode.
Proof. solve_decision. Defined.

(** [string(volume.Config.Protocol)] *)
Definition Protocol_string (p : Protocol) : string :=
  match p with
  | File => "file"
  | Block => "block"
  | ProtocolAny => ""
  end.

End tridentconfig.

(** ** strconv.ParseInt(s, 10, 64)

    The plugin reads volume sizes with [strconv.ParseInt] and, at one call
    site, drops the error.  The value that comes back on an error matters
    there: 0 on a syntax error, the nearest bound on a range error. *)
Module strconv.

Definition maxInt64 : Z := 2 ^ 63 - 1.
Definition minInt64 : Z := - 2 ^ 63.
Definition maxUint64 : Z := 2 ^ 64 - 1.

Inductive NumError := ErrSyntax | ErrRange.

Definition digit_of (c : ascii) : option Z :=
  let n := Z.of_nat (nat_of_ascii c) in
  if (48 <=? n) && (n <=? 57) then Some (n - 48) else None.

(** The digit loop of [ParseUint]: [None] is a syntax error (a byte
    that is no decimal digit); the loop returns at once, with the range
    flag set, when the next digit no longer fits 64 bits. *)
Fixpoint digits (s : string) (acc : Z) : option (Z * bool) :=
  match s with
  | EmptyString => Some (acc, false)
  | String c s' =>
      match digit_of c with
      | None => None
      | Some d =>
          let n := acc * 10 + d in
          if maxUint64 <? n then Some (maxUint64, true) else digits s' n
      end
  end.

Definition ParseUint (s : string) : Z * option NumError :=
  match s with
  | EmptyString => (0, Some ErrSyntax)
  | _ =>
      match digits s 0 with
      | None => (0, Some ErrSyntax)
      | Some (n, true) => (maxUint64, Some ErrRange)
      | Some (n, false) => (n, None)
      end
  end.

Definition ParseInt (s : string) : Z * option NumError :=
  match s with
  | EmptyString => (0, Some ErrSyntax)
  | String c rest =>
      let '(neg, body) :=
        if Ascii.eqb c "+" then (false, rest)
        else if Ascii.eqb c "-" then (true, rest)
        else (false, s) in
      match ParseUint body with
      | (_, Some ErrSyntax) => (0, Some ErrSyntax)
      | (un, _) =>
          let cutoff := 2 ^ 63 in
          if negb neg && (cutoff <=? un) then (cutoff - 1, Some ErrRange)
          else if neg && (cutoff <? un) then (- cutoff, Some ErrRange)
          else (if neg then - un else un, None)
      end
  end.

(** [strconv.FormatInt(n, 10)], also what [fmt.Sprintf("%d", n)] prints. *)
Definition FormatInt (n : Z) : string := NilZero.string_of_int (Z.to_int n).

End strconv.

(** ** package storage (the records the layers exchange) *)
Module storage.
Import tridentconfig.

Record VolumeConfig := {
  Name : string;
  InternalName : string;
  Size : string;
  Protocol : tridentconfig.Protocol;
  AccessMode : tridentconfig.AccessMode;
  FileSystem : string;
  StorageClass : string;
  CloneSourceVolume : string
}.

Record VolumeExternal := {
  Config : VolumeConfig;
  Backend : string;
  Pool : string;
  Orphaned : bool
}.

#[global] Instance VolumeConfig_eq_dec : EqDecision VolumeConfig.
Proof. solve_decision. Defined.

#[global] Instance VolumeExternal_eq_dec : EqDecision VolumeExternal.
Proof. solve_decision. Defined.

Definition set_FileSystem (fs : string) (c : VolumeConfig) : VolumeConfig :=
  {| Name := Name c; InternalName := InternalName c; Size := Size c;
     Protocol := Protocol c; AccessMode := AccessMode c; FileSystem := fs;
     StorageClass := StorageClass c;
     CloneSourceVolume := CloneSourceVolume c |}.

Definition set_Backend (b : string) (v : VolumeExternal) : VolumeExternal :=
  {| Config := Config v; Backend := b; Pool := Pool v;
     Orphaned := Orphaned v |}.

(** [storage.BackendExternal], as far as the plugin looks at it. *)
Record BackendExternal := {
  beName : string;
  beProtocol : tridentconfig.Protocol
}.

End storage.

(** ** package core: the errors the frontends tell apart *)
Module coreerr.

Inductive ErrorKind :=
| NotReadyErr | BootstrapErr | NotFoundErr
| VolumeExistsErr | InvalidInputErr | InProgressErr | UnrecoverableErr
| NotSupportedErr | OtherErr.

Record OrchError := { kind : ErrorKind; message : string }.

Definition IsNotReadyError (e : OrchError) : bool :=
  match kind e with NotReadyErr => true | _ => false end.
Definition IsBootstrapError (e : OrchError) : bool :=
  match kind e with BootstrapErr => true | _ => false end.
Definition IsNotFoundError (e : OrchError) : bool :=
  match kind e with NotFoundErr => true | _ => false end.

End coreerr.

(** ** package csi: frontend/csi, controller side *)
Module csi.
Import tridentconfig storage coreerr.

(** gRPC status codes the controller returns. *)
Inductive Code :=
| InvalidArgument | AlreadyExists | Internal | Unavailable
| FailedPrecondition | NotFound | Unknown | Unimplemented.

Record Status := { code : Code; msg : string }.

(** [csi.VolumeCapability_AccessMode_Mode] is an [int32] enumeration. *)
Definition Mode := Z.
Definition AccessMode_UNKNOWN : Mode := 0.
Definition AccessMode_SINGLE_NODE_WRITER : Mode := 1.
Definition AccessMode_SINGLE_NODE_READER_ONLY : Mode := 2.
Definition AccessMode_MULTI_NODE_READER_ONLY : Mode := 3.
Definition AccessMode_MULTI_NODE_SINGLE_WRITER : Mode := 4.
Definition AccessMode_MULTI_NODE_MULTI_WRITER : Mode := 5.

(** The [oneof access_type] of a capability; [NoAccessType] is the unset
    field. *)
Inductive AccessType :=
| NoAccessType
| BlockVolume
| MountVolume (FsType : string) (MountFlags : list string).

(** [capAccessMode = None] is the nil [AccessMode] pointer, which
    [capability.GetAccessMode().Mode] dereferences. *)
Record VolumeCapability := {
  capAccessType : AccessType;
  capAccessMode : option Mode
}.

Record CapacityRange := { RequiredBytes : Z; LimitBytes : Z }.

(** [VolumeCapabilities = None] is the nil slice. *)
Record CreateVolumeRequest := {
  reqName : string;
  reqCapacityRange : option CapacityRange;
  reqVolumeCapabilities : option (list VolumeCapability);
  reqParameters : gmap string string
}.

Record Volume := {
  CapacityBytes : Z;
  VolumeId : string;
  VolumeContext : gmap string string
}.

Record CreateVolumeResponse := { respVolume : Volume }.

(** What a handler can do: answer, fail with a status, or dereference nil. *)
Inductive outcome (A : Type) :=
| Ok (a : A)
| Err (s : Status)
| Panic.
Arguments Ok {A} a.
Arguments Err {A} s.
Arguments Panic {A}.

Definition GetRequiredBytes (r : option CapacityRange) : Z :=
  match r with Some c => RequiredBytes c | None => 0 end.

Definition getCSIErrorForOrchestratorError (err : OrchError) : Status :=
  if IsNotReadyError err then {| code := Unavailable; msg := message err |}
  else if IsBootstrapError err then
    {| code := FailedPrecondition; msg := message err |}
  else if IsNotFoundError err then {| code := NotFound; msg := message err |}
  else {| code := Unknown; msg := message err |}.

Definition getAccessForCSIAccessMode (accessMode : Mode)
  : tridentconfig.AccessMode :=
  if accessMode =? AccessMode_SINGLE_NODE_WRITER then ReadWriteOnce
  else if accessMode =? AccessMode_SINGLE_NODE_READER_ONLY then ReadWriteOnce
  else if accessMode =? AccessMode_MULTI_NODE_READER_ONLY then ReadOnlyMany
  else if accessMode =? AccessMode_MULTI_NODE_SINGLE_WRITER then ReadWriteMany
  else if accessMode =? AccessMode_MULTI_NODE_MULTI_WRITER then ReadWriteMany
  else ModeAny.

Definition getProtocolForCSIAccessMode (accessMode : Mode)
  : tridentconfig.Protocol :=
  if accessMode =? AccessMode_SINGLE_NODE_WRITER then ProtocolAny
  else if accessMode =? AccessMode_SINGLE_NODE_READER_ONLY then ProtocolAny
  else if accessMode =? AccessMode_MULTI_NODE_READER_ONLY then ProtocolAny
  else if accessMode =? AccessMode_MULTI_NODE_SINGLE_WRITER then ProtocolAny
  else if accessMode =? AccessMode_MULTI_NODE_MULTI_WRITER then File
  else ProtocolAny.

Definition getCSIVolumeFromTridentVolume (volume : VolumeExternal)
  : Volume :=
  let capacity :=
    match strconv.ParseInt (Size (Config volume)) with
    | (n, None) => n
    | (_, Some _) => 0
    end in
  {| CapacityBytes := capacity;
     VolumeId := Name (Config volume);
     VolumeContext :=
       <["backend" := Backend volume]>
       (<["name" := Name (Config volume)]>
       (<["internalName" := InternalName (Config volume)]>
       (<["protocol" := Protocol_string (Protocol (Config volume))]> ∅))) |}.

(** *** The orchestrator as the plugin sees it

    [p.orchestrator] is an interface value.  Its methods are functions on
    an orchestrator state [S]; a Go method returns a pointer and an error,
    and the plugin tests the two separately, so both are kept. *)
Inductive Call :=
| CallGetVolume (name : string)
| CallListBackends
| CallGetStorageClass (params : gmap string string)
| CallAddVolume (cfg : VolumeConfig).

(** The calls that look up or register a storage class, or create a
    volume. *)
Definition provisioning (c : Call) : bool :=
  match c with
  | CallGetStorageClass _ | CallAddVolume _ => true
  | _ => false
  end.

Record World (S : Type) := { orch : S; calls : list Call }.
Arguments orch {S} _.
Arguments calls {S} _.

Section Plugin.
Context {S : Type}.

(** [core.Orchestrator], the methods [CreateVolume] reaches. *)
Variable orchGetVolume :
  string -> S -> (option VolumeExternal * option OrchError) * S.
Variable orchListBackends :
  S -> (option (list BackendExternal) * option OrchError) * S.
Variable orchAddVolume :
  VolumeConfig -> S -> (option VolumeExternal * option OrchError) * S.
(** [frontendcommon.GetStorageClass] finds or registers a class through
    the orchestrator and yields its name; [frontendcommon.GetVolumeConfig]
    is a pure conversion.  Both live in package [frontend/common] and are
    taken as given. *)
Variable commonGetStorageClass :
  gmap string string -> S -> (OrchError + string) * S.
Variable commonGetVolumeConfig :
  string -> string -> Z -> gmap string string ->
  tridentconfig.Protocol -> tridentconfig.AccessMode ->
  OrchError + VolumeConfig.

Definition M (A : Type) : Type := World S -> A * World S.

Definition ret {A} (a : A) : M A := fun w => (a, w).
Definition bind {A B} (m : M A) (k : A -> M B) : M B :=
  fun w => let '(a, w') := m w in k a w'.

Definition invoke {A} (c : Call) (f : S -> A * S) : M A :=
  fun w =>
    let '(a, s') := f (orch w) in
    (a, {| orch := s'; calls := calls w ++ [c] |}).

Notation "x <~ m ;; k" := (bind m (fun x => k))
  (at level 100, m at next level, right associativity).

Definition hasBackendForProtocol (protocol : tridentconfig.Protocol)
  : M bool :=
  r <~ invoke CallListBackends orchListBackends ;;
  ret match r with
      | (_, Some _) => false
      | (None, None) => false
      | (Some [], None) => false
      | (Some backends, None) =>
          if decide (protocol = ProtocolAny) then true
          else existsb
                 (fun b => bool_decide (beProtocol b = ProtocolAny)
                           || bool_decide (beProtocol b = protocol))
                 backends
      end.

(** The loop over the requested capabilities: it either returns from
    [CreateVolume] with a status, dereferences a nil access mode, or
    falls through with the last protocol, access mode and filesystem. *)
Fixpoint capabilityLoop (caps : list VolumeCapability)
  (protocol : tridentconfig.Protocol)
  (accessMode : tridentconfig.AccessMode) (fileSystem : string)
  : M (outcome (tridentconfig.Protocol * tridentconfig.AccessMode * string)) :=
  match caps with
  | [] => ret (Ok (protocol, accessMode, fileSystem))
  | capability :: rest =>
      match capAccessType capability with
      | BlockVolume =>
          ret (Err {| code := InvalidArgument;
                      msg := "block access type not supported" |})
      | _ =>
          match capAccessMode capability with
          | None => ret Panic
          | Some mode =>
              let accessMode' := getAccessForCSIAccessMode mode in
              let protocol' := getProtocolForCSIAccessMode mode in
              has <~ hasBackendForProtocol protocol' ;;
              if negb has then
                ret (Err {| code := InvalidArgument;
                            msg := "no available storage for access mode" |})
              else
                let fileSystem' :=
                  match capAccessType capability with
                  | MountVolume fs _ => fs
                  | _ => fileSystem
                  end in
                capabilityLoop rest protocol' accessMode' fileSystem'
          end
      end
  end.

Definition CreateVolume (req : CreateVolumeRequest)
  : M (outcome CreateVolumeResponse) :=
  if decide (reqName req = "") then
    ret (Err {| code := InvalidArgument;
                msg := "volume name missing in request" |})
  else
  match reqVolumeCapabilities req with
  | None =>
      ret (Err {| code := InvalidArgument;
                  msg := "volume capabilities missing in request" |})
  | Some caps =>
      r <~ invoke (CallGetVolume (reqName req)) (orchGetVolume (reqName req)) ;;
      let '(existingVolume, err) := r in
      let failed :=
        match err with
        | Some e =>
            if negb (IsNotFoundError e)
            then Some (getCSIErrorForOrchestratorError e) else None
        | None => None
        end in
      match failed with
      | Some st => ret (Err st)
      | None =>
      match existingVolume with
      | Some existing =>
          let existingSize := fst (strconv.ParseInt (Size (Config existing))) in
          if existingSize <? GetRequiredBytes (reqCapacityRange req) then
            ret (Err {| code := AlreadyExists;
                        msg := String.append "volume "
                                 (String.append (reqName req)
                                    " (but with different size) already exists") |})
          else
            ret (Ok {| respVolume := getCSIVolumeFromTridentVolume existing |})
      | None =>
          l <~ capabilityLoop caps ProtocolAny ModeAny "" ;;
          match l with
          | Err st => ret (Err st)
          | Panic => ret Panic
          | Ok (protocol, accessMode, fileSystem) =>
              sc <~ invoke (CallGetStorageClass (reqParameters req))
                      (commonGetStorageClass (reqParameters req)) ;;
              match sc with
              | inl _ =>
                  ret (Err {| code := InvalidArgument;
                              msg := "could not create a storage class from volume request" |})
              | inr scName =>
                  let sizeBytes := GetRequiredBytes (reqCapacityRange req) in
                  match commonGetVolumeConfig (reqName req) scName sizeBytes
                          (reqParameters req) protocol accessMode with
                  | inl e => ret (Err (getCSIErrorForOrchestratorError e))
                  | inr volConfig0 =>
                      let volConfig :=
                        if decide (FileSystem volConfig0 = "")
                        then set_FileSystem fileSystem volConfig0
                        else volConfig0 in
                      a <~ invoke (CallAddVolume volConfig)
                             (orchAddVolume volConfig) ;;
                      match a with
                      | (_, Some e) =>
                          ret (Err (getCSIErrorForOrchestratorError e))
                      | (None, None) => ret Panic
                      | (Some newVolume, None) =>
                          ret (Ok {| respVolume :=
                                       getCSIVolumeFromTridentVolume newVolume |})
                      end
                  end
              end
          end
      end
      end
  end.

End Plugin.
End csi.

(** ** package persistentstore: the passthrough client *)
Module persistentstore.
Import storage.

Inductive StoreErrorKind := KeyNotFoundErr | NotSupported.
Record StoreError := { errKind : StoreErrorKind; errKey : string }.
Definition NewPersistentStoreError (k : StoreErrorKind) (key : string)
  : StoreError := {| errKind := k; errKey := key |}.

Inductive BackendState := Online | Offline | Deleting.

(** One element a driver writes to the channel it is handed: a volume
    pointer (possibly nil) and an error (possibly nil). *)
Record VolumeExternalWrapper := {
  Volume : option VolumeExternal;
  Error : option string
}.

(** [storage.Backend], as the passthrough client uses it.  The driver is
    represented by what [GetVolumeExternalWrappers] writes to its channel
    before closing it. *)
Record Backend := {
  Name : string;
  DriverWrappers : list VolumeExternalWrapper
}.

(** Names of [drivers.*StorageDriverName]; [UnknownDriverName] stands for
    every other string. *)
Inductive StorageDriverName :=
| OntapNASStorageDriverName
| OntapNASQtreeStorageDriverName
| OntapNASFlexGroupStorageDriverName
| OntapSANStorageDriverName
| SolidfireSANStorageDriverName
| EseriesIscsiStorageDriverName
| AWSNFSStorageDriverName
| FakeStorageDriverName
| UnknownDriverName (s : string).

(** [storage.BackendPersistent]: the driver config sits under the key
    [bpConfigType]. *)
Record BackendPersistent := {
  bpVersion : string;
  bpConfigType : string;
  bpConfig : string;
  bpName : string;
  bpState : BackendState
}.

Record PassthroughClient := {
  liveBackends : gmap string Backend;
  bootBackends : list BackendPersistent
}.

Definition set_liveBackends (m : gmap string Backend) (c : PassthroughClient)
  : PassthroughClient :=
  {| liveBackends := m; bootBackends := bootBackends c |}.

Definition set_bootBackends (l : list BackendPersistent)
  (c : PassthroughClient) : PassthroughClient :=
  {| liveBackends := liveBackends c; bootBackends := l |}.

(** *** Loading the boot-time backends *)

Inductive StatResult :=
| StatNotExist | StatFails (e : string)
| StatDir | StatRegular | StatOther.

(** An initialisation either completes, returns an error, or ends the
    process ([log.Fatal] in [loadBackend]). *)
Inductive Load (A : Type) :=
| Loaded (a : A)
| LoadError (e : string)
| LoadFatal.
Arguments Loaded {A} a.
Arguments LoadError {A} e.
Arguments LoadFatal {A}.

Section Loading.
(** The file system and the decoders that lie outside the package. *)
Variable Stat : string -> StatResult.
Variable ReadDir : string -> string + list (string * bool).
Variable ReadFile : string -> option string.
Variable Join : string -> string -> string.
Variable YAMLToJSON : string -> string + string.
Variable ValidateCommonSettings : string -> string + StorageDriverName.
Variable OrchestratorAPIVersion : string.
(** [json.Unmarshal] of the rewritten document: it fails or accepts the
    driver configuration placed under the given key. *)
Variable jsonUnmarshal : string -> string -> option string.

Definition unmarshalConfig (fileContents : string)
  : string + BackendPersistent :=
  match YAMLToJSON fileContents with
  | inl e => inl e
  | inr configJSON =>
      match ValidateCommonSettings configJSON with
      | inl e => inl (String.append "input failed validation: " e)
      | inr name =>
          let configType :=
            match name with
            | OntapNASStorageDriverName
            | OntapNASQtreeStorageDriverName
            | OntapNASFlexGroupStorageDriverName
            | OntapSANStorageDriverName => Some "ontap_config"
            | SolidfireSANStorageDriverName => Some "solidfire_config"
            | EseriesIscsiStorageDriverName => Some "eseries_config"
            | AWSNFSStorageDriverName => Some "aws_config"
            | FakeStorageDriverName => Some "fake_config"
            | UnknownDriverName _ => None
            end in
          match configType with
          | None => inl "unknown storage driver"
          | Some ty =>
              inr {| bpVersion := OrchestratorAPIVersion;
                     bpConfigType := ty; bpConfig := configJSON;
                     bpName := ""; bpState := Online |}
          end
      end
  end.

Definition loadBackend (configPath : string) (c : PassthroughClient)
  : Load PassthroughClient :=
  match ReadFile configPath with
  | None => LoadFatal
  | Some fileContents =>
      match unmarshalConfig fileContents with
      | inl e => LoadError e
      | inr backendJSON =>
          match jsonUnmarshal (bpConfigType backendJSON)
                  (bpConfig backendJSON) with
          | None => LoadError "unmarshal"
          | Some cfg =>
              let backend :=
                {| bpVersion := bpVersion backendJSON;
                   bpConfigType := bpConfigType backendJSON;
                   bpConfig := cfg;
                   bpName := bpName backendJSON;
                   bpState := bpState backendJSON |} in
              Loaded (set_bootBackends (bootBackends c ++ [backend]) c)
          end
      end
  end.

Fixpoint loadFiles (configPath : string) (files : list (string * bool))
  (c : PassthroughClient) : Load PassthroughClient :=
  match files with
  | [] => Loaded c
  | (name, regular) :: rest =>
      if negb regular then loadFiles configPath rest c
      else match loadBackend (Join configPath name) c with
           | Loaded c' => loadFiles configPath rest c'
           | LoadError e => LoadError e
           | LoadFatal => LoadFatal
           end
  end.

Definition initialize (configPath : string) (c : PassthroughClient)
  : Load PassthroughClient :=
  if decide (configPath = "") then
    LoadError "passthrough store initialization failed, config path must be specified"
  else
    match Stat configPath with
    | StatNotExist =>
        LoadError "passthrough store initialization failed, config path does not exist"
    | StatFails e => LoadError e
    | StatDir =>
        match ReadDir configPath with
        | inl e => LoadError e
        | inr files => loadFiles configPath files c
        end
    | StatRegular => loadBackend configPath c
    | StatOther =>
        LoadError "passthrough store initialization failed, invalid config path"
    end.

Definition NewPassthroughClient (configPath : string)
  : Load PassthroughClient :=
  initialize configPath {| liveBackends := ∅; bootBackends := [] |}.

(** In the words of the specification: "backend list comes from a
    read-only config source".  [configFiles] are the files that source
    consists of, [parseBackend] is what one of them denotes. *)
Definition configFiles (configPath : string) : list string :=
  match Stat configPath with
  | StatDir =>
      match ReadDir configPath with
      | inr files =>
          map (fun f => Join configPath (fst f))
              (List.filter (fun f => snd f) files)
      | inl _ => []
      end
  | StatRegular => [configPath]
  | _ => []
  end.

Definition parseBackend (path : string) : option BackendPersistent :=
  match ReadFile path with
  | None => None
  | Some fileContents =>
      match unmarshalConfig fileContents with
      | inl _ => None
      | inr j =>
          match jsonUnmarshal (bpConfigType j) (bpConfig j) with
          | None => None
          | Some cfg =>
              Some {| bpVersion := bpVersion j;
                      bpConfigType := bpConfigType j; bpConfig := cfg;
                      bpName := bpName j; bpState := bpState j |}
          end
      end
  end.

End Loading.

(** *** The backend operations of the [Client] interface *)

Definition AddBackend (backend : Backend) (c : PassthroughClient)
  : option StoreError * PassthroughClient :=
  (None, set_liveBackends (<[Name backend := backend]> (liveBackends c)) c).

Definition UpdateBackend (backend : Backend) (c : PassthroughClient)
  : option StoreError * PassthroughClient :=
  match liveBackends c !! Name backend with
  | None => (Some (NewPersistentStoreError KeyNotFoundErr (Name backend)), c)
  | Some _ =>
      (None, set_liveBackends (<[Name backend := backend]> (liveBackends c)) c)
  end.

Definition DeleteBackend (backend : Backend) (c : PassthroughClient)
  : option StoreError * PassthroughClient :=
  match liveBackends c !! Name backend with
  | None => (Some (NewPersistentStoreError KeyNotFoundErr (Name backend)), c)
  | Some _ => (None, set_liveBackends (delete (Name backend) (liveBackends c)) c)
  end.

Definition GetBackends (c : PassthroughClient)
  : list BackendPersistent * option StoreError :=
  (fold_left (fun backendList backend => backendList ++ [backend])
     (bootBackends c) [], None).

Definition DeleteBackends (c : PassthroughClient)
  : option StoreError * PassthroughClient :=
  (None, set_liveBackends ∅ c).

Definition Stop (c : PassthroughClient)
  : option StoreError * PassthroughClient :=
  (None, {| liveBackends := ∅; bootBackends := [] |}).

(** The four operations that write backends, reified so that a history
    of calls is a list. *)
Inductive BackendOp :=
| OpAddBackend (b : Backend)
| OpUpdateBackend (b : Backend)
| OpDeleteBackend (b : Backend)
| OpDeleteBackends.

Definition run_op (op : BackendOp) (c : PassthroughClient)
  : PassthroughClient :=
  match op with
  | OpAddBackend b => snd (AddBackend b c)
  | OpUpdateBackend b => snd (UpdateBackend b c)
  | OpDeleteBackend b => snd (DeleteBackend b c)
  | OpDeleteBackends => snd (DeleteBackends c)
  end.

Definition run_ops (ops : list BackendOp) (c : PassthroughClient)
  : PassthroughClient :=
  fold_left (fun c op => run_op op c) ops c.

(** *** Volume discovery *)

(** [getVolumesFromBackend]: what one producer goroutine sends to the
    common channel, in order.  The volume is stamped in place before the
    wrapper is forwarded, whether or not the wrapper carries an error. *)
Definition getVolumesFromBackend (backend : Backend)
  : list VolumeExternalWrapper :=
  map (fun volume =>
         {| Volume := set_Backend (Name backend) <$> Volume volume;
            Error := Error volume |})
      (DriverWrappers backend).

(** Delivery on the shared unbuffered channel.  A schedule names, step
    by step, the producer whose send the receiver takes next; a step that
    names a producer with nothing left to send is void.  When the
    schedule is exhausted the remaining producers drain one after the
    other. *)
Fixpoint deliver {A} (sched : list nat) (producers : list (list A))
  : list A :=
  match sched with
  | [] => concat producers
  | i :: sched' =>
      match producers !! i with
      | Some (x :: xs) => x :: deliver sched' (<[i := xs]> producers)
      | _ => deliver sched' producers
      end
  end.

(** The receive loop of [GetVolumes]. *)
Fixpoint collect (received : list VolumeExternalWrapper)
  (volumes : list (option VolumeExternal)) : list (option VolumeExternal) :=
  match received with
  | [] => volumes
  | wrapper :: rest =>
      match Error wrapper with
      | Some _ => collect rest volumes
      | None => collect rest (volumes ++ [Volume wrapper])
      end
  end.

(** In the words of the specification: what one backend reports
    successfully, each volume carrying the name of that backend. *)
Definition reportedVolumes (backend : Backend)
  : list (option VolumeExternal) :=
  map (fun w => set_Backend (Name backend) <$> Volume w)
      (List.filter (fun w => bool_decide (Error w = None))
         (DriverWrappers backend)).

Definition producers_of (c : PassthroughClient)
  : list (list VolumeExternalWrapper) :=
  map (fun kv => getVolumesFromBackend (snd kv))
      (map_to_list (liveBackends c)).

Definition GetVolumes (sched : list nat) (c : PassthroughClient)
  : list (option VolumeExternal) * option StoreError :=
  (collect (deliver sched (producers_of c)) [], None).

End persistentstore.

(** ** package core: the orchestrator engine

    The engine ([TridentOrchestrator] and the packages [storage_class] and
    [storage_attribute] it rests on) is modelled from the written
    specification; where the specification leaves a case open, the
    assertions of the engine's test-suite settle it.  Each definition of
    this module says what it is modelled from. *)
Module core.
Import tridentconfig coreerr.

(** *** storage_attribute *)

(** Modelled from the spec: the offer and request types of package
    [storage_attribute] are missing; section 3 gives them as tagged
    variants. *)
Inductive Offer :=
| StringOffer (values : list string)
| BoolOffer (value : bool)
| IntOffer (min max : Z).

Inductive Request :=
| StringRequest (s : string)
| BoolRequest (v : bool)
| IntRequest (n : Z).

(** Modelled from the spec: [Request.Matches(Offer)] of package
    [storage_attribute] is missing; section 4.2 gives the strictly typed
    rule for the three variants. *)
Definition Request_Matches (r : Request) (o : Offer) : bool :=
  match r, o with
  | StringRequest x, StringOffer values => bool_decide (x ∈ values)
  | BoolRequest v, BoolOffer w => Bool.eqb v w
  | IntRequest n, IntOffer lo hi => (lo <=? n) && (n <=? hi)
  | _, _ => false
  end.

(** *** storage: pools and backends

    Backends and pools are kept under their names: the key of a map entry
    is the [Name] of the Go object. *)

(** Modelled from the spec: [storage.Pool] is missing; section 3: the
    offers of the pool and the names of the classes that match it. *)
Record Pool := {
  pAttributes : gmap string Offer;
  pStorageClasses : list string
}.

Inductive BackendState := Online | Offline | Deleting.

#[global] Instance BackendState_eq_dec : EqDecision BackendState.
Proof. solve_decision. Defined.

(** Modelled from the spec: [storage.Backend] is missing; section 3: a
    state, the pools and the volumes placed on the backend (the driver is
    kept apart, see below). *)
Record Backend := {
  bState : BackendState;
  bProtocol : Protocol;
  bStorage : gmap string Pool;
  bVolumes : gmap string storage.VolumeExternal
}.

Definition set_pStorageClasses (l : list string) (p : Pool) : Pool :=
  {| pAttributes := pAttributes p; pStorageClasses := l |}.

Definition set_bStorage (m : gmap string Pool) (b : Backend) : Backend :=
  {| bState := bState b; bProtocol := bProtocol b;
     bStorage := m; bVolumes := bVolumes b |}.

Definition set_bState (s : BackendState) (b : Backend) : Backend :=
  {| bState := s; bProtocol := bProtocol b;
     bStorage := bStorage b; bVolumes := bVolumes b |}.

Definition set_bVolumes (m : gmap string storage.VolumeExternal)
  (b : Backend) : Backend :=
  {| bState := bState b; bProtocol := bProtocol b;
     bStorage := bStorage b; bVolumes := m |}.

(** *** storage_class *)

(** Modelled from the spec: [storageclass.Config] is missing; section 3:
    attribute requests and the two inclusion lists, per backend. *)
Record Config := {
  scName : string;
  Attributes : gmap string Request;
  Pools : gmap string (list string);
  AdditionalPools : gmap string (list string)
}.

(** Modelled from the spec: [storageclass.StorageClass] is missing; a
    class with the pools it currently matches, by name
    ([(backend, pool)], section 9). *)
Record StorageClass := {
  config : Config;
  pools : list (string * string)
}.

(** [len(m) == 0] *)
Definition isEmpty {V} (m : gmap string V) : bool :=
  match map_to_list m with [] => true | _ => false end.

(** [p] is listed under backend [b] *)
Definition listed (m : gmap string (list string)) (b p : string) : bool :=
  match m !! b with
  | Some l => bool_decide (p ∈ l)
  | None => false
  end.

Definition attributeMatch (p : Pool) (name : string) (req : Request) : bool :=
  match pAttributes p !! name with
  | Some offer => Request_Matches req offer
  | None => false
  end.

Definition attributesMatch (c : Config) (p : Pool) : bool :=
  forallb (fun kv => attributeMatch p (fst kv) (snd kv))
          (map_to_list (Attributes c)).

Definition poolsMatch (c : Config) (b pn : string) : bool :=
  if isEmpty (Pools c) then true else listed (Pools c) b pn.

(** The predicate exactly as the data-model section words it: two
    narrowing filters, then [AdditionalPools] as a permissive union. *)
Definition worded_match (c : Config) (b pn : string) (p : Pool) : bool :=
  (poolsMatch c b pn && attributesMatch c p)
  || listed (AdditionalPools c) b pn.

(** Modelled from the spec: [StorageClass.Matches] of package
    [storage_class] is missing.  Section 3 gives the two filters and
    [AdditionalPools] as a permissive union; the expectation tables of
    [TestAddStorageClassVolumes] and [TestCloneVolumes] pin the one case
    the wording leaves open: a class that names only [AdditionalPools]
    matches the listed pools and nothing else (rows [additionalPools],
    [additionalPoolsNoMatch], [specific], [specificNoMatch]). *)
Definition Matches (c : Config) (b pn : string) (p : Pool) : bool :=
  if listed (AdditionalPools c) b pn then true
  else if negb (isEmpty (AdditionalPools c))
          && isEmpty (Attributes c) && isEmpty (Pools c) then false
  else attributesMatch c p && poolsMatch c b pn.

(** [p] appears in the list the map gives for backend [b]. *)
Definition listedIn (m : gmap string (list string)) (b p : string) : Prop :=
  exists l, m !! b = Some l /\ In p l.

(** Every attribute request of the class is satisfied by an offer of the
    pool. *)
Definition satisfies (c : Config) (p : Pool) : Prop :=
  forall name req, Attributes c !! name = Some req ->
    exists offer, pAttributes p !! name = Some offer
                  /\ Request_Matches req offer = true.

(** [Matches] in logical form: the pool is
    listed in [AdditionalPools]; or the class is not one that names only
    [AdditionalPools], the pool passes the [Pools] filter and it passes
    the [Attributes] filter. *)
Definition accepts (c : Config) (b pn : string) (p : Pool) : Prop :=
  listedIn (AdditionalPools c) b pn
  \/ (~ (AdditionalPools c <> ∅ /\ Attributes c = ∅ /\ Pools c = ∅)
      /\ (Pools c <> ∅ -> listedIn (Pools c) b pn)
      /\ satisfies c p).

(** Modelled from the spec: scanning one backend for a new class
    (section 4.1, "scans all current pools and records matches") is
    missing.  The test-suite adds that a backend which is not online is
    passed over ([TestBackendUpdateAndDelete]: "Ensure that new storage
    classes do not get the offline backend assigned to them"). *)
Definition CheckAndAddBackend (c : Config) (bn : string) (b : Backend)
  : Backend * list (string * string) :=
  if decide (bState b = Online) then
    (set_bStorage
       (map_imap (fun pn p =>
               Some (if Matches c bn pn p
                     then set_pStorageClasses (pStorageClasses p ++ [scName c]) p
                     else p))
            (bStorage b)) b,
     map (fun kv => (bn, fst kv))
         (List.filter (fun kv => Matches c bn (fst kv) (snd kv))
            (map_to_list (bStorage b))))
  else (b, []).

(** *** The persistent store

    Modelled from the spec: the durable reference store of section 4.6
    ([InMemoryClient] in the test-suite) is missing; it keeps one record
    per key for backends, classes and volumes and the journal of volume
    transactions.  Nodes play no part below and are left out. *)

Module VolumeOperation.
Inductive t :=
| AddVolume | DeleteVolume | ResizeVolume | ImportVolume
| AddSnapshot | DeleteSnapshot.
#[global] Instance eq_dec : EqDecision t.
Proof. solve_decision. Defined.
End VolumeOperation.

(** Modelled from the spec: [persistentstore.VolumeTransaction] is
    missing; section 3: the operation and the intended or prior config. *)
Record VolumeTransaction := {
  Op : VolumeOperation.t;
  txnConfig : storage.VolumeConfig
}.

(** Modelled from the spec: the persisted form of a backend is missing;
    it keeps the state, the protocol and the pools the driver
    configuration declares. *)
Record BackendPersistent := {
  bpState : BackendState;
  bpProtocol : Protocol;
  bpPools : gmap string (gmap string Offer)
}.

(** Modelled from the spec: the state of the durable store; one record
    per key and the journal in the order of writing. *)
Record Store := {
  sBackends : gmap string BackendPersistent;
  sStorageClasses : gmap string Config;
  sVolumes : gmap string storage.VolumeExternal;
  sTransactions : list VolumeTransaction
}.

Definition set_sBackends m (s : Store) : Store :=
  {| sBackends := m; sStorageClasses := sStorageClasses s;
     sVolumes := sVolumes s; sTransactions := sTransactions s |}.
Definition set_sStorageClasses m (s : Store) : Store :=
  {| sBackends := sBackends s; sStorageClasses := m;
     sVolumes := sVolumes s; sTransactions := sTransactions s |}.
Definition set_sVolumes m (s : Store) : Store :=
  {| sBackends := sBackends s; sStorageClasses := sStorageClasses s;
     sVolumes := m; sTransactions := sTransactions s |}.
Definition set_sTransactions l (s : Store) : Store :=
  {| sBackends := sBackends s; sStorageClasses := sStorageClasses s;
     sVolumes := sVolumes s; sTransactions := l |}.

Definition ConstructPersistent (b : Backend) : BackendPersistent :=
  {| bpState := bState b; bpProtocol := bProtocol b;
     bpPools := pAttributes <$> bStorage b |}.

Definition sameTxn (a b : VolumeTransaction) : bool :=
  bool_decide (Op a = Op b)
  && String.eqb (storage.Name (txnConfig a)) (storage.Name (txnConfig b)).

Definition GetExistingVolumeTransaction (t : VolumeTransaction) (s : Store)
  : option VolumeTransaction :=
  List.find (sameTxn t) (sTransactions s).

Definition AddVolumeTransaction (t : VolumeTransaction) (s : Store) : Store :=
  set_sTransactions (sTransactions s ++ [t]) s.

Definition DeleteVolumeTransaction (t : VolumeTransaction) (s : Store)
  : Store :=
  set_sTransactions
    (List.filter (fun u => negb (sameTxn t u)) (sTransactions s)) s.

(** *** The driver capability (section 4.7)

    The engine only sees whether a driver call succeeds.  Every call is
    appended to a log; a driver is any function from the calls made so
    far and the call at hand to an error or success. *)
Inductive DriverCall :=
| Create (backend : string) (cfg : storage.VolumeConfig) (pool : string)
| CreateClone (backend : string) (cfg : storage.VolumeConfig)
| Destroy (backend : string) (internalName : string).

Inductive DriverError :=
| VolumeExists (existingSize : Z)
| DriverNotFound
| Unrecoverable
| BackendError.


(** *** The orchestrator *)

(** Modelled from the spec: [TridentOrchestrator] is missing; section 2:
    the in-memory graph, the store client and the readiness flag with the
    error recorded by Bootstrap.  [driverLog] is the trace of the calls
    made to the drivers. *)
Record TridentOrchestrator := {
  bootstrapped : bool;
  bootstrapError : option OrchError;
  backends : gmap string Backend;
  storageClasses : gmap string StorageClass;
  volumes : gmap string storage.VolumeExternal;
  storeClient : Store;
  driverLog : list DriverCall
}.

Definition set_backends m (o : TridentOrchestrator) : TridentOrchestrator :=
  {| bootstrapped := bootstrapped o; bootstrapError := bootstrapError o;
     backends := m; storageClasses := storageClasses o;
     volumes := volumes o; storeClient := storeClient o;
     driverLog := driverLog o |}.
Definition set_storageClasses m (o : TridentOrchestrator)
  : TridentOrchestrator :=
  {| bootstrapped := bootstrapped o; bootstrapError := bootstrapError o;
     backends := backends o; storageClasses := m;
     volumes := volumes o; storeClient := storeClient o;
     driverLog := driverLog o |}.
Definition set_volumes m (o : TridentOrchestrator) : TridentOrchestrator :=
  {| bootstrapped := bootstrapped o; bootstrapError := bootstrapError o;
     backends := backends o; storageClasses := storageClasses o;
     volumes := m; storeClient := storeClient o;
     driverLog := driverLog o |}.
Definition set_storeClient s (o : TridentOrchestrator) : TridentOrchestrator :=
  {| bootstrapped := bootstrapped o; bootstrapError := bootstrapError o;
     backends := backends o; storageClasses := storageClasses o;
     volumes := volumes o; storeClient := s;
     driverLog := driverLog o |}.
Definition set_driverLog l (o : TridentOrchestrator) : TridentOrchestrator :=
  {| bootstrapped := bootstrapped o; bootstrapError := bootstrapError o;
     backends := backends o; storageClasses := storageClasses o;
     volumes := volumes o; storeClient := storeClient o;
     driverLog := l |}.
Definition set_bootstrap (done : bool) (e : option OrchError)
  (o : TridentOrchestrator) : TridentOrchestrator :=
  {| bootstrapped := done; bootstrapError := e;
     backends := backends o; storageClasses := storageClasses o;
     volumes := volumes o; storeClient := storeClient o;
     driverLog := driverLog o |}.

Definition mkError (k : ErrorKind) (m : string) : OrchError :=
  {| kind := k; message := m |}.
Definition notReadyError : OrchError :=
  mkError NotReadyErr "Trident is initializing, please try again later".
Definition notFoundError (m : string) : OrchError := mkError NotFoundErr m.

(** A public operation returns a result pointer and an error, and leaves
    a new state. *)
Definition Operation (A : Type) : Type :=
  TridentOrchestrator -> (option A * option OrchError) * TridentOrchestrator.

(** Modelled from the spec: the readiness check at the head of every
    public operation is missing; section 4.1 has "After Bootstrap, sets
    bootstrapped = true; until then all public ops fail with NotReady". *)
Definition guarded {A} (body : Operation A) : Operation A :=
  fun o => if bootstrapped o then body o
           else ((None, Some notReadyError), o).

Definition fails {A} (e : OrchError) : Operation A :=
  fun o => ((None, Some e), o).
Definition returns {A} (a : A) : Operation A :=
  fun o => ((Some a, None), o).
Definition succeeds : Operation unit := returns tt.

(** **** Storage classes *)

Record External := {
  extConfig : Config;
  StoragePools : list (string * string)
}.

Definition ConstructExternal (sc : StorageClass) : External :=
  {| extConfig := config sc; StoragePools := pools sc |}.

Definition scanBackends (c : Config) (bs : gmap string Backend)
  : gmap string Backend * list (string * string) :=
  (map_imap (fun bn b => Some (fst (CheckAndAddBackend c bn b))) bs,
   concat (map (fun kv => snd (CheckAndAddBackend c (fst kv) (snd kv)))
             (map_to_list bs))).

(** Modelled from the spec: [AddStorageClass] is missing; section 4.1:
    scan all current pools, record the matches on both sides, persist
    the class, return it with its matched [(backend, pool)] pairs. *)
Definition AddStorageClass (scConfig : Config) : Operation External :=
  guarded (fun o =>
    let '(bs, matched) := scanBackends scConfig (backends o) in
    let sc := {| config := scConfig; pools := matched |} in
    let st := set_sStorageClasses
                (<[scName scConfig := scConfig]>
                   (sStorageClasses (storeClient o))) (storeClient o) in
    returns (ConstructExternal sc)
      (set_storeClient st
         (set_storageClasses (<[scName scConfig := sc]> (storageClasses o))
            (set_backends bs o)))).

(** Modelled from the spec: [GetStorageClass] and [ListStorageClasses]
    are missing; section 4.1: look-ups in the in-memory graph. *)
Definition GetStorageClass (name : string) : Operation External :=
  guarded (fun o =>
    match storageClasses o !! name with
    | Some sc => returns (ConstructExternal sc) o
    | None => fails (notFoundError name) o
    end).

Definition ListStorageClasses : Operation (list External) :=
  guarded (fun o =>
    returns (map (fun kv => ConstructExternal (snd kv))
                 (map_to_list (storageClasses o))) o).

Definition forgetClass (name : string) (b : Backend) : Backend :=
  set_bStorage
    ((fun p =>
        set_pStorageClasses
          (List.filter (fun n => negb (String.eqb n name))
             (pStorageClasses p)) p)
     <$> bStorage b) b.

(** Modelled from the spec: [DeleteStorageClass] is missing; section 4.1:
    it removes the class from every pool's list and from the persistent
    store. *)
Definition DeleteStorageClass (name : string) : Operation unit :=
  guarded (fun o =>
    match storageClasses o !! name with
    | None => fails (notFoundError name) o
    | Some _ =>
        succeeds
          (set_storeClient
             (set_sStorageClasses
                (delete name (sStorageClasses (storeClient o)))
                (storeClient o))
             (set_storageClasses (delete name (storageClasses o))
                (set_backends (forgetClass name <$> backends o) o)))
    end).

(** **** Backends, volumes, bootstrap *)

Section Engine.
(** The naming rule of a backend's driver (section 3: the internal
    name is deterministic from the name, salted per backend) and the
    behaviour of the drivers. *)
Variable GetInternalVolumeName : string -> string -> string.
Variable driver : list DriverCall -> DriverCall -> option DriverError.

Definition callDriver (c : DriverCall) (o : TridentOrchestrator)
  : option DriverError * TridentOrchestrator :=
  (driver (driverLog o) c, set_driverLog (driverLog o ++ [c]) o).

(** Modelled from the spec: [GetBackend] and [ListBackends] are missing;
    section 4.1: look-ups in the in-memory graph. *)
Definition GetBackend (backendName : string) : Operation Backend :=
  guarded (fun o =>
    match backends o !! backendName with
    | Some b => returns b o
    | None => fails (notFoundError backendName) o
    end).

Definition ListBackends : Operation (list (string * Backend)) :=
  guarded (fun o => returns (map_to_list (backends o)) o).

Definition unlinkBackend (backendName : string) (sc : StorageClass)
  : StorageClass :=
  {| config := config sc;
     pools := List.filter
                (fun bp => negb (String.eqb (fst bp) backendName))
                (pools sc) |}.

(** Modelled from the spec: [DeleteBackend] is missing; section 4.1:
    an in-use backend goes Offline, stays in memory and keeps its
    volumes, and the state change is persisted; a backend without
    volumes is removed from memory and from the store
    ([TestEmptyBackendDeletion]).  [TestBackendUpdateAndDelete] adds
    that the classes no longer point to the pools of the backend. *)
Definition DeleteBackend (backendName : string) : Operation unit :=
  guarded (fun o =>
    match backends o !! backendName with
    | None => fails (notFoundError backendName) o
    | Some backend =>
        let classes := unlinkBackend backendName <$> storageClasses o in
        if isEmpty (bVolumes backend) then
          succeeds
            (set_storeClient
               (set_sBackends
                  (delete backendName (sBackends (storeClient o)))
                  (storeClient o))
               (set_storageClasses classes
                  (set_backends (delete backendName (backends o)) o)))
        else
          let offline :=
            set_bState Offline
              (set_bStorage (set_pStorageClasses [] <$> bStorage backend)
                 backend) in
          succeeds
            (set_storeClient
               (set_sBackends
                  (<[backendName := ConstructPersistent offline]>
                     (sBackends (storeClient o)))
                  (storeClient o))
               (set_storageClasses classes
                  (set_backends (<[backendName := offline]> (backends o))
                     o)))
    end).

(** Modelled from the spec: [GetVolume] and [ListVolumes] are missing;
    section 4.1: look-ups in the in-memory graph, NotFound for an unknown
    name. *)
Definition GetVolume (volumeName : string)
  : Operation storage.VolumeExternal :=
  guarded (fun o =>
    match volumes o !! volumeName with
    | Some v => returns v o
    | None => fails (notFoundError volumeName) o
    end).

Definition ListVolumes : Operation (list storage.VolumeExternal) :=
  guarded (fun o => returns (map snd (map_to_list (volumes o))) o).

Definition set_InternalName (n : string) (c : storage.VolumeConfig)
  : storage.VolumeConfig :=
  {| storage.Name := storage.Name c; storage.InternalName := n;
     storage.Size := storage.Size c;
     storage.Protocol := storage.Protocol c;
     storage.AccessMode := storage.AccessMode c;
     storage.FileSystem := storage.FileSystem c;
     storage.StorageClass := storage.StorageClass c;
     storage.CloneSourceVolume := storage.CloneSourceVolume c |}.

Definition protocolCompatible (requested offered : Protocol) : bool :=
  match requested, offered with
  | ProtocolAny, _ | _, ProtocolAny => true
  | File, File | Block, Block => true
  | _, _ => false
  end.

(** A pool can take the request when its backend is in memory, online
    and speaks the protocol. *)
Definition eligible (o : TridentOrchestrator) (cfg : storage.VolumeConfig)
  (bp : string * string) : bool :=
  match backends o !! fst bp with
  | Some b => bool_decide (bState b = Online)
              && protocolCompatible (storage.Protocol cfg) (bProtocol b)
  | None => false
  end.

(** Modelled from the spec: step 4 of [AddVolume] (section 4.3): try the
    matched pools in order; a driver error moves on to the next pool, a
    VolumeExists with enough room counts as success. *)
Fixpoint place (cands : list (string * string))
  (cfg : storage.VolumeConfig) (size : Z) (o : TridentOrchestrator)
  (last : option DriverError)
  : option (string * string * storage.VolumeConfig)
    * option DriverError * TridentOrchestrator :=
  match cands with
  | [] => (None, last, o)
  | bp :: rest =>
      if eligible o cfg bp then
        let cfg' :=
          set_InternalName
            (GetInternalVolumeName (fst bp) (storage.Name cfg)) cfg in
        let '(r, o1) := callDriver (Create (fst bp) cfg' (snd bp)) o in
        match r with
        | None => (Some (fst bp, snd bp, cfg'), None, o1)
        | Some (VolumeExists existing) =>
            if size <=? existing then (Some (fst bp, snd bp, cfg'), None, o1)
            else place rest cfg size o1 (Some (VolumeExists existing))
        | Some e => place rest cfg size o1 (Some e)
        end
      else place rest cfg size o last
  end.

(** Modelled from the spec: step 5 of [AddVolume] (section 4.3): the
    volume enters both in-memory maps and the store. *)
Definition installVolume (v : storage.VolumeExternal)
  (o : TridentOrchestrator) : TridentOrchestrator :=
  let name := storage.Name (storage.Config v) in
  set_storeClient
    (set_sVolumes (<[name := v]> (sVolumes (storeClient o)))
       (storeClient o))
    (set_volumes (<[name := v]> (volumes o))
       (set_backends
          (alter (fun b => set_bVolumes (<[name := v]> (bVolumes b)) b)
             (storage.Backend v) (backends o)) o)).

Definition journal (t : VolumeTransaction) (o : TridentOrchestrator)
  : TridentOrchestrator :=
  set_storeClient (AddVolumeTransaction t (storeClient o)) o.

Definition clearJournal (t : VolumeTransaction) (o : TridentOrchestrator)
  : TridentOrchestrator :=
  set_storeClient (DeleteVolumeTransaction t (storeClient o)) o.

Definition driverFailure (e : option DriverError) : OrchError :=
  match e with
  | Some (VolumeExists _) => mkError VolumeExistsErr "volume exists"
  | Some DriverNotFound => mkError NotFoundErr "not found on backend"
  | Some Unrecoverable => mkError UnrecoverableErr "backend unreachable"
  | Some BackendError => mkError OtherErr "backend error"
  | None => mkError OtherErr "no available backends for storage class"
  end.

(** Modelled from the spec: [AddVolume] is missing; section 4.3,
    steps 1 to 6. *)
Definition AddVolume (volumeConfig : storage.VolumeConfig)
  : Operation storage.VolumeExternal :=
  guarded (fun o =>
    match storageClasses o !! storage.StorageClass volumeConfig with
    | None => fails (mkError InvalidInputErr "unknown storage class") o
    | Some sc =>
    match volumes o !! storage.Name volumeConfig with
    | Some _ => fails (mkError VolumeExistsErr "volume already exists") o
    | None =>
    match strconv.ParseInt (storage.Size volumeConfig) with
    | (_, Some _) => fails (mkError InvalidInputErr "invalid size") o
    | (size, None) =>
    if negb (existsb (eligible o volumeConfig) (pools sc)) then
      fails (mkError InvalidInputErr "no suitable pool for the request") o
    else
    let txn := {| Op := VolumeOperation.AddVolume;
                  txnConfig := volumeConfig |} in
    match GetExistingVolumeTransaction txn (storeClient o) with
    | Some _ => fails (mkError InProgressErr "operation in progress") o
    | None =>
        let '(placed, last, o2) :=
          place (pools sc) volumeConfig size (journal txn o) None in
        match placed with
        | None => fails (driverFailure last) (clearJournal txn o2)
        | Some (bn, pn, cfg') =>
            let v := {| storage.Config := cfg'; storage.Backend := bn;
                        storage.Pool := pn; storage.Orphaned := false |} in
            returns v (clearJournal txn (installVolume v o2))
        end
    end
    end
    end
    end).

(** Modelled from the spec: steps 4 and 5 of [DeleteVolume] (section
    4.3): the volume leaves the in-memory
    maps and the store; an Offline backend left without volumes goes
    too. *)
Definition removeVolume (v : storage.VolumeExternal)
  (o : TridentOrchestrator) : TridentOrchestrator :=
  let name := storage.Name (storage.Config v) in
  let bn := storage.Backend v in
  let o1 :=
    set_storeClient
      (set_sVolumes (delete name (sVolumes (storeClient o)))
         (storeClient o))
      (set_volumes (delete name (volumes o))
         (set_backends
            (alter (fun b => set_bVolumes (delete name (bVolumes b)) b)
               bn (backends o)) o)) in
  match backends o1 !! bn with
  | Some b =>
      if bool_decide (bState b = Offline) && isEmpty (bVolumes b) then
        set_storeClient
          (set_sBackends (delete bn (sBackends (storeClient o1)))
             (storeClient o1))
          (set_backends (delete bn (backends o1)) o1)
      else o1
  | None => o1
  end.

(** Modelled from the spec: [DeleteVolume] is missing; section 4.3. *)
Definition DeleteVolume (volumeName : string) : Operation unit :=
  guarded (fun o =>
    match volumes o !! volumeName with
    | None => fails (notFoundError volumeName) o
    | Some volume =>
        let txn := {| Op := VolumeOperation.DeleteVolume;
                      txnConfig := storage.Config volume |} in
        let '(r, o2) :=
          callDriver
            (Destroy (storage.Backend volume)
               (storage.InternalName (storage.Config volume)))
            (journal txn o) in
        match r with
        | None | Some DriverNotFound =>
            succeeds (clearJournal txn (removeVolume volume o2))
        | Some e => fails (driverFailure (Some e)) o2
        end
    end).

(** A run of deletions, one after the other; the run stops, without a
    final state, at the first deletion that is refused. *)
Fixpoint deleteVolumes (volumeNames : list string) (o : TridentOrchestrator)
  : option TridentOrchestrator :=
  match volumeNames with
  | [] => Some o
  | volumeName :: rest =>
      match DeleteVolume volumeName o with
      | ((Some _, None), o') => deleteVolumes rest o'
      | _ => None
      end
  end.

(** What a run of deletions keeps true of a backend that went Offline
    with the volumes [held], in an orchestrator whose volumes are among
    [known]: once the volumes [done] have been deleted, the backend is
    in memory and in the store, Offline, with the volumes of [held] that
    are not in [done], as long as there is one; and it is in neither
    from then on. *)
Definition draining (held known : gmap string storage.VolumeExternal)
  (backendName : string) (done : list string) (o : TridentOrchestrator)
  : Prop :=
  bootstrapped o = true
  /\ (forall k vol, volumes o !! k = Some vol -> known !! k = Some vol)
  /\ ((backends o !! backendName = None
       /\ sBackends (storeClient o) !! backendName = None
       /\ forall k, is_Some (held !! k) -> In k done)
      \/ (exists b bp,
            backends o !! backendName = Some b
            /\ bState b = Offline
            /\ bVolumes b <> ∅
            /\ (forall k, In k done -> bVolumes b !! k = None)
            /\ (forall k, ~ In k done -> bVolumes b !! k = held !! k)
            /\ sBackends (storeClient o) !! backendName = Some bp
            /\ bpState bp = Offline)).

(** **** Bootstrap (sections 4.1 and 4.5) *)

(** Modelled from the spec: the constructor is missing; a new orchestrator
    is not ready ([TestOrchestratorNotReady] sets the same two fields). *)
Definition NewTridentOrchestrator (client : Store) : TridentOrchestrator :=
  {| bootstrapped := false; bootstrapError := Some notReadyError;
     backends := ∅; storageClasses := ∅; volumes := ∅;
     storeClient := client; driverLog := [] |}.

(** Modelled from the spec: the restoration steps of Bootstrap are
    missing; section 4.5: backends first, then the classes, matched
    against the restored pools, then the volumes. *)
Definition restoreBackend (bp : BackendPersistent) : Backend :=
  {| bState := bpState bp; bProtocol := bpProtocol bp;
     bStorage := (fun attrs => {| pAttributes := attrs;
                                  pStorageClasses := [] |})
                 <$> bpPools bp;
     bVolumes := ∅ |}.

Definition bootstrapBackends (o : TridentOrchestrator)
  : TridentOrchestrator :=
  set_backends (restoreBackend <$> sBackends (storeClient o)) o.

Definition restoreClass (c : Config) (o : TridentOrchestrator)
  : TridentOrchestrator :=
  let '(bs, matched) := scanBackends c (backends o) in
  set_storageClasses
    (<[scName c := {| config := c; pools := matched |}]> (storageClasses o))
    (set_backends bs o).

Definition bootstrapStorageClasses (o : TridentOrchestrator)
  : TridentOrchestrator :=
  fold_left (fun o kv => restoreClass (snd kv) o)
    (map_to_list (sStorageClasses (storeClient o))) o.

(** Modelled from the spec: a persisted volume whose backend is unknown
    is the structural
    inconsistency that ends Bootstrap with an error. *)
Definition restoreVolume (name : string) (v : storage.VolumeExternal)
  (acc : option OrchError * TridentOrchestrator)
  : option OrchError * TridentOrchestrator :=
  match acc with
  | (Some e, o) => (Some e, o)
  | (None, o) =>
      match backends o !! storage.Backend v with
      | None =>
          (Some (mkError BootstrapErr "backend of a volume not found"), o)
      | Some _ =>
          (None,
           set_volumes (<[name := v]> (volumes o))
             (set_backends
                (alter (fun b => set_bVolumes (<[name := v]> (bVolumes b)) b)
                   (storage.Backend v) (backends o)) o))
      end
  end.

Definition bootstrapVolumes (o : TridentOrchestrator)
  : option OrchError * TridentOrchestrator :=
  fold_left (fun acc kv => restoreVolume (fst kv) (snd kv) acc)
    (map_to_list (sVolumes (storeClient o))) (None, o).

(** What the restoration of backends, classes and volumes leaves in place
    for the reconciliation of a journal entry for [name]: the states of
    the persisted backends, an untouched store, no driver call yet, and no
    volume [name]. *)
Definition restored (client : Store) (name : string)
  (o : TridentOrchestrator) : Prop :=
  (forall bn, bState <$> (backends o !! bn)
              = bpState <$> (sBackends client !! bn))
  /\ driverLog o = []
  /\ storeClient o = client
  /\ volumes o !! name = None.

(** Modelled from the spec: the clean-up for a journalled volume without
    a record is missing; section 4.5 has "Ask driver to
    Destroy(InternalName)".  A journal entry holds an operation and a
    config (section 3), and neither names a backend; a driver is the
    capability of one backend (section 2), and the internal name is what
    that driver makes of the name: [runRecoveryTests] looks the
    destroyed volume up in the fake driver of the backend, under that
    driver's [GetInternalVolumeName].  With no record to say where the
    volume may have landed, the driver asked is that of every online
    backend, each under the name it would have given the volume: one
    call with the one online backend of the recovery tests, none without
    an online backend. *)
Definition destroyEverywhere (name : string) (o : TridentOrchestrator)
  : TridentOrchestrator :=
  fold_left
    (fun o kv =>
       if bool_decide (bState (snd kv) = Online) then
         snd (callDriver
                (Destroy (fst kv) (GetInternalVolumeName (fst kv) name)) o)
       else o)
    (map_to_list (backends o)) o.





(** Modelled from the spec: transaction reconciliation is missing;
    the table of section 4.5.  For a journalled add or delete whose
    volume is absent the drivers are asked to destroy it and the
    journal entry is cleared.  When the volume is present the
    operation is rolled back or completed by deleting the volume:
    [runRecoveryTests] requires the volume to be gone from memory and
    from the store in both recovery tests. *)
Definition rollBackTransaction (t : VolumeTransaction)
  (o : TridentOrchestrator) : TridentOrchestrator :=
  let name := storage.Name (txnConfig t) in
  let o1 :=
    match Op t with
    | VolumeOperation.AddVolume | VolumeOperation.DeleteVolume =>
        match volumes o !! name with
        | Some v =>
            removeVolume v
              (snd (callDriver
                      (Destroy (storage.Backend v)
                         (storage.InternalName (storage.Config v))) o))
        | None => destroyEverywhere name o
        end
    | _ => o
    end in
  clearJournal t o1.

Definition bootstrapVolTxns (o : TridentOrchestrator)
  : TridentOrchestrator :=
  fold_left (fun o t => rollBackTransaction t o)
    (sTransactions (storeClient o)) o.

Definition spent (b : Backend) : bool :=
  bool_decide (bState b = Offline) && isEmpty (bVolumes b).

(** Modelled from the spec: section 4.5, "Empty offline backends
    discovered post-reconciliation are
    removed." *)
Definition cleanupBackends (o : TridentOrchestrator)
  : TridentOrchestrator :=
  fold_left
    (fun o kv =>
       if spent (snd kv) then
         set_storeClient
           (set_sBackends (delete (fst kv) (sBackends (storeClient o)))
              (storeClient o))
           (set_backends (delete (fst kv) (backends o)) o)
       else o)
    (map_to_list (backends o)) o.

(** Modelled from the spec: [Bootstrap] is missing; sections 4.1 and
    4.5: backends, classes, volumes, then the residual transactions,
    then the removal of empty offline backends; idempotent. *)
Definition Bootstrap (o : TridentOrchestrator)
  : option OrchError * TridentOrchestrator :=
  if bootstrapped o then (None, o)
  else
    match bootstrapVolumes (bootstrapStorageClasses (bootstrapBackends o)) with
    | (Some e, o1) => (Some e, set_bootstrap false (Some e) o1)
    | (None, o1) =>
        (None, set_bootstrap true None (cleanupBackends (bootstrapVolTxns o1)))
    end.

End Engine.
End core.

(** ** Fixtures: a small orchestrator behind the plugin

    An orchestrator without state of its own that holds one volume, for
    running the plugin on concrete requests. *)
Module csi_fixture.
Import tridentconfig storage coreerr csi.

Definition GiB : Z := 1024 * 1024 * 1024.

Definition vol1 : VolumeExternal :=
  {| Config := {| Name := "v"; InternalName := "trident_v";
                  Size := "1073741824"; Protocol := File;
                  AccessMode := ModeAny; FileSystem := "";
                  StorageClass := "basic"; CloneSourceVolume := "" |};
     Backend := "b1"; Pool := "primary"; Orphaned := false |}.

Definition holding (v : VolumeExternal) (name : string) (s : unit)
  : (option VolumeExternal * option OrchError) * unit :=
  if String.eqb name (Name (Config v)) then ((Some v, None), s)
  else ((None, Some {| kind := NotFoundErr; message := "volume not found" |}), s).

Definition fileBackends (s : unit)
  : (option (list BackendExternal) * option OrchError) * unit :=
  ((Some [ {| beName := "b1"; beProtocol := File |} ], None), s).

Definition refuseAdd (cfg : VolumeConfig) (s : unit)
  : (option VolumeExternal * option OrchError) * unit :=
  ((None, Some {| kind := OtherErr; message := "refused" |}), s).

Definition basicClass (params : gmap string string) (s : unit)
  : (OrchError + string) * unit := (inr "basic", s).

Definition plainConfig (name scName : string) (sizeBytes : Z)
  (params : gmap string string) (protocol : tridentconfig.Protocol)
  (accessMode : tridentconfig.AccessMode) : OrchError + VolumeConfig :=
  inr {| Name := name; InternalName := ""; Size := "0";
         Protocol := protocol; AccessMode := accessMode; FileSystem := "";
         StorageClass := scName; CloneSourceVolume := "" |}.

Definition mountCap (mode : option Mode) : VolumeCapability :=
  {| capAccessType := MountVolume "ext4" []; capAccessMode := mode |}.

Definition blockCap : VolumeCapability :=
  {| capAccessType := BlockVolume;
     capAccessMode := Some AccessMode_SINGLE_NODE_WRITER |}.

Definition request (name : string) (bytes : Z)
  (caps : option (list VolumeCapability)) : CreateVolumeRequest :=
  {| reqName := name;
     reqCapacityRange := Some {| RequiredBytes := bytes; LimitBytes := 0 |};
     reqVolumeCapabilities := caps;
     reqParameters := ∅ |}.

Definition w0 : World unit := {| orch := tt; calls := [] |}.

Definition run (req : CreateVolumeRequest)
  : outcome CreateVolumeResponse * World unit :=
  CreateVolume (holding vol1) fileBackends refuseAdd basicClass plainConfig
    req w0.



End csi_fixture.

(** ** Fixtures: a configuration directory and two live backends *)
Module passthrough_fixture.
Import storage persistentstore.

Definition Stat0 (path : string) : StatResult :=
  if String.eqb path "conf" then StatDir else StatNotExist.
Definition ReadDir0 (path : string) : string + list (string * bool) :=
  inr [("a.json", true); ("sub", false); ("b.yaml", true)].
Definition ReadFile0 (path : string) : option string := Some path.
Definition Join0 (dir name : string) : string :=
  String.append dir (String.append "/" name).
Definition YAMLToJSON0 (contents : string) : string + string := inr contents.
Definition Validate0 (json : string) : string + StorageDriverName :=
  inr FakeStorageDriverName.
Definition jsonUnmarshal0 (ty cfg : string) : option string := Some cfg.

Definition booted : PassthroughClient :=
  {| liveBackends := ∅;
     bootBackends :=
       [ {| bpVersion := "1"; bpConfigType := "fake_config";
            bpConfig := "conf/a.json"; bpName := ""; bpState := Online |};
         {| bpVersion := "1"; bpConfigType := "fake_config";
            bpConfig := "conf/b.yaml"; bpName := ""; bpState := Online |} ] |}.

Definition vol (name : string) : VolumeExternal :=
  {| storage.Config :=
       {| storage.Name := name; storage.InternalName := name;
          storage.Size := "1"; storage.Protocol := tridentconfig.File;
          storage.AccessMode := tridentconfig.ModeAny;
          storage.FileSystem := ""; storage.StorageClass := "";
          storage.CloneSourceVolume := "" |};
     storage.Backend := ""; storage.Pool := ""; storage.Orphaned := false |}.

Definition good (name : string) : VolumeExternalWrapper :=
  {| Volume := Some (vol name); Error := None |}.
Definition bad : VolumeExternalWrapper :=
  {| Volume := None; Error := Some "unreachable" |}.

Definition east : Backend :=
  {| Name := "east"; DriverWrappers := [good "e1"; bad; good "e2"] |}.
Definition west : Backend :=
  {| Name := "west"; DriverWrappers := [good "w1"; good "w2"] |}.

Definition live : PassthroughClient :=
  run_ops [OpAddBackend east; OpAddBackend west] booted.

End passthrough_fixture.

(** ** Fixtures: the set-up of the orchestrator test-suite

    The backends, classes and expectation tables are those of
    [TestAddStorageClassVolumes], [TestBackendUpdateAndDelete] and
    [TestAddVolumeRecovery].  The pools of [tu.GetFakePools] and the
    attribute and pool names belong to other packages; the stand-ins below
    are chosen so that the rows with attributes come out as the tables
    expect, and play no part in the rows without attributes. *)
Module core_fixture.
Import tridentconfig coreerr core.

Definition IOPS : string := "IOPS".
Definition Snapshots : string := "snapshots".
Definition ProvisioningType : string := "provisioningType".
Definition UniqueOptions : string := "uniqueOptions".
Definition Media : string := "media".
Definition TestingAttribute : string := "testingAttribute".
Definition RecoveryTest : string := "recoveryTest".

Definition SlowNoSnapshots : string := "slow-no-snapshots".
Definition SlowSnapshots : string := "slow-snapshots".
Definition FastSmall : string := "fast-small".
Definition FastThinOnly : string := "fast-thin-only".
Definition FastUniqueAttr : string := "fast-unique-attr".
Definition MediumOverlap : string := "medium-overlap".

Definition pool (attrs : list (string * Offer)) : Pool :=
  {| pAttributes := list_to_map attrs; pStorageClasses := [] |}.

Definition GetFakePools : list (string * Pool) :=
  [ (SlowNoSnapshots,
     pool [(IOPS, IntOffer 0 100); (Snapshots, BoolOffer false);
           (ProvisioningType, StringOffer ["thin"; "thick"])]);
    (SlowSnapshots,
     pool [(IOPS, IntOffer 0 100); (Snapshots, BoolOffer true);
           (ProvisioningType, StringOffer ["thin"; "thick"])]);
    (FastSmall,
     pool [(IOPS, IntOffer 1000 10000); (Snapshots, BoolOffer true);
           (ProvisioningType, StringOffer ["thin"; "thick"])]);
    (FastThinOnly,
     pool [(IOPS, IntOffer 1000 10000); (Snapshots, BoolOffer true);
           (ProvisioningType, StringOffer ["thin"])]);
    (FastUniqueAttr,
     pool [(IOPS, IntOffer 1000 10000); (Snapshots, BoolOffer true);
           (ProvisioningType, StringOffer ["thin"; "thick"]);
           (UniqueOptions, StringOffer ["foo"; "bar"; "baz"])]);
    (MediumOverlap,
     pool [(IOPS, IntOffer 500 1000); (Snapshots, BoolOffer true);
           (ProvisioningType, StringOffer ["thin"])]) ].

Definition backend (protocol : Protocol) (poolNames : list string) : Backend :=
  {| bState := Online; bProtocol := protocol;
     bStorage :=
       list_to_map
         (List.filter (fun kv => bool_decide (fst kv ∈ poolNames)) GetFakePools);
     bVolumes := ∅ |}.

Definition testBackends : gmap string Backend :=
  list_to_map
    [ ("fast-a", backend File [FastSmall; FastThinOnly]);
      ("fast-b", backend File [FastThinOnly; FastUniqueAttr]);
      ("slow-file", backend File [SlowNoSnapshots; SlowSnapshots]);
      ("slow-block", backend Block [SlowNoSnapshots; SlowSnapshots; MediumOverlap]) ].

(** An orchestrator that has come up with the given backends. *)
Definition running (bs : gmap string Backend) : TridentOrchestrator :=
  {| bootstrapped := true; bootstrapError := None;
     backends := bs; storageClasses := ∅; volumes := ∅;
     storeClient := {| sBackends := ConstructPersistent <$> bs;
                       sStorageClasses := ∅; sVolumes := ∅;
                       sTransactions := [] |};
     driverLog := [] |}.

Definition class (name : string) (attrs : list (string * Request))
  (pools additional : list (string * list string)) : Config :=
  {| scName := name; Attributes := list_to_map attrs;
     Pools := list_to_map pools; AdditionalPools := list_to_map additional |}.

Record storageClassTest := {
  testConfig : Config;
  expected : list (string * string)
}.

Definition fastAttrs : list (string * Request) :=
  [(IOPS, IntRequest 2000); (Snapshots, BoolRequest true);
   (ProvisioningType, StringRequest "thin")].

Definition additionalPoolsNoMatch : Config :=
  class "additionalPoolsNoMatch" [] [] [("unknown", [FastThinOnly])].

Definition scTests : list storageClassTest :=
  [ {| testConfig :=
         class "slow" [(IOPS, IntRequest 40); (Snapshots, BoolRequest true);
                       (ProvisioningType, StringRequest "thin")] [] [];
       expected := [("slow-file", SlowSnapshots); ("slow-block", SlowSnapshots)] |};
    {| testConfig := class "fast" fastAttrs [] [];
       expected := [("fast-a", FastSmall); ("fast-a", FastThinOnly);
                    ("fast-b", FastThinOnly); ("fast-b", FastUniqueAttr)] |};
    {| testConfig :=
         class "fast-unique"
           (fastAttrs ++ [(UniqueOptions, StringRequest "baz")]) [] [];
       expected := [("fast-b", FastUniqueAttr)] |};
    {| testConfig :=
         class "pools" []
           [("fast-a", [FastSmall]);
            ("slow-block", [SlowNoSnapshots; MediumOverlap])] [];
       expected := [("fast-a", FastSmall); ("slow-block", SlowNoSnapshots);
                    ("slow-block", MediumOverlap)] |};
    {| testConfig :=
         class "additionalPools" [] []
           [("fast-a", [FastThinOnly]);
            ("slow-block", [SlowNoSnapshots; MediumOverlap])];
       expected := [("fast-a", FastThinOnly); ("slow-block", SlowNoSnapshots);
                    ("slow-block", MediumOverlap)] |};
    {| testConfig :=
         class "poolsWithAttributes"
           [(IOPS, IntRequest 2000); (Snapshots, BoolRequest true)]
           [("fast-a", [FastThinOnly]);
            ("slow-block", [SlowNoSnapshots; MediumOverlap])] [];
       expected := [("fast-a", FastThinOnly)] |};
    {| testConfig :=
         class "additionalPoolsWithAttributes"
           [(IOPS, IntRequest 2000); (Snapshots, BoolRequest true)] []
           [("fast-a", [FastThinOnly]); ("slow-block", [SlowNoSnapshots])];
       expected := [("fast-a", FastSmall); ("fast-a", FastThinOnly);
                    ("fast-b", FastThinOnly); ("fast-b", FastUniqueAttr);
                    ("slow-block", SlowNoSnapshots)] |};
    {| testConfig :=
         class "additionalPoolsWithAttributesAndPools"
           [(IOPS, IntRequest 2000); (Snapshots, BoolRequest true)]
           [("fast-a", [FastThinOnly]);
            ("slow-block", [SlowNoSnapshots; MediumOverlap])]
           [("fast-b", [FastThinOnly]); ("slow-block", [SlowNoSnapshots])];
       expected := [("fast-a", FastThinOnly); ("fast-b", FastThinOnly);
                    ("slow-block", SlowNoSnapshots)] |};
    {| testConfig := additionalPoolsNoMatch; expected := [] |};
    {| testConfig :=
         class "mixed" fastAttrs []
           [("slow-file", [SlowNoSnapshots]);
            ("fast-b", [FastThinOnly; FastUniqueAttr])];
       expected := [("fast-a", FastSmall); ("fast-a", FastThinOnly);
                    ("fast-b", FastThinOnly); ("fast-b", FastUniqueAttr);
                    ("slow-file", SlowNoSnapshots)] |};
    {| testConfig := class "emptyStorageClass" [] [] [];
       expected := [("fast-a", FastSmall); ("fast-a", FastThinOnly);
                    ("fast-b", FastThinOnly); ("fast-b", FastUniqueAttr);
                    ("slow-file", SlowNoSnapshots); ("slow-file", SlowSnapshots);
                    ("slow-block", SlowNoSnapshots); ("slow-block", SlowSnapshots);
                    ("slow-block", MediumOverlap)] |} ].

Definition subset (l1 l2 : list (string * string)) : bool :=
  forallb (fun x => bool_decide (x ∈ l2)) l1.
Definition samePairs (l1 l2 : list (string * string)) : bool :=
  subset l1 l2 && subset l2 l1.

(** What [validateStorageClass] checks for one row: the class was added
    and its pools are the expected ones. *)
Definition passes (o : TridentOrchestrator) (t : storageClassTest) : bool :=
  match fst (AddStorageClass (testConfig t) o) with
  | (Some ext, None) => samePairs (StoragePools ext) (expected t)
  | _ => false
  end.

(** The rows are run one after the other on the same orchestrator. *)
Fixpoint validate (tests : list storageClassTest) (o : TridentOrchestrator)
  : bool :=
  match tests with
  | [] => true
  | t :: rest =>
      passes o t && validate rest (snd (AddStorageClass (testConfig t) o))
  end.

(** The fake driver: it accepts every call; internal names as in the
    crash-recovery scenario of the specification. *)
Definition fakeDriver (log : list DriverCall) (c : DriverCall)
  : option DriverError := None.
Definition fakeInternalName (backend name : string) : string :=
  String.append name "-internal".

Definition generateVolumeConfig (name : string) (gb : Z)
  (storageClass : string) (protocol : Protocol) : storage.VolumeConfig :=
  {| storage.Name := name; storage.InternalName := "";
     storage.Size := strconv.FormatInt (gb * 1024 * 1024 * 1024);
     storage.Protocol := protocol; storage.AccessMode := ModeAny;
     storage.FileSystem := ""; storage.StorageClass := storageClass;
     storage.CloneSourceVolume := "" |}.

(** [TestBackendUpdateAndDelete], from the last backend update on. *)
Definition primary : Pool :=
  pool [(Media, StringOffer ["ssd"; "hdd"]);
        (ProvisioningType, StringOffer ["thick"; "thin"]);
        (TestingAttribute, BoolOffer true)].

Definition updateBackend : Backend :=
  {| bState := Online; bProtocol := File;
     bStorage := {[ "primary" := primary ]}; bVolumes := ∅ |}.

Definition updateBackendTest : Config :=
  class "updateBackendTest"
    [(Media, StringRequest "hdd"); (ProvisioningType, StringRequest "thick");
     (TestingAttribute, BoolRequest true)] [] [].

Definition updateBackendTest2 : Config :=
  class "updateBackendTest2"
    [(Media, StringRequest "hdd"); (TestingAttribute, BoolRequest true)] [] [].

Definition withVolume : TridentOrchestrator :=
  snd (AddVolume fakeInternalName fakeDriver
         (generateVolumeConfig "updateVolume" 50 "updateBackendTest" File)
         (snd (AddStorageClass updateBackendTest
                 (running {[ "updateBackend" := updateBackend ]})))).

Definition offlined : TridentOrchestrator :=
  snd (DeleteBackend "updateBackend" withVolume).

(** The same backend with a second volume on it. *)
Definition withTwoVolumes : TridentOrchestrator :=
  snd (AddVolume fakeInternalName fakeDriver
         (generateVolumeConfig "secondVolume" 50 "updateBackendTest" File)
         withVolume).

(** [TestAddVolumeRecovery], the transaction-only case: the store as a
    crash between journalling and creation leaves it. *)
Definition recoveryStore : Store :=
  {| sBackends :=
       {[ "addRecoveryBackend" :=
            {| bpState := Online; bpProtocol := File;
               bpPools :=
                 {[ "primary" :=
                      list_to_map
                        [(Media, StringOffer ["hdd"]);
                         (ProvisioningType, StringOffer ["thick"; "thin"]);
                         (RecoveryTest, BoolOffer true)] ]} |} ]};
     sStorageClasses :=
       {[ "addRecoveryBackendSC" :=
            class "addRecoveryBackendSC"
              [(Media, StringRequest "hdd");
               (ProvisioningType, StringRequest "thick");
               (RecoveryTest, BoolRequest true)] [] [] ]};
     sVolumes := ∅;
     sTransactions :=
       [ {| Op := VolumeOperation.AddVolume;
            txnConfig :=
              generateVolumeConfig "addRecoveryVolumeTxOnly" 50
                "addRecoveryBackendSC" File |} ] |}.






End core_fixture.

(** ** Fixtures: the plugin in front of the engine

    The CSI controller wired to an orchestrator that holds one backend and
    one class, for the scenario "idempotent CSI CreateVolume". *)
Module wired_fixture.
Import tridentconfig storage coreerr csi core_fixture.

Definition engineBackends (o : core.TridentOrchestrator)
  : (option (list BackendExternal) * option OrchError)
    * core.TridentOrchestrator :=
  let '((r, e), o') := core.ListBackends o in
  ((map (fun kv => {| beName := fst kv; beProtocol := core.bProtocol (snd kv) |})
      <$> r, e), o').

Definition engineClass (params : gmap string string)
  (o : core.TridentOrchestrator)
  : (OrchError + string) * core.TridentOrchestrator :=
  (inr "updateBackendTest", o).

Definition engineConfig (name scName : string) (sizeBytes : Z)
  (params : gmap string string) (protocol : tridentconfig.Protocol)
  (accessMode : tridentconfig.AccessMode) : OrchError + VolumeConfig :=
  inr {| Name := name; InternalName := "";
         Size := strconv.FormatInt sizeBytes;
         Protocol := protocol; AccessMode := accessMode; FileSystem := "";
         StorageClass := scName; CloneSourceVolume := "" |}.

Definition controller (req : CreateVolumeRequest)
  : M (outcome CreateVolumeResponse) :=
  CreateVolume core.GetVolume engineBackends
    (core.AddVolume fakeInternalName fakeDriver) engineClass engineConfig req.

Definition fresh : World core.TridentOrchestrator :=
  {| orch := snd (core.AddStorageClass updateBackendTest
                    (running {[ "updateBackend" := updateBackend ]}));
     calls := [] |}.

Definition ask (bytes : Z) : CreateVolumeRequest :=
  csi_fixture.request "v" bytes
    (Some [csi_fixture.mountCap (Some AccessMode_SINGLE_NODE_WRITER)]).

End wired_fixture.

(** ** Go's package strings, the functions the drivers call

    Go strings are byte sequences and these functions work byte by byte,
    as do the definitions here. *)
Module gostrings.

(** [strings.HasPrefix(s, prefix)] *)
Fixpoint HasPrefix (s prefix : string) {struct prefix} : bool :=
  match prefix with
  | EmptyString => true
  | String p prefix' =>
      match s with
      | EmptyString => false
      | String c s' => Ascii.eqb c p && HasPrefix s' prefix'
      end
  end.

(** The slice [s[n:]] for [n <= len(s)]. *)
Fixpoint from (n : nat) (s : string) : string :=
  match n, s with
  | O, _ => s
  | S n', String _ s' => from n' s'
  | S _, EmptyString => EmptyString
  end.

(** [strings.TrimPrefix(s, prefix)] *)
Definition TrimPrefix (s prefix : string) : string :=
  if HasPrefix s prefix then from (String.length prefix) s else s.

(** The loop of [strings.Replace(s, old, new, -1)] for a non-empty [old],
    given as its first byte [o] and the rest [os]: occurrences are taken
    from the left and do not overlap.  [skip] counts the bytes of the
    occurrence just replaced that are still to be passed over. *)
Fixpoint replaceFrom (skip : nat) (o : ascii) (os new s : string) : string :=
  match s with
  | EmptyString => EmptyString
  | String c s' =>
      match skip with
      | S k => replaceFrom k o os new s'
      | O =>
          if HasPrefix s (String o os)
          then new +:+ replaceFrom (String.length os) o os new s'
          else String c (replaceFrom 0 o os new s')
      end
  end.

(** [strings.Replace(s, old, new, -1)] with [old] the string [o :: os]. *)
Definition Replace (s : string) (o : ascii) (os : string) (new : string)
  : string := replaceFrom 0 o os new s.

(** [strings.Replace(s, old, "", -1)]: every occurrence of [old] is
    removed.  With an empty [old] Go inserts the (empty) replacement at
    every rune boundary, which leaves [s] as it is. *)
Definition Remove (s old : string) : string :=
  match old with
  | EmptyString => s
  | String o os => replaceFrom 0 o os "" s
  end.

(** [strings.Split(s, sep)] for a separator of one byte. *)
Fixpoint Split (s : string) (sep : ascii) : list string :=
  match s with
  | EmptyString => [EmptyString]
  | String c s' =>
      if Ascii.eqb c sep then EmptyString :: Split s' sep
      else match Split s' sep with
           | field :: fields => String c field :: fields
           | [] => [String c EmptyString]
           end
  end.

(** [strconv.FormatBool] *)
Definition FormatBool (b : bool) : string := if b then "true" else "false".

End gostrings.

(** ** package utils: the records handed between frontends and drivers *)
Module utils.

Record VolumeAccessInfo := {
  IscsiTargetPortal : string;
  IscsiPortals : list string;
  IscsiTargetIQN : string;
  IscsiLunNumber : Z;
  IscsiInterface : string;
  IscsiIgroup : string;
  IscsiVAGs : list Z;
  IscsiUsername : string;
  IscsiInitiatorSecret : string;
  IscsiTargetSecret : string;
  NfsServerIP : string;
  NfsPath : string;
  MountOptions : string
}.

(** [utils.VolumeAccessInfo{}] *)
Definition noAccessInfo : VolumeAccessInfo :=
  {| IscsiTargetPortal := ""; IscsiPortals := []; IscsiTargetIQN := "";
     IscsiLunNumber := 0; IscsiInterface := ""; IscsiIgroup := "";
     IscsiVAGs := []; IscsiUsername := ""; IscsiInitiatorSecret := "";
     IscsiTargetSecret := ""; NfsServerIP := ""; NfsPath := "";
     MountOptions := "" |}.

(** [utils.VolumePublishInfo]; the access information is an embedded
    struct there. *)
Record VolumePublishInfo := {
  Localhost : bool;
  HostIQN : list string;
  HostIP : list string;
  HostName : string;
  FilesystemType : string;
  UseCHAP : bool;
  SharedTarget : bool;
  PublishAccessInfo : VolumeAccessInfo
}.

Record Node := { NodeName : string; IQN : string }.

End utils.

(** ** package storage, the volume records in full

    [storage] above keeps the fields the orchestrator and [CreateVolume]
    look at.  The publishing handlers, the Kubernetes frontend and the
    drivers read and write more of [storage.VolumeConfig]; these records
    carry every field they touch, and [view] projects them onto the
    records of [storage]. *)
Module storagefull.

Record VolumeConfig := {
  Version : string;
  Name : string;
  InternalName : string;
  Size : string;
  Protocol : tridentconfig.Protocol;
  SnapshotPolicy : string;
  SnapshotReserve : string;
  ExportPolicy : string;
  SnapshotDir : string;
  UnixPermissions : string;
  StorageClass : string;
  AccessMode : tridentconfig.AccessMode;
  AccessInfo : utils.VolumeAccessInfo;
  BlockSize : string;
  FileSystem : string;
  CloneSourceVolume : string;
  CloneSourceVolumeInternal : string;
  CloneSourceSnapshot : string;
  SplitOnClone : string;
  QoS : string;
  QoSType : string
}.

Record VolumeExternal := {
  Config : VolumeConfig;
  Backend : string;
  Pool : string;
  Orphaned : bool
}.

Definition viewConfig (c : VolumeConfig) : storage.VolumeConfig :=
  {| storage.Name := Name c; storage.InternalName := InternalName c;
     storage.Size := Size c; storage.Protocol := Protocol c;
     storage.AccessMode := AccessMode c; storage.FileSystem := FileSystem c;
     storage.StorageClass := StorageClass c;
     storage.CloneSourceVolume := CloneSourceVolume c |}.

Definition view (v : VolumeExternal) : storage.VolumeExternal :=
  {| storage.Config := viewConfig (Config v); storage.Backend := Backend v;
     storage.Pool := Pool v; storage.Orphaned := Orphaned v |}.

End storagefull.

(** ** package csi: the other handlers of the controller *)
Module csicontroller.
Import tridentconfig coreerr csi.

(** Requests arrive as pointers and are read through the generated
    getters, which answer the zero value on a nil request. *)
Record DeleteVolumeRequest := { delVolumeId : string }.

Record ControllerPublishVolumeRequest := {
  pubVolumeId : string;
  pubNodeId : string;
  pubVolumeCapability : option VolumeCapability
}.

Record ControllerUnpublishVolumeRequest := { unpubVolumeId : string }.

Record ValidateVolumeCapabilitiesRequest := {
  valVolumeId : string;
  valVolumeCapabilities : option (list VolumeCapability)
}.

Record ControllerPublishVolumeResponse := {
  PublishContext : gmap string string
}.

(** [Confirmed] is the capability list of the [Confirmed] message, when
    that message is set. *)
Record ValidateVolumeCapabilitiesResponse := {
  Confirmed : option (list VolumeCapability);
  Message : string
}.

Record ListVolumesResponse := { Entries : list Volume }.

(** *** [stashIscsiTargetPortals] *)

(** The loop over [accessInfo.IscsiPortals], [i] being the index of the
    head of [portals]. *)
Fixpoint stashPortals (i : nat) (portals : list string)
  (publishInfo : gmap string string) : gmap string string :=
  match portals with
  | [] => publishInfo
  | p :: rest =>
      let key := "p" +:+ strconv.FormatInt (Z.of_nat i + 2) in
      stashPortals (S i) rest (<[key := p]> publishInfo)
  end.

Definition stashIscsiTargetPortals (publishInfo : gmap string string)
  (accessInfo : utils.VolumeAccessInfo) : gmap string string :=
  let count := 1 + Z.of_nat (length (utils.IscsiPortals accessInfo)) in
  let publishInfo :=
    <["iscsiTargetPortalCount" := strconv.FormatInt count]> publishInfo in
  let publishInfo :=
    <["p1" := utils.IscsiTargetPortal accessInfo]> publishInfo in
  stashPortals 0 (utils.IscsiPortals accessInfo) publishInfo.

(** *** The orchestrator behind these handlers *)
Inductive Call :=
| CallDeleteVolume (name : string)
| CallGetVolume (name : string)
| CallGetNode (name : string)
| CallPublishVolume (name : string) (info : utils.VolumePublishInfo)
| CallListVolumes.

Record Session (S : Type) := { state : S; log : list Call }.
Arguments state {S} _.
Arguments log {S} _.

Section Controller.
Context {S : Type}.

Variable orchDeleteVolume : string -> S -> option OrchError * S.
Variable orchGetVolume :
  string -> S -> (option storagefull.VolumeExternal * option OrchError) * S.
Variable orchGetNode :
  string -> S -> (option utils.Node * option OrchError) * S.
(** [PublishVolume] is handed a pointer to the publish info and may write
    to it; the record that comes back is the publish info afterwards. *)
Variable orchPublishVolume :
  string -> utils.VolumePublishInfo -> S ->
  (utils.VolumePublishInfo * option OrchError) * S.
Variable orchListVolumes :
  S -> (list (option storagefull.VolumeExternal) * option OrchError) * S.

Definition H (A : Type) : Type := Session S -> A * Session S.

Definition ret {A} (a : A) : H A := fun w => (a, w).
Definition bind {A B} (m : H A) (k : A -> H B) : H B :=
  fun w => let '(a, w') := m w in k a w'.
Definition invoke {A} (c : Call) (f : S -> A * S) : H A :=
  fun w =>
    let '(a, s') := f (state w) in
    (a, {| state := s'; log := log w ++ [c] |}).

Notation "x <~ m ;; k" := (bind m (fun x => k))
  (at level 100, m at next level, right associativity).

Definition delGetVolumeId (req : option DeleteVolumeRequest) : string :=
  match req with Some r => delVolumeId r | None => "" end.

Definition DeleteVolume (req : option DeleteVolumeRequest)
  : H (outcome unit) :=
  if decide (delGetVolumeId req = "") then
    ret (Err {| code := InvalidArgument; msg := "no volume ID provided" |})
  else
    err <~ invoke (CallDeleteVolume (delGetVolumeId req))
             (orchDeleteVolume (delGetVolumeId req)) ;;
    match err with
    | Some e =>
        if negb (IsNotFoundError e)
        then ret (Err (getCSIErrorForOrchestratorError e))
        else ret (Ok tt)
    | None => ret (Ok tt)
    end.

Definition pubGetVolumeId (req : option ControllerPublishVolumeRequest)
  : string :=
  match req with Some r => pubVolumeId r | None => "" end.
Definition pubGetNodeId (req : option ControllerPublishVolumeRequest)
  : string :=
  match req with Some r => pubNodeId r | None => "" end.
Definition pubGetVolumeCapability
  (req : option ControllerPublishVolumeRequest) : option VolumeCapability :=
  match req with Some r => pubVolumeCapability r | None => None end.

(** The publish context built at the end of [ControllerPublishVolume]. *)
Definition publishContext (volume : storagefull.VolumeExternal)
  (volumePublishInfo : utils.VolumePublishInfo) : gmap string string :=
  let config := storagefull.Config volume in
  let accessInfo := storagefull.AccessInfo config in
  let publishInfo : gmap string string :=
    {[ "protocol" := Protocol_string (storagefull.Protocol config) ]} in
  if decide (storagefull.Protocol config = File) then
    <["nfsPath" := utils.NfsPath accessInfo]>
      (<["nfsServerIp" := utils.NfsServerIP accessInfo]> publishInfo)
  else if decide (storagefull.Protocol config = Block) then
    <["sharedTarget" :=
        gostrings.FormatBool (utils.SharedTarget volumePublishInfo)]>
    (<["useCHAP" := gostrings.FormatBool (utils.UseCHAP volumePublishInfo)]>
    (<["filesystemType" := utils.FilesystemType volumePublishInfo]>
    (<["iscsiTargetSecret" := utils.IscsiTargetSecret accessInfo]>
    (<["iscsiInitiatorSecret" := utils.IscsiInitiatorSecret accessInfo]>
    (<["iscsiUsername" := utils.IscsiUsername accessInfo]>
    (<["iscsiIgroup" := utils.IscsiIgroup accessInfo]>
    (<["iscsiInterface" := utils.IscsiInterface accessInfo]>
    (<["iscsiLunNumber" :=
        strconv.FormatInt (utils.IscsiLunNumber accessInfo)]>
    (<["iscsiTargetIqn" := utils.IscsiTargetIQN accessInfo]>
    (stashIscsiTargetPortals publishInfo accessInfo))))))))))
  else publishInfo.

(** The volume [GetVolume] returned is read again after [PublishVolume];
    [PublishVolume] is handed the volume name and the publish info, and
    the volume record is taken to be as it was. *)
Definition ControllerPublishVolume
  (req : option ControllerPublishVolumeRequest)
  : H (outcome ControllerPublishVolumeResponse) :=
  let volumeID := pubGetVolumeId req in
  if decide (volumeID = "") then
    ret (Err {| code := InvalidArgument; msg := "no volume ID provided" |})
  else
  let nodeID := pubGetNodeId req in
  if decide (nodeID = "") then
    ret (Err {| code := InvalidArgument; msg := "no node ID provided" |})
  else
  match pubGetVolumeCapability req with
  | None =>
      ret (Err {| code := InvalidArgument;
                  msg := "no volume capabilities provided" |})
  | Some _ =>
      r <~ invoke (CallGetVolume volumeID) (orchGetVolume volumeID) ;;
      match r with
      | (_, Some e) => ret (Err (getCSIErrorForOrchestratorError e))
      | (volume, None) =>
          n <~ invoke (CallGetNode nodeID) (orchGetNode nodeID) ;;
          match n with
          | (_, Some e) => ret (Err {| code := NotFound; msg := message e |})
          | (None, None) => ret Panic
          | (Some nodeInfo, None) =>
              let volumePublishInfo :=
                {| utils.Localhost := false;
                   utils.HostIQN := [utils.IQN nodeInfo];
                   utils.HostIP := [];
                   utils.HostName := utils.NodeName nodeInfo;
                   utils.FilesystemType := "";
                   utils.UseCHAP := false;
                   utils.SharedTarget := false;
                   utils.PublishAccessInfo := utils.noAccessInfo |} in
              match volume with
              | None => ret Panic
              | Some volume =>
                  let name := storagefull.Name (storagefull.Config volume) in
                  p <~ invoke (CallPublishVolume name volumePublishInfo)
                         (orchPublishVolume name volumePublishInfo) ;;
                  match p with
                  | (_, Some e) =>
                      ret (Err {| code := Internal; msg := message e |})
                  | (volumePublishInfo', None) =>
                      ret (Ok {| PublishContext :=
                                   publishContext volume volumePublishInfo' |})
                  end
              end
          end
      end
  end.

Definition unpubGetVolumeId (req : option ControllerUnpublishVolumeRequest)
  : string :=
  match req with Some r => unpubVolumeId r | None => "" end.

Definition ControllerUnpublishVolume
  (req : option ControllerUnpublishVolumeRequest) : H (outcome unit) :=
  let volumeID := unpubGetVolumeId req in
  if decide (volumeID = "") then
    ret (Err {| code := InvalidArgument; msg := "no volume ID provided" |})
  else
    r <~ invoke (CallGetVolume volumeID) (orchGetVolume volumeID) ;;
    match r with
    | (_, Some e) => ret (Err (getCSIErrorForOrchestratorError e))
    | (_, None) => ret (Ok tt)
    end.

Definition valGetVolumeId (req : option ValidateVolumeCapabilitiesRequest)
  : string :=
  match req with Some r => valVolumeId r | None => "" end.
Definition valGetVolumeCapabilities
  (req : option ValidateVolumeCapabilitiesRequest)
  : option (list VolumeCapability) :=
  match req with Some r => valVolumeCapabilities r | None => None end.

(** The loop of [ValidateVolumeCapabilities]: [Ok (Some m)] is the early
    return with message [m], [Ok None] the fall through.  The first
    capability dereferences the volume and its own access mode. *)
Fixpoint validateLoop (volume : option storagefull.VolumeExternal)
  (caps : list VolumeCapability) : outcome (option string) :=
  match caps with
  | [] => Ok None
  | v :: rest =>
      match volume, capAccessMode v with
      | Some vol, Some mode =>
          let config := storagefull.Config vol in
          if decide (storagefull.AccessMode config
                     <> getAccessForCSIAccessMode mode) then
            Ok (Some "Could not satisfy one or more access modes.")
          else
            match capAccessType v with
            | BlockVolume =>
                if decide (storagefull.Protocol config <> Block) then
                  Ok (Some "Could not satisfy block protocol.")
                else validateLoop volume rest
            | _ =>
                if decide (storagefull.Protocol config <> File) then
                  Ok (Some "Could not satisfy file protocol.")
                else validateLoop volume rest
            end
      | _, _ => Panic
      end
  end.

Definition ValidateVolumeCapabilities
  (req : option ValidateVolumeCapabilitiesRequest)
  : H (outcome ValidateVolumeCapabilitiesResponse) :=
  let volumeID := valGetVolumeId req in
  if decide (volumeID = "") then
    ret (Err {| code := InvalidArgument; msg := "no volume ID provided" |})
  else
  match valGetVolumeCapabilities req with
  | None =>
      ret (Err {| code := InvalidArgument;
                  msg := "no volume capabilities provided" |})
  | Some caps =>
      r <~ invoke (CallGetVolume volumeID) (orchGetVolume volumeID) ;;
      match r with
      | (_, Some _) =>
          ret (Err {| code := NotFound; msg := "volume not found" |})
      | (volume, None) =>
          ret match validateLoop volume caps with
              | Panic => Panic
              | Err st => Err st
              | Ok (Some m) => Ok {| Confirmed := None; Message := m |}
              | Ok None =>
                  Ok {| Confirmed := Some caps; Message := "" |}
              end
      end
  end.

(** The loop of [ListVolumes]; a nil entry of the list is dereferenced
    by [getCSIVolumeFromTridentVolume]. *)
Fixpoint listEntries (volumes : list (option storagefull.VolumeExternal))
  (entries : list Volume) : outcome (list Volume) :=
  match volumes with
  | [] => Ok entries
  | None :: _ => Panic
  | Some volume :: rest =>
      listEntries rest
        (entries ++ [getCSIVolumeFromTridentVolume (storagefull.view volume)])
  end.

Definition ListVolumes : H (outcome ListVolumesResponse) :=
  r <~ invoke CallListVolumes orchListVolumes ;;
  match r with
  | (_, Some e) => ret (Err (getCSIErrorForOrchestratorError e))
  | (volumes, None) =>
      ret match listEntries volumes [] with
          | Ok entries => Ok {| Entries := entries |}
          | Err st => Err st
          | Panic => Panic
          end
  end.

Definition GetCapacity : H (outcome unit) :=
  ret (Err {| code := Unimplemented; msg := "" |}).
Definition CreateSnapshot : H (outcome unit) :=
  ret (Err {| code := Unimplemented; msg := "" |}).
Definition DeleteSnapshot : H (outcome unit) :=
  ret (Err {| code := Unimplemented; msg := "" |}).
Definition ListSnapshots : H (outcome unit) :=
  ret (Err {| code := Unimplemented; msg := "" |}).

End Controller.
End csicontroller.

(** ** package kubernetes: frontend/kubernetes, volumes *)
Module kubernetes.

(** [v1.PersistentVolumeAccessMode] and [v1.ResourceName] are string
    types; a [resource.Quantity] is represented by its [Value()]. *)
Definition ResourceStorage : string := "storage".

Record PersistentVolume := {
  pvName : string;
  pvCapacity : gmap string Z;
  pvAccessModes : list string
}.

Record PersistentVolumeClaim := {
  pvcName : string;
  pvcRequests : gmap string Z;
  pvcAccessModes : list string
}.

(** The inner loop of [canPVMatchWithPVC]: is [claimMode] among the
    modes of the volume? *)
Fixpoint found (claimMode : string) (volumeAccessModes : list string)
  : bool :=
  match volumeAccessModes with
  | [] => false
  | volumeMode :: rest =>
      if String.eqb claimMode volumeMode then true else found claimMode rest
  end.

(** The outer loop. *)
Fixpoint allFound (claimAccessModes volumeAccessModes : list string)
  : bool :=
  match claimAccessModes with
  | [] => true
  | claimMode :: rest =>
      if negb (found claimMode volumeAccessModes) then false
      else allFound rest volumeAccessModes
  end.

Definition canPVMatchWithPVC (pv : PersistentVolume)
  (claim : PersistentVolumeClaim) : bool :=
  let claimSize := default 0 (pvcRequests claim !! ResourceStorage) in
  match pvCapacity pv !! ResourceStorage with
  | None => false
  | Some volumeSize =>
      if volumeSize <? claimSize then false
      else allFound (pvcAccessModes claim) (pvAccessModes pv)
  end.

Definition getAnnotation (annotations : gmap string string) (key : string)
  : string :=
  match annotations !! key with
  | Some val => val
  | None => ""
  end.

(** The volume config [getVolumeConfig] fills in.  Protocol and access
    mode are conversions of strings taken from the claim, so they are
    strings here. *)
Record VolumeConfig := {
  Name : string;
  Size : string;
  Protocol : string;
  SnapshotPolicy : string;
  SnapshotReserve : string;
  SnapshotDir : string;
  ExportPolicy : string;
  UnixPermissions : string;
  StorageClass : string;
  BlockSize : string;
  FileSystem : string;
  CloneSourceVolume : string;
  SplitOnClone : string;
  AccessMode : string
}.

Section Annotations.
(** The annotation keys and the two access modes of package [config]
    are constants declared elsewhere. *)
Variables AnnFileSystem AnnProtocol AnnSnapshotPolicy AnnSnapshotReserve
  AnnSnapshotDir AnnExportPolicy AnnUnixPermissions AnnClass AnnBlockSize
  AnnCloneFromPVC AnnSplitOnClone : string.
Variables ReadWriteMany ModeAny : string.

(** The annotations are a Go map, written to in place: the second
    component is the map as the caller finds it afterwards.  A nil map
    ([None]) can be read but not written to: with a nil map the default
    file system cannot be stored and the function panics (the result
    [None]). *)
Definition getVolumeConfig (accessModes : list string) (name : string)
  (size : Z) (annotations : option (gmap string string))
  : option (VolumeConfig * gmap string string) :=
  let accessMode :=
    match accessModes with
    | _ :: _ :: _ => ReadWriteMany
    | [] => ModeAny
    | [mode] => mode
    end in
  let written :=
    match annotations with
    | None => None
    | Some m =>
        if decide (getAnnotation m AnnFileSystem = "")
        then Some (<[AnnFileSystem := "ext4"]> m)
        else Some m
    end in
  match written with
  | None => None
  | Some annotations =>
      Some
        ({| Name := name;
            Size := strconv.FormatInt size;
            Protocol := getAnnotation annotations AnnProtocol;
            SnapshotPolicy := getAnnotation annotations AnnSnapshotPolicy;
            SnapshotReserve := getAnnotation annotations AnnSnapshotReserve;
            SnapshotDir := getAnnotation annotations AnnSnapshotDir;
            ExportPolicy := getAnnotation annotations AnnExportPolicy;
            UnixPermissions := getAnnotation annotations AnnUnixPermissions;
            StorageClass := getAnnotation annotations AnnClass;
            BlockSize := getAnnotation annotations AnnBlockSize;
            FileSystem := getAnnotation annotations AnnFileSystem;
            CloneSourceVolume := getAnnotation annotations AnnCloneFromPVC;
            SplitOnClone := getAnnotation annotations AnnSplitOnClone;
            AccessMode := accessMode |},
         annotations)
  end.

End Annotations.

Record NFSVolumeSource := { Server : string; Path : string }.

Definition CreateNFSVolumeSource (vol : storagefull.VolumeExternal)
  : NFSVolumeSource :=
  let volConfig := storagefull.Config vol in
  {| Server := utils.NfsServerIP (storagefull.AccessInfo volConfig);
     Path := utils.NfsPath (storagefull.AccessInfo volConfig) |}.

Record SecretReference := { secretName : string; secretNamespace : string }.

Record ISCSIPersistentVolumeSource := {
  TargetPortal : string;
  Portals : list string;
  IQN : string;
  Lun : Z;
  ISCSIInterface : string;
  FSType : string;
  DiscoveryCHAPAuth : bool;
  SessionCHAPAuth : bool;
  SecretRef : option SecretReference
}.

(** The calls made on [k8sclient.Interface]. *)
Inductive ClientCall :=
| CallNamespace
| CallCheckSecretExists (secretName : string)
| CallCreateCHAPSecret (secretName username initiatorSecret targetSecret : string).

Section Client.
Context {K Version : Type}.

Variable Namespace : K -> string * K.
Variable CheckSecretExists : string -> K -> (bool * option string) * K.
(** The secret that [CreateCHAPSecret] returns is dropped by its caller;
    the error is what is kept. *)
Variable CreateCHAPSecret :
  string -> string -> string -> string -> K -> option string * K.
(** [kubeVersion.AtLeast(MustParseSemantic(min))]. *)
Variable AtLeast : Version -> string -> bool.
Variable GetCHAPSecretName : storagefull.VolumeExternal -> string.

Definition findOrCreateCHAPSecret (kubeVersion : Version)
  (vol : storagefull.VolumeExternal) (k : K * list ClientCall)
  : (string * option string) * (K * list ClientCall) :=
  let volConfig := storagefull.Config vol in
  let secretName := GetCHAPSecretName vol in
  if negb (AtLeast kubeVersion "v1.7.0") then
    ((secretName,
      Some "cannot use CHAP with Kubernetes version < v1.7.0"), k)
  else
    let '((secretExists, _), k1) := CheckSecretExists secretName (fst k) in
    let log1 := snd k ++ [CallCheckSecretExists secretName] in
    if negb secretExists then
      let info := storagefull.AccessInfo volConfig in
      let '(creationErr, k2) :=
        CreateCHAPSecret secretName (utils.IscsiUsername info)
          (utils.IscsiInitiatorSecret info) (utils.IscsiTargetSecret info)
          k1 in
      let log2 :=
        log1 ++ [CallCreateCHAPSecret secretName (utils.IscsiUsername info)
                   (utils.IscsiInitiatorSecret info)
                   (utils.IscsiTargetSecret info)] in
      match creationErr with
      | Some e => ((secretName, Some e), (k2, log2))
      | None => ((secretName, None), (k2, log2))
      end
    else ((secretName, None), (k1, log1)).

Definition CreateISCSIPersistentVolumeSource (kubeVersion : Version)
  (vol : storagefull.VolumeExternal) (k : K * list ClientCall)
  : (string + ISCSIPersistentVolumeSource) * (K * list ClientCall) :=
  let '(namespace, k) :=
    if AtLeast kubeVersion "v1.9.0" then
      let '(ns, k') := Namespace (fst k) in
      (ns, (k', snd k ++ [CallNamespace]))
    else ("", k) in
  let volConfig := storagefull.Config vol in
  let info := storagefull.AccessInfo volConfig in
  let portals :=
    if AtLeast kubeVersion "v1.6.0" then utils.IscsiPortals info else [] in
  if negb (String.eqb (utils.IscsiTargetSecret info) "") then
    let '((secretName, chapError), k) :=
      findOrCreateCHAPSecret kubeVersion vol k in
    match chapError with
    | Some e => (inl e, k)
    | None =>
        (inr {| TargetPortal := utils.IscsiTargetPortal info;
                Portals := portals;
                IQN := utils.IscsiTargetIQN info;
                Lun := utils.IscsiLunNumber info;
                ISCSIInterface := utils.IscsiInterface info;
                FSType := storagefull.FileSystem volConfig;
                DiscoveryCHAPAuth := true;
                SessionCHAPAuth := true;
                SecretRef := Some {| secretName := secretName;
                                     secretNamespace := namespace |} |}, k)
    end
  else
    (inr {| TargetPortal := utils.IscsiTargetPortal info;
            Portals := portals;
            IQN := utils.IscsiTargetIQN info;
            Lun := utils.IscsiLunNumber info;
            ISCSIInterface := utils.IscsiInterface info;
            FSType := storagefull.FileSystem volConfig;
            DiscoveryCHAPAuth := false;
            SessionCHAPAuth := false;
            SecretRef := None |}, k).

End Client.
End kubernetes.

(** ** package solidfire: the SolidFire SAN driver *)
Module solidfire.
Import tridentconfig.

(** [tridentconfig.DriverContext], a string type; [ContextOther] stands
    for every other string. *)
Inductive DriverContext :=
| ContextDocker | ContextKubernetes | ContextCSI
| ContextOther (s : string).

#[global] Instance DriverContext_eq_dec : EqDecision DriverContext.
Proof. solve_decision. Defined.

(** A value stored under [interface{}]: a string, or anything else. *)
Inductive AttrValue := AttrString (s : string) | AttrOther.

#[global] Instance AttrValue_eq_dec : EqDecision AttrValue.
Proof. solve_decision. Defined.

(** [api.Volume]; [Attributes] is [None] when the [interface{}] does not
    hold a [map[string]interface{}]. *)
Record Volume := {
  VolumeID : Z;
  Name : string;
  AccountID : Z;
  Status : string;
  Iqn : string;
  TotalSize : Z;
  BlockSize : Z;
  Attributes : option (gmap string AttrValue)
}.

(** [api.Volume{}] *)
Definition noVolume : Volume :=
  {| VolumeID := 0; Name := ""; AccountID := 0; Status := ""; Iqn := "";
     TotalSize := 0; BlockSize := 0; Attributes := None |}.

(** [attrs[key]] read from a possibly nil map. *)
Definition attr (v : Volume) (key : string) : option AttrValue :=
  match Attributes v with
  | Some attrs => attrs !! key
  | None => None
  end.

Record QoS := { MinIOPS : Z; MaxIOPS : Z; BurstIOPS : Z }.
Definition noQoS : QoS := {| MinIOPS := 0; MaxIOPS := 0; BurstIOPS := 0 |}.

Record VolType := { Type_ : string; QOS : QoS }.

Record Account := {
  Username : string;
  InitiatorSecret : string;
  TargetSecret : string
}.

Record VolumeAccessGroup := {
  VAGID : Z;
  vagName : string;
  Initiators : list string;
  Volumes : list Z
}.

Record ModifyVolumeRequest := {
  modVolumeID : Z;
  modAccountID : Z;
  modTotalSize : Z;
  modQos : QoS
}.

Record SolidfireStorageDriverConfig := {
  DriverContext_ : DriverContext;
  BackendName : string;
  StoragePrefix : option string;
  TenantName : string;
  EndPoint : string;
  SVIP : string;
  cfgInitiatorIFace : string;
  cfgAccessGroups : list Z;
  UseCHAP : bool;
  Size : string
}.

Record SANStorageDriver := {
  initialized : bool;
  Config : SolidfireStorageDriverConfig;
  drvAccountID : Z;
  LegacyNamePrefix : string;
  InitiatorIFace : string
}.

Definition MinimumVolumeSizeBytes : Z := 1000000000.

Inductive QoSError :=
| ErrConstituents
| ErrNumber (e : strconv.NumError)
| ErrTypeNotFound.

(** [parseQOS]: [err] is assigned by each of the three conversions in
    turn, and what is returned is the last assignment. *)
Definition parseQOS (qosOpt : string) : QoS * option QoSError :=
  let iops := gostrings.Split qosOpt "," in
  match iops with
  | [iops0; iops1; iops2] =>
      let '(minIOPS, _) := strconv.ParseInt iops0 in
      let '(maxIOPS, _) := strconv.ParseInt iops1 in
      let '(burstIOPS, err) := strconv.ParseInt iops2 in
      ({| MinIOPS := minIOPS; MaxIOPS := maxIOPS; BurstIOPS := burstIOPS |},
       ErrNumber <$> err)
  | _ => (noQoS, Some ErrConstituents)
  end.

Section ParseType.
(** [strings.EqualFold] folds case by Unicode rune. *)
Variable EqualFold : string -> string -> bool.

(** The search loop of [parseType]: the QoS of the first type that
    matches. *)
Fixpoint findType (vTypes : list VolType) (typeName : string)
  : option QoS :=
  match vTypes with
  | [] => None
  | t :: rest =>
      if EqualFold (Type_ t) typeName then Some (QOS t)
      else findType rest typeName
  end.

Definition parseType (vTypes : list VolType) (typeName : string)
  : QoS * option QoSError :=
  match findType vTypes typeName with
  | Some qos => (qos, None)
  | None => (noQoS, Some ErrTypeNotFound)
  end.

End ParseType.

Definition MakeSolidFireName (name : string) : string :=
  gostrings.Replace name "_" "" "-".

Section Naming.
(** [tridentconfig.UsingPassthroughStore] is a package variable and
    [drivers.GetCommonInternalVolumeName] a function of package
    [storage_drivers]. *)
Variable UsingPassthroughStore : bool.
Variable GetCommonInternalVolumeName : string -> string.

Definition GetInternalVolumeName (name : string) : string :=
  if UsingPassthroughStore then gostrings.Replace name "_" "" "-"
  else
    let internal := GetCommonInternalVolumeName name in
    let internal := gostrings.Replace internal "_" "" "-" in
    let internal := gostrings.Replace internal "." "" "-" in
    let internal := gostrings.Replace internal "-" "-" "-" in
    internal.

Definition CreatePrepare (volConfig : storagefull.VolumeConfig)
  : storagefull.VolumeConfig :=
  let internalName := GetInternalVolumeName (storagefull.Name volConfig) in
  let cloneInternal :=
    if negb (String.eqb (storagefull.CloneSourceVolume volConfig) "")
    then GetInternalVolumeName (storagefull.CloneSourceVolume volConfig)
    else storagefull.CloneSourceVolumeInternal volConfig in
  {| storagefull.Version := storagefull.Version volConfig;
     storagefull.Name := storagefull.Name volConfig;
     storagefull.InternalName := internalName;
     storagefull.Size := storagefull.Size volConfig;
     storagefull.Protocol := storagefull.Protocol volConfig;
     storagefull.SnapshotPolicy := storagefull.SnapshotPolicy volConfig;
     storagefull.SnapshotReserve := storagefull.SnapshotReserve volConfig;
     storagefull.ExportPolicy := storagefull.ExportPolicy volConfig;
     storagefull.SnapshotDir := storagefull.SnapshotDir volConfig;
     storagefull.UnixPermissions := storagefull.UnixPermissions volConfig;
     storagefull.StorageClass := storagefull.StorageClass volConfig;
     storagefull.AccessMode := storagefull.AccessMode volConfig;
     storagefull.AccessInfo := storagefull.AccessInfo volConfig;
     storagefull.BlockSize := storagefull.BlockSize volConfig;
     storagefull.FileSystem := storagefull.FileSystem volConfig;
     storagefull.CloneSourceVolume := storagefull.CloneSourceVolume volConfig;
     storagefull.CloneSourceVolumeInternal := cloneInternal;
     storagefull.CloneSourceSnapshot :=
       storagefull.CloneSourceSnapshot volConfig;
     storagefull.SplitOnClone := storagefull.SplitOnClone volConfig;
     storagefull.QoS := storagefull.QoS volConfig;
     storagefull.QoSType := storagefull.QoSType volConfig |}.

End Naming.

(** [GetVolumeOpts]; [pool] is a pointer, and the last branch reads
    [pool.Name] without the nil check of the first ([None]: the nil
    dereference). *)
Definition GetVolumeOpts (volConfig : storagefull.VolumeConfig)
  (pool : option string) : option (gmap string string) :=
  let opts : gmap string string := ∅ in
  let opts :=
    if negb (String.eqb (storagefull.FileSystem volConfig) "")
    then <["fileSystemType" := storagefull.FileSystem volConfig]> opts
    else opts in
  let opts :=
    match pool with
    | Some poolName => <["type" := poolName]> opts
    | None => opts
    end in
  let opts :=
    if negb (String.eqb (storagefull.BlockSize volConfig) "")
    then <["blocksize" := storagefull.BlockSize volConfig]> opts
    else opts in
  let opts :=
    if negb (String.eqb (storagefull.QoS volConfig) "")
    then <["qos" := storagefull.QoS volConfig]> opts
    else opts in
  if negb (String.eqb (storagefull.QoSType volConfig) "") then
    Some (<["type" := storagefull.QoSType volConfig]> opts)
  else if negb (String.eqb (storagefull.QoS volConfig) "") then
    Some (<["type" := ""]> opts)
  else if negb (String.eqb (storagefull.CloneSourceVolume volConfig) "") then
    Some (<["type" := ""]> opts)
  else
    match pool with
    | Some poolName => Some (<["type" := poolName]> opts)
    | None => None
    end.

Definition GetProtocol : tridentconfig.Protocol := Block.

(** [diffSlices]: the items of [b] that are not in [a]. *)
Definition diffSlices (a b : list Z) : list Z :=
  let m : gmap Z bool := fold_left (fun m s => <[s := true]> m) a ∅ in
  fold_left
    (fun r s => if negb (default false (m !! s)) then r ++ [s] else r) b [].

(** [populateConfigurationDefaults]; [ConvertSizeToBytes] is a function
    of package [utils] and [DefaultVolumeSize] a constant of package
    [storage_drivers]. *)
Section Defaults.
Variable ConvertSizeToBytes : string -> string + string.
Variable DefaultVolumeSize : string.

Definition populateConfigurationDefaults
  (config : SolidfireStorageDriverConfig)
  : string + SolidfireStorageDriverConfig :=
  let prefix := "" in
  let size :=
    if String.eqb (Size config) "" then inr DefaultVolumeSize
    else match ConvertSizeToBytes (Size config) with
         | inl e =>
             inl ("invalid config value for default volume size: " +:+ e)
         | inr _ => inr (Size config)
         end in
  match size with
  | inl e => inl e
  | inr size =>
      let useCHAP :=
        match DriverContext_ config with
        | ContextDocker => if negb (UseCHAP config) then true else UseCHAP config
        | ContextCSI => if negb (UseCHAP config) then true else UseCHAP config
        | _ => UseCHAP config
        end in
      inr {| DriverContext_ := DriverContext_ config;
             BackendName := BackendName config;
             StoragePrefix := Some prefix;
             TenantName := TenantName config;
             EndPoint := EndPoint config;
             SVIP := SVIP config;
             cfgInitiatorIFace := cfgInitiatorIFace config;
             cfgAccessGroups := cfgAccessGroups config;
             UseCHAP := useCHAP;
             Size := size |}
  end.

End Defaults.

(** [getVolumeExternal] *)
Section External.
Variable OrchestratorAPIVersion : string.
(** [drivers.UnsetPool] *)
Variable UnsetPool : string.

Definition getVolumeExternal (externalName : string) (volumeAttrs : Volume)
  : storagefull.VolumeExternal :=
  let volumeConfig :=
    {| storagefull.Version := OrchestratorAPIVersion;
       storagefull.Name := externalName;
       storagefull.InternalName := Name volumeAttrs;
       storagefull.Size := strconv.FormatInt (TotalSize volumeAttrs);
       storagefull.Protocol := Block;
       storagefull.SnapshotPolicy := "";
       storagefull.SnapshotReserve := "";
       storagefull.ExportPolicy := "";
       storagefull.SnapshotDir := "false";
       storagefull.UnixPermissions := "";
       storagefull.StorageClass := "";
       storagefull.AccessMode := ReadWriteOnce;
       storagefull.AccessInfo := utils.noAccessInfo;
       storagefull.BlockSize := strconv.FormatInt (BlockSize volumeAttrs);
       storagefull.FileSystem := "";
       storagefull.CloneSourceVolume := "";
       storagefull.CloneSourceVolumeInternal := "";
       storagefull.CloneSourceSnapshot := "";
       storagefull.SplitOnClone := "";
       storagefull.QoS := "";
       storagefull.QoSType := "" |} in
  {| storagefull.Config := volumeConfig;
     storagefull.Backend := "";
     storagefull.Pool := UnsetPool;
     storagefull.Orphaned := false |}.

End External.

(** *** The driver on top of the SolidFire API client *)

Inductive ApiCall :=
| ApiListVolumesForAccount (accountID : Z)
| ApiDeleteVolume (volumeID : Z)
| ApiDetachVolume (v : Volume)
| ApiModifyVolume (req : ModifyVolumeRequest)
| ApiGetAccountByID (accountID : Z)
| ApiListVolumeAccessGroups (startVAGID limit : Z)
| ApiAddVolumesToAccessGroup (vagID : Z) (volumes : list Z)
| HostPrepareDeviceForRemoval (lun : Z) (iqn : string).

Record Cluster (C : Type) := { client : C; apiLog : list ApiCall }.
Arguments client {C} _.
Arguments apiLog {C} _.

(** [int64(u)] of a [uint64] and [uint64(i)] of an [int64]. *)
Definition int64 (u : Z) : Z := (u + 2 ^ 63) mod 2 ^ 64 - 2 ^ 63.
Definition uint64 (i : Z) : Z := i mod 2 ^ 64.

Section Driver.
Context {C : Type}.

Variable ListVolumesForAccount : Z -> C -> (string + list Volume) * C.
Variable DeleteVolume : Z -> C -> option string * C.
Variable DetachVolume : Volume -> C -> option string * C.
Variable ModifyVolume : ModifyVolumeRequest -> C -> option string * C.
Variable GetAccountByID : Z -> C -> (string + Account) * C.
Variable ListVolumeAccessGroups :
  Z -> Z -> C -> (string + list VolumeAccessGroup) * C.
Variable AddVolumesToAccessGroup : Z -> list Z -> C -> option string * C.
(** [utils.PrepareDeviceForRemoval], on the host. *)
Variable PrepareDeviceForRemoval : Z -> string -> C -> C.
(** [utils.VolumeSizeWithinTolerance] with [tridentconfig.SANResizeDelta],
    and [drivers.CheckVolumeSizeLimits] with the driver's common
    configuration. *)
Variable VolumeSizeWithinTolerance : Z -> Z -> string + bool.
Variable CheckVolumeSizeLimits : Z -> option string.
Variable OrchestratorAPIVersion : string.
Variable UnsetPool : string.

Variable d : SANStorageDriver.

Definition D (A : Type) : Type := Cluster C -> A * Cluster C.

Definition ret {A} (a : A) : D A := fun w => (a, w).
Definition bind {A B} (m : D A) (k : A -> D B) : D B :=
  fun w => let '(a, w') := m w in k a w'.
Definition call {A} (c : ApiCall) (f : C -> A * C) : D A :=
  fun w =>
    let '(a, s') := f (client w) in
    (a, {| client := s'; apiLog := apiLog w ++ [c] |}).

Notation "x <~ m ;; k" := (bind m (fun x => k))
  (at level 100, m at next level, right associativity).

(** The test of the loop of [GetVolume]. *)
Definition named (name : string) (v : Volume) : bool :=
  let legacyName := MakeSolidFireName (LegacyNamePrefix d +:+ name) in
  let baseSFName := MakeSolidFireName name in
  if bool_decide (attr v "docker-name" = Some (AttrString name))
     && String.eqb (Status v) "active" then true
  else if (String.eqb (Name v) legacyName || String.eqb (Name v) baseSFName)
          && String.eqb (Status v) "active" then true
  else false.

Definition GetVolume (name : string) : D (string + Volume) :=
  r <~ call (ApiListVolumesForAccount (drvAccountID d))
         (ListVolumesForAccount (drvAccountID d)) ;;
  match r with
  | inl _ => ret (inl "device reported API error")
  | inr volumes =>
      let vols := List.filter (named name) volumes in
      match vols with
      | [] => ret (inl "volume not found")
      | v :: _ => ret (inr v)
      end
  end.

Definition Get (name : string) : D (option string) :=
  r <~ GetVolume name ;;
  ret match r with inl e => Some e | inr _ => None end.

(** The key under which [getVolumes] files a volume. *)
Definition dockerName (volume : Volume) : string :=
  match attr volume "docker-name" with
  | Some (AttrString str) => gostrings.Remove str (LegacyNamePrefix d)
  | _ => gostrings.Remove (Name volume) (LegacyNamePrefix d)
  end.

Definition getVolumes : D (string + gmap string Volume) :=
  r <~ call (ApiListVolumesForAccount (drvAccountID d))
         (ListVolumesForAccount (drvAccountID d)) ;;
  match r with
  | inl e => ret (inl e)
  | inr volumes =>
      ret (inr (fold_left
                  (fun volMap volume =>
                     if negb (String.eqb (Status volume) "deleted")
                     then <[dockerName volume := volume]> volMap
                     else volMap)
                  volumes ∅))
  end.

Definition Destroy (name : string) : D (option string) :=
  r <~ GetVolume name ;;
  match r with
  | inl e =>
      if negb (String.eqb e "volume not found") then ret (Some e)
      else ret None
  | inr v =>
      detach <~
        (if decide (DriverContext_ (Config d) = ContextDocker) then
           _ <~ call (HostPrepareDeviceForRemoval 0 (Iqn v))
                  (fun c => (tt, PrepareDeviceForRemoval 0 (Iqn v) c)) ;;
           _ <~ call (ApiDetachVolume v) (DetachVolume v) ;;
           ret tt
         else ret tt) ;;
      err <~ call (ApiDeleteVolume (VolumeID v)) (DeleteVolume (VolumeID v)) ;;
      ret err
  end.

(** [Publish]: the publish info is written to through its pointer; the
    record returned is the publish info afterwards. *)
Definition Publish (name : string) (publishInfo : utils.VolumePublishInfo)
  : D (utils.VolumePublishInfo * option string) :=
  r <~ GetVolume name ;;
  match r with
  | inl _ => ret (publishInfo, Some "volume not found")
  | inr v =>
      let fstype :=
        match attr v "fstype" with
        | Some (AttrString str) => str
        | _ => "ext4"
        end in
      a <~ call (ApiGetAccountByID (AccountID v))
             (GetAccountByID (AccountID v)) ;;
      match a with
      | inl _ => ret (publishInfo, Some "volume attach failure")
      | inr account =>
          let info := utils.PublishAccessInfo publishInfo in
          let info' :=
            {| utils.IscsiTargetPortal := SVIP (Config d);
               utils.IscsiPortals := utils.IscsiPortals info;
               utils.IscsiTargetIQN := Iqn v;
               utils.IscsiLunNumber := 0;
               utils.IscsiInterface := InitiatorIFace d;
               utils.IscsiIgroup := utils.IscsiIgroup info;
               utils.IscsiVAGs := utils.IscsiVAGs info;
               utils.IscsiUsername := Username account;
               utils.IscsiInitiatorSecret := InitiatorSecret account;
               utils.IscsiTargetSecret := utils.IscsiTargetSecret info;
               utils.NfsServerIP := utils.NfsServerIP info;
               utils.NfsPath := utils.NfsPath info;
               utils.MountOptions := utils.MountOptions info |} in
          ret ({| utils.Localhost := utils.Localhost publishInfo;
                  utils.HostIQN := utils.HostIQN publishInfo;
                  utils.HostIP := utils.HostIP publishInfo;
                  utils.HostName := utils.HostName publishInfo;
                  utils.FilesystemType := fstype;
                  utils.UseCHAP := true;
                  utils.SharedTarget := false;
                  utils.PublishAccessInfo := info' |}, None)
      end
  end.

(** [Resize]; [sizeBytes] is a [uint64]. *)
Definition Resize (name : string) (sizeBytes : Z) : D (option string) :=
  r <~ GetVolume name ;;
  match r with
  | inl _ => ret (Some "error occurred checking for existing volume")
  | inr volume =>
      if VolumeID volume =? 0 then
        ret (Some ("volume " +:+ name +:+ " does not exist"))
      else
        match VolumeSizeWithinTolerance (int64 sizeBytes)
                (TotalSize volume) with
        | inl e => ret (Some e)
        | inr true => ret None
        | inr false =>
            let volSizeBytes := uint64 (TotalSize volume) in
            if sizeBytes <? volSizeBytes then
              ret (Some ("requested size " +:+ strconv.FormatInt sizeBytes
                         +:+ " is less than existing volume size "
                         +:+ strconv.FormatInt volSizeBytes))
            else
              match CheckVolumeSizeLimits sizeBytes with
              | Some e => ret (Some e)
              | None =>
                  let req :=
                    {| modVolumeID := VolumeID volume;
                       modAccountID := AccountID volume;
                       modTotalSize := int64 sizeBytes;
                       modQos := noQoS |} in
                  call (ApiModifyVolume req) (ModifyVolume req)
              end
        end
  end.

(** [VerifyVags]: the configured groups the cluster does not know. *)
Definition VerifyVags (vags : list Z) : D (string + list Z) :=
  r <~ call (ApiListVolumeAccessGroups 0 0) (ListVolumeAccessGroups 0 0) ;;
  match r with
  | inl e =>
      ret (inl ("failed to retrieve VAGs from SolidFire backend: " +:+ e))
  | inr discovered =>
      let vagIDs := map VAGID discovered in
      ret (inr (diffSlices vagIDs vags))
  end.

Definition GetVolumeExternal (name : string)
  : D (string + storagefull.VolumeExternal) :=
  r <~ GetVolume name ;;
  match r with
  | inl e => ret (inl e)
  | inr volume =>
      ret (inr (getVolumeExternal OrchestratorAPIVersion UnsetPool name volume))
  end.

(** [GetVolumeExternalWrappers]: what is written to the channel before
    it is closed.  Go ranges over the map of [getVolumes] in an order of
    its choosing; [map_to_list] stands for that order. *)
Definition GetVolumeExternalWrappers
  : D (list (option storagefull.VolumeExternal * option string)) :=
  r <~ getVolumes ;;
  match r with
  | inl e => ret [(None, Some e)]
  | inr volumes =>
      ret (map (fun kv =>
                  (Some (getVolumeExternal OrchestratorAPIVersion UnsetPool
                           (fst kv) (snd kv)), None))
             (map_to_list volumes))
  end.

End Driver.
End solidfire.

(** ** package ontap: the ONTAP NAS driver *)
Module ontap.
Import tridentconfig.

Record OntapStorageDriverConfig := {
  BackendName : string;
  StoragePrefix : option string;
  DataLIF : string;
  Username : string;
  Password : string;
  NfsMountOptions : string
}.

Record NASStorageDriver := {
  initialized : bool;
  Config : OntapStorageDriverConfig
}.

(** What azgo's accessors answer for the attribute blocks of one volume.
    [VolumeSecurityUnixAttributes] sits behind the pointer to the
    security block, which [getVolumeExternal] follows itself. *)
Record VolumeAttributes := {
  vaName : string;
  ContainingAggregateName : string;
  vaSize : Z;
  SnapshotPolicy : string;
  SnapdirAccessEnabled : bool;
  Policy : string;
  VolumeSecurityAttributesPtr : option string
}.

Definition GetProtocol : tridentconfig.Protocol := File.

(** [CreateFollowup] *)
Definition CreateFollowup (d : NASStorageDriver)
  (volConfig : storagefull.VolumeConfig) : storagefull.VolumeConfig :=
  let info := storagefull.AccessInfo volConfig in
  let info' :=
    {| utils.IscsiTargetPortal := utils.IscsiTargetPortal info;
       utils.IscsiPortals := utils.IscsiPortals info;
       utils.IscsiTargetIQN := utils.IscsiTargetIQN info;
       utils.IscsiLunNumber := utils.IscsiLunNumber info;
       utils.IscsiInterface := utils.IscsiInterface info;
       utils.IscsiIgroup := utils.IscsiIgroup info;
       utils.IscsiVAGs := utils.IscsiVAGs info;
       utils.IscsiUsername := utils.IscsiUsername info;
       utils.IscsiInitiatorSecret := utils.IscsiInitiatorSecret info;
       utils.IscsiTargetSecret := utils.IscsiTargetSecret info;
       utils.NfsServerIP := DataLIF (Config d);
       utils.NfsPath := "/" +:+ storagefull.InternalName volConfig;
       utils.MountOptions :=
         gostrings.TrimPrefix (NfsMountOptions (Config d)) "-o " |} in
  {| storagefull.Version := storagefull.Version volConfig;
     storagefull.Name := storagefull.Name volConfig;
     storagefull.InternalName := storagefull.InternalName volConfig;
     storagefull.Size := storagefull.Size volConfig;
     storagefull.Protocol := storagefull.Protocol volConfig;
     storagefull.SnapshotPolicy := storagefull.SnapshotPolicy volConfig;
     storagefull.SnapshotReserve := storagefull.SnapshotReserve volConfig;
     storagefull.ExportPolicy := storagefull.ExportPolicy volConfig;
     storagefull.SnapshotDir := storagefull.SnapshotDir volConfig;
     storagefull.UnixPermissions := storagefull.UnixPermissions volConfig;
     storagefull.StorageClass := storagefull.StorageClass volConfig;
     storagefull.AccessMode := storagefull.AccessMode volConfig;
     storagefull.AccessInfo := info';
     storagefull.BlockSize := storagefull.BlockSize volConfig;
     storagefull.FileSystem := "";
     storagefull.CloneSourceVolume := storagefull.CloneSourceVolume volConfig;
     storagefull.CloneSourceVolumeInternal :=
       storagefull.CloneSourceVolumeInternal volConfig;
     storagefull.CloneSourceSnapshot :=
       storagefull.CloneSourceSnapshot volConfig;
     storagefull.SplitOnClone := storagefull.SplitOnClone volConfig;
     storagefull.QoS := storagefull.QoS volConfig;
     storagefull.QoSType := storagefull.QoSType volConfig |}.

(** [Publish]: the fields written through the pointer. *)
Definition Publish (d : NASStorageDriver) (name : string)
  (publishInfo : utils.VolumePublishInfo)
  : utils.VolumePublishInfo * option string :=
  let info := utils.PublishAccessInfo publishInfo in
  let info' :=
    {| utils.IscsiTargetPortal := utils.IscsiTargetPortal info;
       utils.IscsiPortals := utils.IscsiPortals info;
       utils.IscsiTargetIQN := utils.IscsiTargetIQN info;
       utils.IscsiLunNumber := utils.IscsiLunNumber info;
       utils.IscsiInterface := utils.IscsiInterface info;
       utils.IscsiIgroup := utils.IscsiIgroup info;
       utils.IscsiVAGs := utils.IscsiVAGs info;
       utils.IscsiUsername := utils.IscsiUsername info;
       utils.IscsiInitiatorSecret := utils.IscsiInitiatorSecret info;
       utils.IscsiTargetSecret := utils.IscsiTargetSecret info;
       utils.NfsServerIP := DataLIF (Config d);
       utils.NfsPath := "/" +:+ name;
       utils.MountOptions := NfsMountOptions (Config d) |} in
  ({| utils.Localhost := utils.Localhost publishInfo;
      utils.HostIQN := utils.HostIQN publishInfo;
      utils.HostIP := utils.HostIP publishInfo;
      utils.HostName := utils.HostName publishInfo;
      utils.FilesystemType := "nfs";
      utils.UseCHAP := utils.UseCHAP publishInfo;
      utils.SharedTarget := utils.SharedTarget publishInfo;
      utils.PublishAccessInfo := info' |}, None).

(** The name [GetStorageBackendSpecs] gives the backend. *)
Definition backendName (d : NASStorageDriver) : string :=
  if String.eqb (BackendName (Config d)) ""
  then "ontapnas_" +:+ DataLIF (Config d)
  else BackendName (Config d).

(** The flags of [storage] that [GetUpdateType] puts in its bitmap. *)
Inductive UpdateFlag :=
| InvalidUpdate | VolumeAccessInfoChange | PasswordChange | UsernameChange.

#[global] Instance UpdateFlag_eq_dec : EqDecision UpdateFlag.
Proof. solve_decision. Defined.

(** [GetUpdateType]; [driverOrig] is [None] when the original driver is
    not an ONTAP NAS driver.  The bitmap is the list of flags added, in
    the order they are added. *)
Definition GetUpdateType (d : NASStorageDriver)
  (driverOrig : option NASStorageDriver) : list UpdateFlag :=
  match driverOrig with
  | None => [InvalidUpdate]
  | Some dOrig =>
      let bitmap := [] in
      let bitmap :=
        if negb (String.eqb (DataLIF (Config d)) (DataLIF (Config dOrig)))
        then bitmap ++ [VolumeAccessInfoChange] else bitmap in
      let bitmap :=
        if negb (String.eqb (Password (Config d)) (Password (Config dOrig)))
        then bitmap ++ [PasswordChange] else bitmap in
      let bitmap :=
        if negb (String.eqb (Username (Config d)) (Username (Config dOrig)))
        then bitmap ++ [UsernameChange] else bitmap in
      bitmap
  end.

Section External.
Variable OrchestratorAPIVersion : string.

(** [getVolumeExternal]; [None] is the dereference of a nil security
    block or of a nil storage prefix. *)
Definition getVolumeExternal (d : NASStorageDriver)
  (volumeAttrs : VolumeAttributes) : option storagefull.VolumeExternal :=
  match VolumeSecurityAttributesPtr volumeAttrs, StoragePrefix (Config d) with
  | Some permissions, Some prefix =>
      let internalName := vaName volumeAttrs in
      let name :=
        if gostrings.HasPrefix internalName prefix
        then gostrings.from (String.length prefix) internalName
        else internalName in
      let volumeConfig :=
        {| storagefull.Version := OrchestratorAPIVersion;
           storagefull.Name := name;
           storagefull.InternalName := internalName;
           storagefull.Size := strconv.FormatInt (vaSize volumeAttrs);
           storagefull.Protocol := File;
           storagefull.SnapshotPolicy := SnapshotPolicy volumeAttrs;
           storagefull.SnapshotReserve := "";
           storagefull.ExportPolicy := Policy volumeAttrs;
           storagefull.SnapshotDir :=
             gostrings.FormatBool (SnapdirAccessEnabled volumeAttrs);
           storagefull.UnixPermissions := permissions;
           storagefull.StorageClass := "";
           storagefull.AccessMode := ReadWriteMany;
           storagefull.AccessInfo := utils.noAccessInfo;
           storagefull.BlockSize := "";
           storagefull.FileSystem := "";
           storagefull.CloneSourceVolume := "";
           storagefull.CloneSourceVolumeInternal := "";
           storagefull.CloneSourceSnapshot := "";
           storagefull.SplitOnClone := "";
           storagefull.QoS := "";
           storagefull.QoSType := "" |} in
      Some {| storagefull.Config := volumeConfig;
              storagefull.Backend := "";
              storagefull.Pool := ContainingAggregateName volumeAttrs;
              storagefull.Orphaned := false |}
  | _, _ => None
  end.

End External.

(** The ZAPI status of a response, with the text it prints as. *)
Record ZapiError := { IsPassed : bool; Code : string; zapiText : string }.

Inductive ApiCall :=
| ApiVolumeGet (name : string)
| ApiVolumeGetAll (prefix : string)
| ApiVolumeDestroy (name : string) (force : bool).

Section Driver.
Context {C : Type}.

Variable VolumeGet : string -> C -> (string + VolumeAttributes) * C.
(** [VolumeGetAll] followed by [api.GetError]: an error, or the list
    behind [AttributesListPtr] ([None] for a nil pointer). *)
Variable VolumeGetAll :
  string -> C -> (string + option (list VolumeAttributes)) * C.
(** [VolumeDestroy] and [api.NewZapiError] of its response. *)
Variable VolumeDestroy : string -> bool -> C -> (string + ZapiError) * C.
(** [azgo.EVOLUMEDOESNOTEXIST] *)
Variable EVOLUMEDOESNOTEXIST : string.
Variable OrchestratorAPIVersion : string.

Variable d : NASStorageDriver.

(** [GetVolumeExternal]; [None] is a nil dereference. *)
Definition GetVolumeExternal (name : string) (w : C * list ApiCall)
  : option (string + storagefull.VolumeExternal) * (C * list ApiCall) :=
  let '(r, c) := VolumeGet name (fst w) in
  let w' := (c, snd w ++ [ApiVolumeGet name]) in
  match r with
  | inl e => (Some (inl e), w')
  | inr volumeAttributes =>
      (inr <$> getVolumeExternal OrchestratorAPIVersion d volumeAttributes, w')
  end.

(** The conversion loop of [GetVolumeExternalWrappers]: the wrappers
    sent before a nil dereference ends the goroutine, and whether one
    did. *)
Fixpoint wrapAll (volumes : list VolumeAttributes)
  : list (option storagefull.VolumeExternal * option string) * bool :=
  match volumes with
  | [] => ([], false)
  | volume :: rest =>
      match getVolumeExternal OrchestratorAPIVersion d volume with
      | None => ([], true)
      | Some v =>
          let '(sent, panicked) := wrapAll rest in
          ((Some v, None) :: sent, panicked)
      end
  end.

(** [GetVolumeExternalWrappers]: what is written to the channel, and
    whether the method ran into a nil dereference. *)
Definition GetVolumeExternalWrappers (w : C * list ApiCall)
  : (list (option storagefull.VolumeExternal * option string) * bool)
    * (C * list ApiCall) :=
  match StoragePrefix (Config d) with
  | None => (([], true), w)
  | Some prefix =>
      let '(r, c) := VolumeGetAll prefix (fst w) in
      let w' := (c, snd w ++ [ApiVolumeGetAll prefix]) in
      match r with
      | inl e => (([(None, Some e)], false), w')
      | inr None => (([], false), w')
      | inr (Some volumes) => (wrapAll volumes, w')
      end
  end.

Definition Destroy (name : string) (w : C * list ApiCall)
  : option string * (C * list ApiCall) :=
  let '(r, c) := VolumeDestroy name true (fst w) in
  let w' := (c, snd w ++ [ApiVolumeDestroy name true]) in
  match r with
  | inl e => (Some ("error destroying volume " +:+ name +:+ ": " +:+ e), w')
  | inr zerr =>
      if negb (IsPassed zerr) then
        if String.eqb (Code zerr) EVOLUMEDOESNOTEXIST then (None, w')
        else (Some ("error destroying volume " +:+ name +:+ ": "
                    +:+ zapiText zerr), w')
      else (None, w')
  end.

End Driver.
End ontap.

(** ** package persistentstore: the passthrough client, what it does
    not keep

    Volumes, volume transactions, storage classes and nodes are not
    stored by the passthrough client.  The records written are of no
    account to these methods, so they are left abstract. *)
Module passthrough.
Import persistentstore.

Inductive StoreType := MemoryStore | EtcdV2Store | EtcdV3Store | PassthroughStore.

Definition GetType (c : PassthroughClient) : StoreType := PassthroughStore.

Definition ReplaceBackendAndUpdateVolumes (origBackend newBackend : Backend)
  (c : PassthroughClient) : option StoreError * PassthroughClient :=
  (Some (NewPersistentStoreError NotSupported ""), c).

Section Records.
Context {Volume VolumeTransaction StorageClass Node : Type}.

Definition AddVolume (vol : Volume) (c : PassthroughClient)
  : option StoreError * PassthroughClient := (None, c).
Definition GetVolume (volName : string) (c : PassthroughClient)
  : option storage.VolumeExternal * option StoreError :=
  (None, Some (NewPersistentStoreError KeyNotFoundErr volName)).
Definition UpdateVolume (vol : Volume) (c : PassthroughClient)
  : option StoreError * PassthroughClient := (None, c).
Definition DeleteVolume (vol : Volume) (c : PassthroughClient)
  : option StoreError * PassthroughClient := (None, c).
Definition DeleteVolumeIgnoreNotFound (vol : Volume) (c : PassthroughClient)
  : option StoreError * PassthroughClient := (None, c).
Definition DeleteVolumes (c : PassthroughClient)
  : option StoreError * PassthroughClient := (None, c).

Definition AddVolumeTransaction (volTxn : VolumeTransaction)
  (c : PassthroughClient) : option StoreError * PassthroughClient :=
  (None, c).
Definition GetVolumeTransactions (c : PassthroughClient)
  : list VolumeTransaction * option StoreError := ([], None).
Definition GetExistingVolumeTransaction (volTxn : VolumeTransaction)
  (c : PassthroughClient) : option VolumeTransaction * option StoreError :=
  (None, None).
Definition DeleteVolumeTransaction (volTxn : VolumeTransaction)
  (c : PassthroughClient) : option StoreError * PassthroughClient :=
  (None, c).

Definition AddStorageClass (sc : StorageClass) (c : PassthroughClient)
  : option StoreError * PassthroughClient := (None, c).
Definition GetStorageClass (scName : string) (c : PassthroughClient)
  : option StorageClass * option StoreError :=
  (None, Some (NewPersistentStoreError KeyNotFoundErr scName)).
Definition GetStorageClasses (c : PassthroughClient)
  : list StorageClass * option StoreError := ([], None).
Definition DeleteStorageClass (sc : StorageClass) (c : PassthroughClient)
  : option StoreError * PassthroughClient := (None, c).

Definition AddOrUpdateNode (n : Node) (c : PassthroughClient)
  : option StoreError * PassthroughClient := (None, c).
Definition GetNode (nName : string) (c : PassthroughClient)
  : option Node * option StoreError :=
  (None, Some (NewPersistentStoreError KeyNotFoundErr nName)).
Definition GetNodes (c : PassthroughClient)
  : list Node * option StoreError := ([], None).
Definition DeleteNode (n : Node) (c : PassthroughClient)
  : option StoreError * PassthroughClient := (None, c).

(** The methods that are handed a record to write or delete, reified. *)
Inductive RecordOp :=
| OpAddVolume (vol : Volume)
| OpUpdateVolume (vol : Volume)
| OpDeleteVolume (vol : Volume)
| OpDeleteVolumeIgnoreNotFound (vol : Volume)
| OpDeleteVolumes
| OpAddVolumeTransaction (volTxn : VolumeTransaction)
| OpDeleteVolumeTransaction (volTxn : VolumeTransaction)
| OpAddStorageClass (sc : StorageClass)
| OpDeleteStorageClass (sc : StorageClass)
| OpAddOrUpdateNode (n : Node)
| OpDeleteNode (n : Node).

Definition run_record_op (op : RecordOp) (c : PassthroughClient)
  : option StoreError * PassthroughClient :=
  match op with
  | OpAddVolume vol => AddVolume vol c
  | OpUpdateVolume vol => UpdateVolume vol c
  | OpDeleteVolume vol => DeleteVolume vol c
  | OpDeleteVolumeIgnoreNotFound vol => DeleteVolumeIgnoreNotFound vol c
  | OpDeleteVolumes => DeleteVolumes c
  | OpAddVolumeTransaction volTxn => AddVolumeTransaction volTxn c
  | OpDeleteVolumeTransaction volTxn => DeleteVolumeTransaction volTxn c
  | OpAddStorageClass sc => AddStorageClass sc c
  | OpDeleteStorageClass sc => DeleteStorageClass sc c
  | OpAddOrUpdateNode n => AddOrUpdateNode n c
  | OpDeleteNode n => DeleteNode n c
  end.

End Records.

(** The element a driver sends on the channel, as the passthrough
    client receives it. *)
Definition wrapper (sent : option storagefull.VolumeExternal * option string)
  : VolumeExternalWrapper :=
  {| Volume := storagefull.view <$> fst sent; Error := snd sent |}.

End passthrough.

(** ** package cmd: the command line client, [get backend],
    [update backend] and [get node] *)
Module cli.

(** One call of [api.InvokeRESTAPI]. *)
Inductive RestCall :=
| Invoke (method url : string) (requestBody : option string).

Record Response := { StatusCode : Z; responseBody : string }.

Definition StatusOK : Z := 200.

(** What a command has done: the REST calls it made and what it wrote
    to standard output, both in order. *)
Record Shell (T Backend Node : Type) := {
  server : T;
  requests : list RestCall;
  writtenBackends : list (list Backend);
  writtenNodes : list (list Node)
}.
Arguments server {T Backend Node} _.
Arguments requests {T Backend Node} _.
Arguments writtenBackends {T Backend Node} _.
Arguments writtenNodes {T Backend Node} _.

Section Commands.
Context {T Backend Node : Type}.

(** [GetBaseURL], [api.InvokeRESTAPI] and [GetErrorFromHTTPResponse] are
    functions of other files of the package; the decoders stand for
    [json.Unmarshal] into the response type and the field read from it. *)
Variable GetBaseURL : string + string.
Variable InvokeRESTAPI :
  string -> string -> option string -> T -> (string + Response) * T.
Variable GetErrorFromHTTPResponse : Response -> string.
Variable decodeListBackends : string -> string + list string.
Variable decodeGetBackend : string -> string + Backend.
Variable decodeUpdateBackend : string -> string + string.
Variable decodeListNodes : string -> string + list string.
(** [GetNodeResponse.Node] is a pointer: [None] is a response that
    decodes with no node in it. *)
Variable decodeGetNode : string -> string + option Node.

Let Sh : Type := Shell T Backend Node.

Definition invokeREST (method url : string) (body : option string) (w : Sh)
  : (string + Response) * Sh :=
  let '(r, t) := InvokeRESTAPI method url body (server w) in
  (r, {| server := t;
         requests := requests w ++ [Invoke method url body];
         writtenBackends := writtenBackends w;
         writtenNodes := writtenNodes w |}).

Definition WriteBackends (backends : list Backend) (w : Sh) : Sh :=
  {| server := server w; requests := requests w;
     writtenBackends := writtenBackends w ++ [backends];
     writtenNodes := writtenNodes w |}.

Definition WriteNodes (nodes : list Node) (w : Sh) : Sh :=
  {| server := server w; requests := requests w;
     writtenBackends := writtenBackends w;
     writtenNodes := writtenNodes w ++ [nodes] |}.

Definition GetBackends (baseURL : string) (w : Sh)
  : (string + list string) * Sh :=
  let url := baseURL +:+ "/backend" in
  let '(r, w) := invokeREST "GET" url None w in
  match r with
  | inl err => (inl err, w)
  | inr response =>
      if negb (StatusCode response =? StatusOK) then
        (inl ("could not get backends: "
              +:+ GetErrorFromHTTPResponse response), w)
      else (decodeListBackends (responseBody response), w)
  end.

Definition GetBackend (baseURL backendName : string) (w : Sh)
  : (string + Backend) * Sh :=
  let url := baseURL +:+ "/backend/" +:+ backendName in
  let '(r, w) := invokeREST "GET" url None w in
  match r with
  | inl err => (inl err, w)
  | inr response =>
      if negb (StatusCode response =? StatusOK) then
        (inl ("could not get backend " +:+ backendName +:+ ": "
              +:+ GetErrorFromHTTPResponse response), w)
      else (decodeGetBackend (responseBody response), w)
  end.

(** The loop of [backendList] that fetches the backends one by one. *)
Fixpoint getEachBackend (baseURL : string) (backendNames : list string)
  (backends : list Backend) (w : Sh) : (string + list Backend) * Sh :=
  match backendNames with
  | [] => (inr backends, w)
  | backendName :: rest =>
      let '(r, w) := GetBackend baseURL backendName w in
      match r with
      | inl err => (inl err, w)
      | inr backend => getEachBackend baseURL rest (backends ++ [backend]) w
      end
  end.

Definition backendList (backendNames : list string) (w : Sh)
  : option string * Sh :=
  match GetBaseURL with
  | inl err => (Some err, w)
  | inr baseURL =>
      let '(names, w) :=
        match backendNames with
        | [] => GetBackends baseURL w
        | _ => (inr backendNames, w)
        end in
      match names with
      | inl err => (Some err, w)
      | inr backendNames =>
          let '(r, w) := getEachBackend baseURL backendNames [] w in
          match r with
          | inl err => (Some err, w)
          | inr backends => (None, WriteBackends backends w)
          end
      end
  end.

Definition backendUpdate (backendNames : list string) (postData : string)
  (w : Sh) : option string * Sh :=
  match backendNames with
  | [] => (Some "backend name not specified", w)
  | _ :: _ :: _ => (Some "multiple backend names specified", w)
  | [backendName0] =>
      match GetBaseURL with
      | inl err => (Some err, w)
      | inr baseURL =>
          let url := baseURL +:+ "/backend/" +:+ backendName0 in
          let '(r, w) := invokeREST "POST" url (Some postData) w in
          match r with
          | inl err => (Some err, w)
          | inr response =>
              if negb (StatusCode response =? StatusOK) then
                (Some ("could not update backend " +:+ backendName0 +:+ ": "
                       +:+ GetErrorFromHTTPResponse response), w)
              else
                match decodeUpdateBackend (responseBody response) with
                | inl err => (Some err, w)
                | inr backendName =>
                    let '(b, w) := GetBackend baseURL backendName w in
                    match b with
                    | inl err => (Some err, w)
                    | inr backend => (None, WriteBackends [backend] w)
                    end
                end
          end
      end
  end.

Definition GetNodes (baseURL : string) (w : Sh)
  : (string + list string) * Sh :=
  let url := baseURL +:+ "/node" in
  let '(r, w) := invokeREST "GET" url None w in
  match r with
  | inl err => (inl err, w)
  | inr response =>
      if negb (StatusCode response =? StatusOK) then
        (inl ("could not get nodes: "
              +:+ GetErrorFromHTTPResponse response), w)
      else (decodeListNodes (responseBody response), w)
  end.

Definition GetNode (baseURL nodeName : string) (w : Sh)
  : (string + option Node) * Sh :=
  let url := baseURL +:+ "/node/" +:+ nodeName in
  let '(r, w) := invokeREST "GET" url None w in
  match r with
  | inl err => (inl err, w)
  | inr response =>
      if negb (StatusCode response =? StatusOK) then
        (inl ("could not get node " +:+ nodeName +:+ ": "
              +:+ GetErrorFromHTTPResponse response), w)
      else (decodeGetNode (responseBody response), w)
  end.

(** What a command comes to: it returns (an error or nil), or it
    dereferences a nil node. *)
Inductive Exit := Returned (err : option string) | NilNode.

(** The loop of [nodeList]; [*node] dereferences what [GetNode]
    returned. *)
Fixpoint getEachNode (baseURL : string) (nodeNames : list string)
  (nodes : list Node) (w : Sh) : (Exit + list Node) * Sh :=
  match nodeNames with
  | [] => (inr nodes, w)
  | nodeName :: rest =>
      let '(r, w) := GetNode baseURL nodeName w in
      match r with
      | inl err => (inl (Returned (Some err)), w)
      | inr None => (inl NilNode, w)
      | inr (Some node) => getEachNode baseURL rest (nodes ++ [node]) w
      end
  end.

Definition nodeList (nodeNames : list string) (w : Sh) : Exit * Sh :=
  match GetBaseURL with
  | inl err => (Returned (Some err), w)
  | inr baseURL =>
      let '(names, w) :=
        match nodeNames with
        | [] => GetNodes baseURL w
        | _ => (inr nodeNames, w)
        end in
      match names with
      | inl err => (Returned (Some err), w)
      | inr nodeNames =>
          let '(r, w) := getEachNode baseURL nodeNames [] w in
          match r with
          | inl exit => (exit, w)
          | inr nodes => (Returned None, WriteNodes nodes w)
          end
      end
  end.

End Commands.
End cli.

(** ** Fixtures: an orchestrator with two volumes and one node *)
Module controller_fixture.
Import tridentconfig coreerr csi csicontroller.

Definition config (name : string) (protocol : tridentconfig.Protocol)
  (mode : tridentconfig.AccessMode) (info : utils.VolumeAccessInfo)
  : storagefull.VolumeConfig :=
  {| storagefull.Version := "1"; storagefull.Name := name;
     storagefull.InternalName := "trident_" +:+ name;
     storagefull.Size := "1073741824"; storagefull.Protocol := protocol;
     storagefull.SnapshotPolicy := ""; storagefull.SnapshotReserve := "";
     storagefull.ExportPolicy := ""; storagefull.SnapshotDir := "";
     storagefull.UnixPermissions := ""; storagefull.StorageClass := "";
     storagefull.AccessMode := mode; storagefull.AccessInfo := info;
     storagefull.BlockSize := ""; storagefull.FileSystem := "";
     storagefull.CloneSourceVolume := "";
     storagefull.CloneSourceVolumeInternal := "";
     storagefull.CloneSourceSnapshot := ""; storagefull.SplitOnClone := "";
     storagefull.QoS := ""; storagefull.QoSType := "" |}.

Definition nfsInfo : utils.VolumeAccessInfo :=
  {| utils.IscsiTargetPortal := ""; utils.IscsiPortals := [];
     utils.IscsiTargetIQN := ""; utils.IscsiLunNumber := 0;
     utils.IscsiInterface := ""; utils.IscsiIgroup := "";
     utils.IscsiVAGs := []; utils.IscsiUsername := "";
     utils.IscsiInitiatorSecret := ""; utils.IscsiTargetSecret := "";
     utils.NfsServerIP := "10.0.0.1"; utils.NfsPath := "/trident_nfs";
     utils.MountOptions := "" |}.

Definition iscsiInfo : utils.VolumeAccessInfo :=
  {| utils.IscsiTargetPortal := "10.0.0.2:3260";
     utils.IscsiPortals := ["10.0.0.3:3260"; "10.0.0.4:3260"];
     utils.IscsiTargetIQN := "iqn.2010-01.com.solidfire:x";
     utils.IscsiLunNumber := 0;
     utils.IscsiInterface := "default"; utils.IscsiIgroup := "";
     utils.IscsiVAGs := []; utils.IscsiUsername := "trident";
     utils.IscsiInitiatorSecret := "i"; utils.IscsiTargetSecret := "t";
     utils.NfsServerIP := ""; utils.NfsPath := "";
     utils.MountOptions := "" |}.

Definition external (c : storagefull.VolumeConfig)
  : storagefull.VolumeExternal :=
  {| storagefull.Config := c; storagefull.Backend := "b1";
     storagefull.Pool := "p"; storagefull.Orphaned := false |}.

Definition nfsVolume : storagefull.VolumeExternal :=
  external (config "nfs" File ReadWriteMany nfsInfo).
Definition iscsiVolume : storagefull.VolumeExternal :=
  external (config "iscsi" Block ReadWriteOnce iscsiInfo).

Definition notFound (what : string) : OrchError :=
  {| kind := NotFoundErr; message := what +:+ " not found" |}.

Definition getVolume (name : string) (s : unit)
  : (option storagefull.VolumeExternal * option OrchError) * unit :=
  if String.eqb name "nfs" then ((Some nfsVolume, None), s)
  else if String.eqb name "iscsi" then ((Some iscsiVolume, None), s)
  else ((None, Some (notFound "volume")), s).

Definition node1 : utils.Node :=
  {| utils.NodeName := "node1"; utils.IQN := "iqn.1993-08.org.debian:01:a" |}.

Definition getNode (name : string) (s : unit)
  : (option utils.Node * option OrchError) * unit :=
  if String.eqb name "node1" then ((Some node1, None), s)
  else ((None, Some (notFound "node")), s).

Definition publishVolume (name : string) (info : utils.VolumePublishInfo)
  (s : unit) : (utils.VolumePublishInfo * option OrchError) * unit :=
  (({| utils.Localhost := utils.Localhost info;
       utils.HostIQN := utils.HostIQN info;
       utils.HostIP := utils.HostIP info;
       utils.HostName := utils.HostName info;
       utils.FilesystemType := "ext4";
       utils.UseCHAP := true;
       utils.SharedTarget := false;
       utils.PublishAccessInfo := utils.PublishAccessInfo info |}, None), s).

Definition deleteVolume (name : string) (s : unit)
  : option OrchError * unit :=
  if String.eqb name "nfs" then (None, s)
  else (Some (notFound "volume"), s).

Definition listVolumes (s : unit)
  : (list (option storagefull.VolumeExternal) * option OrchError) * unit :=
  (([Some nfsVolume; Some iscsiVolume], None), s).

Definition start : Session unit := {| state := tt; log := [] |}.

Definition mount (mode : Mode) : VolumeCapability :=
  {| capAccessType := MountVolume "" []; capAccessMode := Some mode |}.
Definition block (mode : Mode) : VolumeCapability :=
  {| capAccessType := BlockVolume; capAccessMode := Some mode |}.

End controller_fixture.

(** ** Fixtures: a SolidFire cluster, an ONTAP controller and a
    passthrough client over both *)
Module driver_fixture.
Import persistentstore.

Definition sfConfig : solidfire.SolidfireStorageDriverConfig :=
  {| solidfire.DriverContext_ := solidfire.ContextCSI;
     solidfire.BackendName := ""; solidfire.StoragePrefix := Some "";
     solidfire.TenantName := "trident";
     solidfire.EndPoint := "https://admin@10.0.0.5/json-rpc/8.0";
     solidfire.SVIP := "10.0.0.6:3260";
     solidfire.cfgInitiatorIFace := "default";
     solidfire.cfgAccessGroups := []; solidfire.UseCHAP := true;
     solidfire.Size := "1G" |}.

Definition san : solidfire.SANStorageDriver :=
  {| solidfire.initialized := true; solidfire.Config := sfConfig;
     solidfire.drvAccountID := 3; solidfire.LegacyNamePrefix := "netappdvp-";
     solidfire.InitiatorIFace := "default" |}.

(** A deleted volume and an active volume of one name, and a volume
    that goes by its [docker-name] attribute. *)
Definition purged : solidfire.Volume :=
  {| solidfire.VolumeID := 7; solidfire.Name := "pvc-1";
     solidfire.AccountID := 3; solidfire.Status := "deleted";
     solidfire.Iqn := "iqn.2010-01.com.solidfire:pvc-1.7";
     solidfire.TotalSize := 1000000000; solidfire.BlockSize := 4096;
     solidfire.Attributes := None |}.

Definition active1 : solidfire.Volume :=
  {| solidfire.VolumeID := 8; solidfire.Name := "pvc-1";
     solidfire.AccountID := 3; solidfire.Status := "active";
     solidfire.Iqn := "iqn.2010-01.com.solidfire:pvc-1.8";
     solidfire.TotalSize := 2000000000; solidfire.BlockSize := 4096;
     solidfire.Attributes := Some {[ "fstype" := solidfire.AttrString "xfs" ]} |}.

Definition other : solidfire.Volume :=
  {| solidfire.VolumeID := 9; solidfire.Name := "x9";
     solidfire.AccountID := 3; solidfire.Status := "active";
     solidfire.Iqn := "iqn.2010-01.com.solidfire:x9.9";
     solidfire.TotalSize := 5000000000; solidfire.BlockSize := 4096;
     solidfire.Attributes :=
       Some {[ "docker-name" := solidfire.AttrString "data" ]} |}.

Definition listVolumesForAccount (accountID : Z) (s : unit)
  : (string + list solidfire.Volume) * unit :=
  (inr [purged; active1; other], s).

Definition getAccountByID (accountID : Z) (s : unit)
  : (string + solidfire.Account) * unit :=
  (inr {| solidfire.Username := "trident";
          solidfire.InitiatorSecret := "initiator";
          solidfire.TargetSecret := "target" |}, s).

Definition cluster0 : solidfire.Cluster unit :=
  {| solidfire.client := tt; solidfire.apiLog := [] |}.

Definition hostInfo : utils.VolumePublishInfo :=
  {| utils.Localhost := false;
     utils.HostIQN := ["iqn.1993-08.org.debian:01:a"];
     utils.HostIP := []; utils.HostName := "node1";
     utils.FilesystemType := ""; utils.UseCHAP := false;
     utils.SharedTarget := true;
     utils.PublishAccessInfo := utils.noAccessInfo |}.

Definition nas : ontap.NASStorageDriver :=
  {| ontap.initialized := true;
     ontap.Config :=
       {| ontap.BackendName := ""; ontap.StoragePrefix := Some "trident_";
          ontap.DataLIF := "10.0.0.7"; ontap.Username := "admin";
          ontap.Password := "secret"; ontap.NfsMountOptions := "" |} |}.

Definition flexvol : ontap.VolumeAttributes :=
  {| ontap.vaName := "trident_pvc_2"; ontap.ContainingAggregateName := "aggr1";
     ontap.vaSize := 1073741824; ontap.SnapshotPolicy := "none";
     ontap.SnapdirAccessEnabled := false; ontap.Policy := "default";
     ontap.VolumeSecurityAttributesPtr := Some "---rwxr-xr-x" |}.

Definition volumeGetAll (prefix : string) (s : unit)
  : (string + option (list ontap.VolumeAttributes)) * unit :=
  (inr (Some [flexvol]), s).

Definition sanBackend : Backend :=
  {| Name := "solidfire_10.0.0.6";
     DriverWrappers :=
       map passthrough.wrapper
         (fst (solidfire.GetVolumeExternalWrappers listVolumesForAccount
                 "1" "" san cluster0)) |}.

Definition nasBackend : Backend :=
  {| Name := "ontapnas_10.0.0.7";
     DriverWrappers :=
       map passthrough.wrapper
         (fst (fst (ontap.GetVolumeExternalWrappers volumeGetAll "1" nas
                      (tt, [])))) |}.

Definition driven : PassthroughClient :=
  {| liveBackends :=
       <[Name nasBackend := nasBackend]>
         (<[Name sanBackend := sanBackend]> ∅);
     bootBackends := [] |}.

End driver_fixture.

(* ===================================================================== *)
(** * Part II: properties                                                 *)
(* ===================================================================== *)

(** ** strconv *)
Section strconv_facts.
Import strconv.

Example ParseInt_1GiB : ParseInt "1073741824" = (1073741824, None).
Proof. reflexivity. Qed.

Example ParseInt_negative : ParseInt "-42" = (-42, None).
Proof. reflexivity. Qed.

Example ParseInt_syntax : ParseInt "12a" = (0, Some ErrSyntax).
Proof. reflexivity. Qed.

Example ParseInt_sign_only : ParseInt "+" = (0, Some ErrSyntax).
Proof. reflexivity. Qed.

Example ParseInt_range :
  ParseInt "9223372036854775808" = (maxInt64, Some ErrRange).
Proof. reflexivity. Qed.

Example ParseInt_range_then_garbage :
  ParseInt "99999999999999999999x" = (maxInt64, Some ErrRange).
Proof. reflexivity. Qed.

Example ParseInt_min : ParseInt "-9223372036854775808" = (minInt64, None).
Proof. reflexivity. Qed.

Lemma digits_bounds s : forall acc n f,
  0 <= acc <= maxUint64 -> digits s acc = Some (n, f) -> 0 <= n <= maxUint64.
Proof.
  induction s as [|c s IH]; intros acc n f Hacc H; simpl in H.
  - inversion H; subst; exact Hacc.
  - unfold digit_of in H.
    destruct ((48 <=? Z.of_nat (nat_of_ascii c))
              && (Z.of_nat (nat_of_ascii c) <=? 57)) eqn:Hd;
      [|discriminate].
    apply andb_true_iff in Hd as [H1 H2].
    apply Z.leb_le in H1, H2.
    destruct (maxUint64 <? acc * 10 + (Z.of_nat (nat_of_ascii c) - 48)) eqn:Ho.
    + inversion H; subst. unfold maxUint64; lia.
    + apply Z.ltb_ge in Ho. eapply IH; [|exact H]. lia.
Qed.

(** Whatever the text, the value [ParseInt] hands back is an [int64]. *)
Lemma ParseInt_int64 s : minInt64 <= fst (ParseInt s) <= maxInt64.
Proof.
  assert (Hu : forall b, 0 <= fst (ParseUint b) <= maxUint64).
  { intros b. unfold ParseUint. destruct b as [|c b]; [simpl; unfold maxUint64; lia|].
    destruct (digits (String c b) 0) as [[n f]|] eqn:Hd.
    - apply digits_bounds in Hd; [|unfold maxUint64; lia].
      destruct f; simpl; [unfold maxUint64; lia | exact Hd].
    - simpl; unfold maxUint64; lia. }
  unfold ParseInt. destruct s as [|c rest]; [unfold minInt64, maxInt64; simpl; lia|].
  set (pr := if Ascii.eqb c "+" then (false, rest)
             else if Ascii.eqb c "-" then (true, rest)
             else (false, String c rest)).
  destruct pr as [neg body]. specialize (Hu body).
  destruct (ParseUint body) as [un [[]|]]; simpl in Hu;
    try (unfold minInt64, maxInt64; simpl; lia);
    destruct neg; simpl;
    repeat match goal with
           | |- context [if ?b then _ else _] => destruct b eqn:?
           end; simpl;
    rewrite ?Z.leb_le, ?Z.leb_gt, ?Z.ltb_lt, ?Z.ltb_ge in *;
    unfold minInt64, maxInt64 in *; lia.
Qed.

End strconv_facts.

(** ** The CSI controller *)
Section csi_facts.
Import tridentconfig storage coreerr csi.

(** C8.  The access-mode mapping of the CSI frontend: the two single-node
    modes give ReadWriteOnce, MULTI_NODE_READER_ONLY gives ReadOnlyMany,
    the two multi-node writer modes give ReadWriteMany; the protocol is
    File for MULTI_NODE_MULTI_WRITER and Any for every other mode value. *)
Theorem csi_access_mode_mapping :
  getAccessForCSIAccessMode AccessMode_SINGLE_NODE_WRITER = ReadWriteOnce
  /\ getAccessForCSIAccessMode AccessMode_SINGLE_NODE_READER_ONLY = ReadWriteOnce
  /\ getAccessForCSIAccessMode AccessMode_MULTI_NODE_READER_ONLY = ReadOnlyMany
  /\ getAccessForCSIAccessMode AccessMode_MULTI_NODE_SINGLE_WRITER = ReadWriteMany
  /\ getAccessForCSIAccessMode AccessMode_MULTI_NODE_MULTI_WRITER = ReadWriteMany
  /\ getProtocolForCSIAccessMode AccessMode_MULTI_NODE_MULTI_WRITER = File
  /\ forall mode : Mode,
       getProtocolForCSIAccessMode mode =
       if mode =? AccessMode_MULTI_NODE_MULTI_WRITER then File else ProtocolAny.
Proof.
  repeat split; try reflexivity.
  intros mode. unfold getProtocolForCSIAccessMode.
  repeat match goal with
         | |- context [?a =? ?b] => destruct (Z.eqb_spec a b)
         end; try reflexivity; subst; discriminate.
Qed.

(** Outside the five named modes the access mode stays unconstrained. *)
Lemma getAccess_other (mode : Mode) :
  mode < 1 \/ 5 < mode -> getAccessForCSIAccessMode mode = ModeAny.
Proof.
  intros H. unfold getAccessForCSIAccessMode, AccessMode_SINGLE_NODE_WRITER,
    AccessMode_SINGLE_NODE_READER_ONLY, AccessMode_MULTI_NODE_READER_ONLY,
    AccessMode_MULTI_NODE_SINGLE_WRITER, AccessMode_MULTI_NODE_MULTI_WRITER.
  repeat match goal with
         | |- context [?a =? ?b] => destruct (Z.eqb_spec a b)
         end; try reflexivity; lia.
Qed.

Section WithOrchestrator.
Context {S : Type}.
Variable orchGetVolume :
  string -> S -> (option VolumeExternal * option OrchError) * S.
Variable orchListBackends :
  S -> (option (list BackendExternal) * option OrchError) * S.
Variable orchAddVolume :
  VolumeConfig -> S -> (option VolumeExternal * option OrchError) * S.
Variable commonGetStorageClass :
  gmap string string -> S -> (OrchError + string) * S.
Variable commonGetVolumeConfig :
  string -> string -> Z -> gmap string string ->
  tridentconfig.Protocol -> tridentconfig.AccessMode ->
  OrchError + VolumeConfig.

Let Create :=
  CreateVolume orchGetVolume orchListBackends orchAddVolume
    commonGetStorageClass commonGetVolumeConfig.

Lemma bind_run {A B} (m : M A) (k : A -> M B) (w : World S) :
  bind m k w = k (fst (m w)) (snd (m w)).
Proof. unfold bind. destruct (m w); reflexivity. Qed.

Lemma invoke_run {A} (c : Call) (f : S -> A * S) (w : World S) :
  invoke c f w =
  (fst (f (orch w)), {| orch := snd (f (orch w)); calls := calls w ++ [c] |}).
Proof. unfold invoke. destruct (f (orch w)); reflexivity. Qed.

Lemma hasBackendForProtocol_calls protocol (w : World S) :
  calls (snd (hasBackendForProtocol orchListBackends protocol w))
  = calls w ++ [CallListBackends].
Proof.
  unfold hasBackendForProtocol. rewrite bind_run, invoke_run. reflexivity.
Qed.

(** The capability loop only ever asks for the list of backends. *)
Lemma capabilityLoop_calls caps : forall pr am fs w,
  exists extra,
    calls (snd (capabilityLoop orchListBackends caps pr am fs w))
    = calls w ++ extra
    /\ Forall (fun c => c = CallListBackends) extra.
Proof.
  induction caps as [|cap rest IH]; intros pr am fs w; simpl.
  - exists []. rewrite app_nil_r. auto.
  - assert (Hstep : forall fs0, exists extra,
      calls (snd
        (match capAccessMode cap with
         | None => ret Panic
         | Some mode =>
             bind (hasBackendForProtocol orchListBackends
                     (getProtocolForCSIAccessMode mode))
               (fun has =>
                  if negb has then
                    ret (Err {| code := InvalidArgument;
                                msg := "no available storage for access mode" |})
                  else capabilityLoop orchListBackends rest
                         (getProtocolForCSIAccessMode mode)
                         (getAccessForCSIAccessMode mode) fs0)
         end w)) = calls w ++ extra
      /\ Forall (fun c => c = CallListBackends) extra).
    { intros fs0. destruct (capAccessMode cap) as [mode|].
      - rewrite bind_run.
        pose proof (hasBackendForProtocol_calls
                      (getProtocolForCSIAccessMode mode) w) as Hc.
        destruct (hasBackendForProtocol orchListBackends
                    (getProtocolForCSIAccessMode mode) w) as [has w1].
        simpl in *. destruct has; simpl.
        + destruct (IH (getProtocolForCSIAccessMode mode)
                      (getAccessForCSIAccessMode mode) fs0 w1)
            as (extra & He & Hall).
          exists (CallListBackends :: extra). split.
          * rewrite He, Hc, <- app_assoc. reflexivity.
          * constructor; auto.
        + exists [CallListBackends]. split; [exact Hc|].
          repeat constructor.
      - exists []. rewrite app_nil_r. auto. }
    destruct (capAccessType cap) eqn:Ht.
    + apply Hstep.
    + exists []. rewrite app_nil_r. auto.
    + apply Hstep.
Qed.

(** A block capability that the loop reaches ends it with
    InvalidArgument, whatever the orchestrator answers on the way. *)
Lemma capabilityLoop_block pre cap post : forall pr am fs w,
  capAccessType cap = BlockVolume ->
  Forall (fun c => capAccessMode c <> None) pre ->
  exists m,
    fst (capabilityLoop orchListBackends (pre ++ cap :: post) pr am fs w)
    = Err {| code := InvalidArgument; msg := m |}.
Proof.
  induction pre as [|c rest IH]; intros pr am fs w Hb Hall; simpl.
  - rewrite Hb. eexists; reflexivity.
  - inversion Hall as [|? ? Hmode Hrest]; subst.
    assert (Hstep : forall fs0, exists m,
      fst
        (match capAccessMode c with
         | None => ret Panic
         | Some mode =>
             bind (hasBackendForProtocol orchListBackends
                     (getProtocolForCSIAccessMode mode))
               (fun has =>
                  if negb has then
                    ret (Err {| code := InvalidArgument;
                                msg := "no available storage for access mode" |})
                  else capabilityLoop orchListBackends
                         (rest ++ cap :: post)
                         (getProtocolForCSIAccessMode mode)
                         (getAccessForCSIAccessMode mode) fs0)
         end w) = Err {| code := InvalidArgument; msg := m |}).
    { intros fs0. destruct (capAccessMode c) as [mode|]; [|congruence].
      rewrite bind_run.
      destruct (hasBackendForProtocol orchListBackends
                  (getProtocolForCSIAccessMode mode) w) as [has w1].
      simpl. destruct has; simpl.
      - apply IH; assumption.
      - eexists; reflexivity. }
    destruct (capAccessType c) eqn:Ht.
    + apply Hstep.
    + eexists; reflexivity.
    + apply Hstep.
Qed.


(** C10, as amended.  When no volume of the requested name exists yet
    and every capability ahead of the first block capability carries an
    access mode, a request with a block capability is rejected with
    InvalidArgument, and up to that point the orchestrator has been
    asked neither for a storage class nor to add a volume. *)
Theorem csi_CreateVolume_block_rejected
  (req : CreateVolumeRequest) (pre post : list VolumeCapability)
  (cap : VolumeCapability) (w : World S) :
  reqVolumeCapabilities req = Some (pre ++ cap :: post) ->
  capAccessType cap = BlockVolume ->
  Forall (fun c => capAccessMode c <> None) pre ->
  fst (fst (orchGetVolume (reqName req) (orch w))) = None ->
  match snd (fst (orchGetVolume (reqName req) (orch w))) with
  | Some e => IsNotFoundError e = true
  | None => True
  end ->
  exists m extra,
    fst (Create req w) = Err {| code := InvalidArgument; msg := m |}
    /\ calls (snd (Create req w)) = calls w ++ extra
    /\ Forall (fun c => provisioning c = false) extra.
Proof.
  intros Hcaps Hblock Hmodes Hnone Herr.
  unfold Create, CreateVolume.
  destruct (decide (reqName req = "")) as [Hempty|Hname].
  { exists "volume name missing in request", []. simpl.
    rewrite app_nil_r. auto. }
  rewrite Hcaps, bind_run, invoke_run.
  destruct (orchGetVolume (reqName req) (orch w)) as [[vol err] s1].
  simpl in Hnone, Herr. subst vol. simpl.
  assert (Hfail :
    match err with
    | Some e =>
        if negb (IsNotFoundError e)
        then Some (getCSIErrorForOrchestratorError e) else None
    | None => None
    end = None).
  { destruct err as [e|]; [rewrite Herr|]; reflexivity. }
  rewrite Hfail, bind_run.
  set (w1 := {| orch := s1;
                calls := calls w ++ [CallGetVolume (reqName req)] |}).
  destruct (capabilityLoop_block pre cap post ProtocolAny ModeAny "" w1
              Hblock Hmodes) as (m & Hm).
  destruct (capabilityLoop_calls (pre ++ cap :: post) ProtocolAny ModeAny
              "" w1) as (extra & Hcalls & Hall).
  destruct (capabilityLoop orchListBackends (pre ++ cap :: post)
              ProtocolAny ModeAny "" w1) as [l w2].
  simpl in Hm, Hcalls. subst l. simpl.
  exists m, (CallGetVolume (reqName req) :: extra). repeat split.
  - rewrite Hcalls. unfold w1. simpl. rewrite <- app_assoc. reflexivity.
  - constructor; [reflexivity|].
    eapply Forall_impl; [exact Hall|]. intros c ->. reflexivity.
Qed.

End WithOrchestrator.

Import csi_fixture.



Lemma csi_CreateVolume_block_rejected_witness :
  exists m extra,
    fst (run (request "new" GiB
                (Some [mountCap (Some AccessMode_SINGLE_NODE_WRITER); blockCap])))
    = Err {| code := InvalidArgument; msg := m |}
    /\ calls (snd (run (request "new" GiB
                (Some [mountCap (Some AccessMode_SINGLE_NODE_WRITER); blockCap]))))
       = calls w0 ++ extra
    /\ Forall (fun c => provisioning c = false) extra.
Proof.
  refine (csi_CreateVolume_block_rejected (holding vol1)
            fileBackends refuseAdd basicClass plainConfig
            (request "new" GiB
               (Some [mountCap (Some AccessMode_SINGLE_NODE_WRITER); blockCap]))
            [mountCap (Some AccessMode_SINGLE_NODE_WRITER)] [] blockCap w0
            _ _ _ _ _).
  - reflexivity.
  - reflexivity.
  - repeat constructor. simpl. discriminate.
  - reflexivity.
  - reflexivity.
Defined.

(** C10 as stated fails twice.  A request with a block capability for
    the existing volume "v" is answered with that volume; and a block
    capability that follows a capability without access mode is never
    reached, the handler dereferences nil first. *)
Lemma csi_CreateVolume_block_not_always_rejected :
  run (request "v" GiB (Some [blockCap]))
  = (Ok {| respVolume := getCSIVolumeFromTridentVolume vol1 |},
     {| orch := tt; calls := [CallGetVolume "v"] |})
  /\ fst (run (request "new" GiB (Some [mountCap None; blockCap]))) = Panic.
Proof. split; reflexivity. Qed.

(** Scenario "idempotent CSI CreateVolume" on the engine: the first call
    creates the volume with one driver call; the second call with the same
    request returns the same volume and the driver is not called again; a
    call asking for twice the size fails with AlreadyExists. *)
Example csi_CreateVolume_twice :
  let first := wired_fixture.controller (wired_fixture.ask GiB)
                 wired_fixture.fresh in
  let second := wired_fixture.controller (wired_fixture.ask GiB) (snd first) in
  let third := wired_fixture.controller (wired_fixture.ask (2 * GiB))
                 (snd second) in
  (exists r, fst first = Ok r /\ fst second = Ok r
             /\ VolumeId (respVolume r) = "v"
             /\ CapacityBytes (respVolume r) = GiB)
  /\ length (core.driverLog (orch (snd first))) = 1%nat
  /\ core.driverLog (orch (snd second)) = core.driverLog (orch (snd first))
  /\ (exists m, fst third = Err {| code := AlreadyExists; msg := m |})
  /\ core.driverLog (orch (snd third)) = core.driverLog (orch (snd first)).
Proof.
  cbv zeta. split; [|split; [|split; [|split]]].
  - eexists. split; [vm_compute; reflexivity|].
    repeat split; vm_compute; reflexivity.
  - vm_compute. reflexivity.
  - vm_compute. reflexivity.
  - eexists. vm_compute. reflexivity.
  - vm_compute. reflexivity.
Qed.

End csi_facts.

(** ** The passthrough store *)
Section passthrough_facts.
Import storage persistentstore.

Lemma GetBackends_bootBackends (c : PassthroughClient) :
  GetBackends c = (bootBackends c, None).
Proof.
  unfold GetBackends. f_equal.
  assert (H : forall (l acc : list BackendPersistent),
             fold_left (fun backendList backend => backendList ++ [backend])
               l acc = acc ++ l).
  { induction l as [|x l IH]; intros acc; simpl.
    - rewrite app_nil_r. reflexivity.
    - rewrite IH, <- app_assoc. reflexivity. }
  apply H.
Qed.

Lemma run_op_bootBackends (op : BackendOp) (c : PassthroughClient) :
  bootBackends (run_op op c) = bootBackends c.
Proof.
  destruct op as [b|b|b|]; simpl; try reflexivity.
  - unfold UpdateBackend. destruct (liveBackends c !! Name b); reflexivity.
  - unfold DeleteBackend. destruct (liveBackends c !! Name b); reflexivity.
Qed.

Lemma run_ops_bootBackends (ops : list BackendOp) : forall c,
  bootBackends (run_ops ops c) = bootBackends c.
Proof.
  unfold run_ops. induction ops as [|op ops IH]; intros c; simpl.
  - reflexivity.
  - rewrite IH. apply run_op_bootBackends.
Qed.

Section Loading.
Variable Stat : string -> StatResult.
Variable ReadDir : string -> string + list (string * bool).
Variable ReadFile : string -> option string.
Variable Join : string -> string -> string.
Variable YAMLToJSON : string -> string + string.
Variable ValidateCommonSettings : string -> string + StorageDriverName.
Variable OrchestratorAPIVersion : string.
Variable jsonUnmarshal : string -> string -> option string.

Let load :=
  loadBackend ReadFile YAMLToJSON ValidateCommonSettings
    OrchestratorAPIVersion jsonUnmarshal.
Let parse :=
  parseBackend ReadFile YAMLToJSON ValidateCommonSettings
    OrchestratorAPIVersion jsonUnmarshal.

Lemma loadBackend_Loaded path c c' :
  load path c = Loaded c' ->
  exists b, parse path = Some b
            /\ bootBackends c' = bootBackends c ++ [b]
            /\ liveBackends c' = liveBackends c.
Proof.
  unfold load, parse, loadBackend, parseBackend.
  destruct (ReadFile path) as [contents|]; [|discriminate].
  destruct (unmarshalConfig _ _ _ contents) as [e|j]; [discriminate|].
  destruct (jsonUnmarshal (bpConfigType j) (bpConfig j)) as [cfg|];
    [|discriminate].
  intros H. inversion H; subst. eexists. split; [reflexivity|].
  split; reflexivity.
Qed.

Lemma loadFiles_Loaded dir files : forall c c',
  loadFiles ReadFile Join YAMLToJSON ValidateCommonSettings
    OrchestratorAPIVersion jsonUnmarshal dir files c = Loaded c' ->
  exists bs,
    Forall2 (fun path b => parse path = Some b)
      (map (fun f => Join dir (fst f)) (List.filter (fun f => snd f) files))
      bs
    /\ bootBackends c' = bootBackends c ++ bs
    /\ liveBackends c' = liveBackends c.
Proof.
  induction files as [|[name regular] rest IH]; intros c c' H; simpl in H.
  - inversion H; subst. exists []. rewrite app_nil_r.
    split; [constructor|]. split; reflexivity.
  - destruct regular; simpl in H |- *.
    + fold load in H.
      destruct (load (Join dir name) c) as [c1| |] eqn:Hl; try discriminate.
      apply loadBackend_Loaded in Hl as (b & Hp & Hb & Hlive).
      apply IH in H as (bs & Hall & Hbs & Hlive').
      exists (b :: bs). split; [constructor; assumption|].
      split; [rewrite Hbs, Hb, <- app_assoc; reflexivity | congruence].
    + apply IH in H. exact H.
Qed.

(** C9.  The list [GetBackends] returns is the list of backends parsed
    from the configuration files when the client was created, file by
    file, and no sequence of [AddBackend], [UpdateBackend],
    [DeleteBackend] and [DeleteBackends] calls changes it: those only
    write [liveBackends]. *)
Theorem passthrough_GetBackends_boot_only
  (configPath : string) (c : PassthroughClient) (ops : list BackendOp) :
  NewPassthroughClient Stat ReadDir ReadFile Join YAMLToJSON
    ValidateCommonSettings OrchestratorAPIVersion jsonUnmarshal configPath
  = Loaded c ->
  GetBackends (run_ops ops c) = GetBackends c
  /\ snd (GetBackends (run_ops ops c)) = None
  /\ Forall2 (fun path b => parse path = Some b)
       (configFiles Stat ReadDir Join configPath)
       (fst (GetBackends (run_ops ops c))).
Proof.
  intros Hnew.
  rewrite !GetBackends_bootBackends, run_ops_bootBackends. simpl.
  split; [reflexivity|]. split; [reflexivity|].
  unfold NewPassthroughClient, initialize in Hnew. unfold configFiles.
  destruct (decide (configPath = "")); [discriminate|].
  destruct (Stat configPath); try discriminate.
  - destruct (ReadDir configPath) as [e|files]; [discriminate|].
    apply loadFiles_Loaded in Hnew as (bs & Hall & Hbs & _).
    simpl in Hbs. subst. exact Hall.
  - fold load in Hnew.
    apply loadBackend_Loaded in Hnew as (b & Hp & Hb & _).
    simpl in Hb. rewrite Hb. constructor; [exact Hp | constructor].
Qed.

End Loading.

(** *** Volume discovery *)

Lemma concat_insert_head {A} (ps : list (list A)) : forall i x xs,
  ps !! i = Some (x :: xs) ->
  Permutation (concat ps) (x :: concat (<[i := xs]> ps)).
Proof.
  induction ps as [|p ps IH]; intros i x xs H; [discriminate|].
  destruct i as [|i]; simpl in *.
  - inversion H; subst. reflexivity.
  - specialize (IH i x xs H).
    rewrite IH. apply Permutation_sym, Permutation_middle.
Qed.

(** Whatever the schedule, the receiver sees every element the
    producers send, each once. *)
Lemma deliver_Permutation {A} (sched : list nat) :
  forall producers : list (list A),
    Permutation (deliver sched producers) (concat producers).
Proof.
  induction sched as [|i sched IH]; intros producers; simpl.
  - reflexivity.
  - destruct (producers !! i) as [[|x xs]|] eqn:Hi; try apply IH.
    rewrite IH. symmetry. apply concat_insert_head. exact Hi.
Qed.

Lemma collect_filter (received : list VolumeExternalWrapper) : forall volumes,
  collect received volumes
  = volumes ++ map Volume
      (List.filter (fun w => bool_decide (Error w = None)) received).
Proof.
  induction received as [|w rest IH]; intros volumes; simpl.
  - rewrite app_nil_r. reflexivity.
  - destruct (Error w) as [e|]; simpl.
    + apply IH.
    + rewrite IH, <- app_assoc. reflexivity.
Qed.

Lemma filter_Permutation {A} (f : A -> bool) (l l' : list A) :
  Permutation l l' -> Permutation (List.filter f l) (List.filter f l').
Proof.
  induction 1 as [|x l l' _ IH|x y l|l l' l'' _ IH1 _ IH2]; simpl.
  - constructor.
  - destruct (f x); [constructor|]; exact IH.
  - destruct (f x), (f y); try reflexivity. constructor.
  - etransitivity; eassumption.
Qed.

Lemma filter_concat {A} (f : A -> bool) (ls : list (list A)) :
  List.filter f (concat ls) = concat (map (List.filter f) ls).
Proof.
  induction ls as [|l ls IH]; simpl; [reflexivity|].
  rewrite List.filter_app, IH. reflexivity.
Qed.

Lemma reported_of_producer (b : Backend) :
  map Volume
    (List.filter (fun w => bool_decide (Error w = None))
       (getVolumesFromBackend b))
  = reportedVolumes b.
Proof.
  unfold getVolumesFromBackend, reportedVolumes.
  induction (DriverWrappers b) as [|w ws IH]; simpl; [reflexivity|].
  destruct (bool_decide (Error w = None)); simpl; rewrite IH; reflexivity.
Qed.

Lemma received_sequential (c : PassthroughClient) :
  map Volume
    (List.filter (fun w => bool_decide (Error w = None))
       (concat (producers_of c)))
  = concat (map (fun kv => reportedVolumes (snd kv))
              (map_to_list (liveBackends c))).
Proof.
  unfold producers_of.
  induction (map_to_list (liveBackends c)) as [|kv l IH]; simpl;
    [reflexivity|].
  rewrite List.filter_app, List.map_app, IH, reported_of_producer.
  reflexivity.
Qed.

(** C7.  Whatever the order in which the producer goroutines get to
    send, [GetVolumes] returns no error, and returns the volumes the
    live backends report without error, each stamped with the name of
    its backend: the concatenation of the per-backend reports, up to the
    order of delivery, and exactly the concatenation when the backends
    deliver one after the other.  A wrapper that carries an error is
    skipped and nothing else is lost because of it. *)
Theorem passthrough_GetVolumes_fan_out
  (sched : list nat) (c : PassthroughClient) :
  let reports :=
    concat (map (fun kv => reportedVolumes (snd kv))
              (map_to_list (liveBackends c))) in
  snd (GetVolumes sched c) = None
  /\ Permutation (fst (GetVolumes sched c)) reports
  /\ fst (GetVolumes [] c) = reports
  /\ forall v, In (Some v) (fst (GetVolumes sched c)) ->
       exists key b w v0,
         liveBackends c !! key = Some b
         /\ In w (DriverWrappers b) /\ Error w = None
         /\ Volume w = Some v0
         /\ v = set_Backend (Name b) v0
         /\ storage.Backend v = Name b.
Proof.
  intros reports.
  assert (Hperm : Permutation (fst (GetVolumes sched c)) reports).
  { unfold GetVolumes, reports. simpl. rewrite collect_filter. simpl.
    rewrite <- received_sequential.
    apply Permutation_map, filter_Permutation, deliver_Permutation. }
  split; [reflexivity|]. split; [exact Hperm|]. split.
  - unfold GetVolumes, reports. simpl. rewrite collect_filter. simpl.
    apply received_sequential.
  - intros v Hin.
    apply (Permutation_in _ Hperm) in Hin. unfold reports in Hin.
    apply in_concat in Hin as (l & Hl & Hv).
    apply in_map_iff in Hl as ([key b] & <- & Hkv).
    apply list_elem_of_In, elem_of_map_to_list in Hkv.
    unfold reportedVolumes in Hv. simpl in Hv.
    apply in_map_iff in Hv as (w & Hw & Hf).
    apply List.filter_In in Hf as [Hwin Herr].
    apply bool_decide_eq_true in Herr.
    destruct (Volume w) as [v0|] eqn:Hv0; [|discriminate].
    simpl in Hw. inversion Hw; subst.
    exists key, b, w, v0. repeat split; assumption.
Qed.

Import passthrough_fixture.

Example NewPassthroughClient_directory :
  NewPassthroughClient Stat0 ReadDir0 ReadFile0 Join0 YAMLToJSON0 Validate0
    "1" jsonUnmarshal0 "conf" = Loaded booted.
Proof. reflexivity. Qed.

Lemma passthrough_GetBackends_boot_only_witness :
  GetBackends
    (run_ops [OpAddBackend east; OpUpdateBackend west; OpDeleteBackend east;
              OpAddBackend west; OpDeleteBackends] booted)
  = (bootBackends booted, None).
Proof.
  pose proof (passthrough_GetBackends_boot_only Stat0 ReadDir0 ReadFile0
                Join0 YAMLToJSON0 Validate0 "1" jsonUnmarshal0 "conf" booted
                [OpAddBackend east; OpUpdateBackend west; OpDeleteBackend east;
                 OpAddBackend west; OpDeleteBackends]
                eq_refl) as [H _].
  rewrite H. reflexivity.
Defined.

(** Two producers taking turns: the result is neither backend's report
    followed by the other's, yet no volume is lost and each carries its
    backend. *)
Example GetVolumes_interleaved :
  fst (GetVolumes [0; 1; 0; 1; 0]%nat live)
  = [ Some (set_Backend "west" (vol "w1")); Some (set_Backend "east" (vol "e1"));
      Some (set_Backend "west" (vol "w2")); Some (set_Backend "east" (vol "e2")) ].
Proof. vm_compute. reflexivity. Qed.

Lemma passthrough_GetVolumes_fan_out_witness :
  snd (GetVolumes [0; 1; 0; 1; 0]%nat live) = None
  /\ Permutation (fst (GetVolumes [0; 1; 0; 1; 0]%nat live))
       (concat (map (fun kv => reportedVolumes (snd kv))
                  (map_to_list (liveBackends live)))).
Proof.
  pose proof (passthrough_GetVolumes_fan_out [0; 1; 0; 1; 0]%nat live)
    as (Herr & Hperm & _).
  split; [exact Herr | exact Hperm].
Defined.

End passthrough_facts.

(** ** The orchestrator engine *)
Section core_facts.
Import tridentconfig coreerr core.

(** *** Class-to-pool matching *)

Lemma isEmpty_spec {V} (m : gmap string V) : isEmpty m = true <-> m = ∅.
Proof.
  unfold isEmpty. rewrite <- (map_to_list_empty_iff m).
  destruct (map_to_list m); split; congruence.
Qed.

Lemma isEmpty_false {V} (m : gmap string V) : isEmpty m = false <-> m <> ∅.
Proof.
  rewrite <- isEmpty_spec. destruct (isEmpty m); split; congruence.
Qed.

Lemma listed_spec m b p : listed m b p = true <-> listedIn m b p.
Proof.
  unfold listed, listedIn. destruct (m !! b) as [l|].
  - rewrite bool_decide_eq_true, list_elem_of_In. split.
    + intros H. exists l. auto.
    + intros (l' & Hl & Hin). inversion Hl; subst. exact Hin.
  - split; [discriminate|]. intros (l & Hl & _). discriminate.
Qed.

Lemma attributesMatch_spec c p : attributesMatch c p = true <-> satisfies c p.
Proof.
  unfold attributesMatch, satisfies. rewrite forallb_forall. split.
  - intros H name req Hl.
    specialize (H (name, req)). simpl in H. unfold attributeMatch in H.
    destruct (pAttributes p !! name) as [offer|].
    + exists offer. split; [reflexivity|]. apply H.
      apply list_elem_of_In, elem_of_map_to_list. exact Hl.
    + assert (false = true); [|discriminate]. apply H.
      apply list_elem_of_In, elem_of_map_to_list. exact Hl.
  - intros H [name req] Hin. simpl.
    apply list_elem_of_In, elem_of_map_to_list in Hin.
    destruct (H name req Hin) as (offer & Ho & Hm).
    unfold attributeMatch. rewrite Ho. exact Hm.
Qed.

Lemma Matches_spec c b pn p : Matches c b pn p = true <-> accepts c b pn p.
Proof.
  unfold Matches, accepts, poolsMatch.
  rewrite <- (listed_spec (AdditionalPools c)), <- (listed_spec (Pools c)),
    <- attributesMatch_spec.
  rewrite <- (isEmpty_false (AdditionalPools c)), <- (isEmpty_false (Pools c)),
    <- (isEmpty_spec (Attributes c)), <- (isEmpty_spec (Pools c)).
  destruct (listed (AdditionalPools c) b pn); [tauto|].
  destruct (isEmpty (AdditionalPools c)), (isEmpty (Attributes c)),
    (isEmpty (Pools c)), (attributesMatch c p), (listed (Pools c) b pn);
    simpl; intuition congruence.
Qed.

Lemma CheckAndAddBackend_pairs c bn b x pn :
  In (x, pn) (snd (CheckAndAddBackend c bn b)) <->
  x = bn /\ bState b = Online
  /\ exists p, bStorage b !! pn = Some p /\ Matches c bn pn p = true.
Proof.
  unfold CheckAndAddBackend. destruct (decide (bState b = Online)) as [Hon|Hoff];
    simpl.
  - rewrite in_map_iff. split.
    + intros ([k p] & Heq & Hin). simpl in Heq. inversion Heq; subst.
      apply List.filter_In in Hin as [Hin Hm]. simpl in Hm.
      apply list_elem_of_In, elem_of_map_to_list in Hin. eauto.
    + intros (-> & _ & p & Hl & Hm). exists (pn, p). split; [reflexivity|].
      apply List.filter_In. split; [|exact Hm].
      apply list_elem_of_In, elem_of_map_to_list. exact Hl.
  - split; [contradiction|]. intros (_ & Hon & _). contradiction.
Qed.

Lemma scanBackends_pairs c bs bn pn :
  In (bn, pn) (snd (scanBackends c bs)) <->
  exists b p, bs !! bn = Some b /\ bState b = Online
              /\ bStorage b !! pn = Some p /\ Matches c bn pn p = true.
Proof.
  unfold scanBackends. simpl. rewrite in_concat. split.
  - intros (l & Hl & Hin). apply in_map_iff in Hl as ([k b] & <- & Hkb).
    simpl in Hin. apply CheckAndAddBackend_pairs in Hin as (-> & Hon & p & Hp & Hm).
    apply list_elem_of_In, elem_of_map_to_list in Hkb. eauto 6.
  - intros (b & p & Hb & Hon & Hp & Hm).
    exists (snd (CheckAndAddBackend c bn b)). split.
    + apply in_map_iff. exists (bn, b). split; [reflexivity|].
      apply list_elem_of_In, elem_of_map_to_list. exact Hb.
    + apply CheckAndAddBackend_pairs. eauto.
Qed.

Lemma scanBackends_pool c bs bn b pn p :
  bs !! bn = Some b -> bStorage b !! pn = Some p ->
  exists b' p',
    fst (scanBackends c bs) !! bn = Some b'
    /\ bStorage b' !! pn = Some p'
    /\ bState b' = bState b /\ bVolumes b' = bVolumes b
    /\ pAttributes p' = pAttributes p
    /\ pStorageClasses p' =
       if bool_decide (bState b = Online) && Matches c bn pn p
       then pStorageClasses p ++ [scName c] else pStorageClasses p.
Proof.
  intros Hb Hp. unfold scanBackends. simpl.
  rewrite map_lookup_imap, Hb. simpl. unfold CheckAndAddBackend.
  destruct (decide (bState b = Online)) as [Hon|Hoff]; simpl.
  - eexists _, _. split; [reflexivity|]. simpl.
    rewrite map_lookup_imap, Hp. simpl. split; [reflexivity|].
    rewrite bool_decide_eq_true_2 by exact Hon. simpl.
    destruct (Matches c bn pn p); simpl; auto.
  - exists b, p. rewrite bool_decide_eq_false_2 by exact Hoff. simpl. auto 6.
Qed.

(** C1, as amended.  For a class [c] and a pool [p] of a backend [b] the
    orchestrator holds, [AddStorageClass] succeeds, persists the class, and
    records [c] as matching [p], in the pairs it returns and in the class
    list of the pool, exactly when [b] is online and the match predicate
    holds: [p] is listed in AdditionalPools[b]; or the class is not one
    that names AdditionalPools alone, [p] appears in Pools[b] if Pools is
    non-empty, and every attribute request is satisfied by an offer of
    [p].  In particular a class without any field matches every pool of
    every online backend. *)
Theorem AddStorageClass_records_matches
  (c : Config) (o : TridentOrchestrator)
  (bn : string) (b : Backend) (pn : string) (p : Pool) :
  bootstrapped o = true ->
  backends o !! bn = Some b ->
  bStorage b !! pn = Some p ->
  exists ext o',
    AddStorageClass c o = ((Some ext, None), o')
    /\ (In (bn, pn) (StoragePools ext)
        <-> bState b = Online /\ accepts c bn pn p)
    /\ (exists b' p',
          backends o' !! bn = Some b' /\ bStorage b' !! pn = Some p'
          /\ (In (scName c) (pStorageClasses p')
              <-> In (scName c) (pStorageClasses p)
                  \/ (bState b = Online /\ accepts c bn pn p)))
    /\ sStorageClasses (storeClient o') !! scName c = Some c
    /\ (Attributes c = ∅ -> Pools c = ∅ -> AdditionalPools c = ∅ ->
        bState b = Online -> In (bn, pn) (StoragePools ext)).
Proof.
  intros Hboot Hb Hp. unfold AddStorageClass, guarded. rewrite Hboot.
  destruct (scanBackends c (backends o)) as [bs matched] eqn:Hscan.
  eexists _, _. split; [reflexivity|]. simpl.
  assert (Hpairs : In (bn, pn) matched
                   <-> bState b = Online /\ accepts c bn pn p).
  { replace matched with (snd (scanBackends c (backends o)))
      by (rewrite Hscan; reflexivity).
    rewrite scanBackends_pairs, <- Matches_spec. split.
    - intros (b0 & p0 & Hb0 & Hon & Hp0 & Hm).
      rewrite Hb in Hb0. inversion Hb0; subst b0.
      rewrite Hp in Hp0. inversion Hp0; subst p0. auto.
    - intros [Hon Hm]. eauto 6. }
  split; [exact Hpairs|]. split; [|split].
  - destruct (scanBackends_pool c (backends o) bn b pn p Hb Hp)
      as (b' & p' & Hb' & Hp' & _ & _ & _ & Hcl).
    rewrite Hscan in Hb'. simpl in Hb'.
    exists b', p'. split; [exact Hb'|]. split; [exact Hp'|].
    rewrite Hcl, <- Matches_spec.
    destruct (bool_decide_reflect (bState b = Online)) as [Hon|Hoff]; simpl.
    + destruct (Matches c bn pn p); simpl.
      * rewrite in_app_iff. simpl. tauto.
      * intuition congruence.
    + tauto.
  - apply lookup_insert_eq.
  - intros Ha Hpl Had Hon. apply Hpairs. split; [exact Hon|].
    right. split; [tauto|]. split; [tauto|].
    intros name req Hl. rewrite Ha in Hl. rewrite lookup_empty in Hl.
    discriminate.
Qed.


(** *** Volumes and backends *)

Section Engine_facts.
Variable GetInternalVolumeName : string -> string -> string.
Variable driver : list DriverCall -> DriverCall -> option DriverError.

Let Add := AddVolume GetInternalVolumeName driver.
Let Delete := DeleteVolume driver.

(** A successful deletion moves an offline backend one step along: the
    deleted volume joins those that are done. *)
Lemma DeleteVolume_draining held known backendName done v o o' :
  (forall k vol, known !! k = Some vol ->
                 storage.Name (storage.Config vol) = k) ->
  (forall k vol, known !! k = Some vol -> is_Some (held !! k) ->
                 storage.Backend vol = backendName) ->
  draining held known backendName done o ->
  Delete v o = ((Some tt, None), o') ->
  draining held known backendName (v :: done) o'.
Proof.
  intros Hname Hlisted (Hboot & Hsub & Hstate) Hdel.
  unfold Delete, DeleteVolume, guarded, fails, succeeds, returns in Hdel.
  rewrite Hboot in Hdel.
  destruct (volumes o !! v) as [vol|] eqn:Hv; [|discriminate].
  pose proof (Hname _ _ (Hsub _ _ Hv)) as Hn.
  unfold callDriver in Hdel. simpl in Hdel.
  assert (Hrm : forall o2,
    bootstrapped o2 = true -> volumes o2 = volumes o ->
    backends o2 = backends o ->
    sBackends (storeClient o2) = sBackends (storeClient o) ->
    forall t, draining held known backendName (v :: done)
                (clearJournal t (removeVolume vol o2))).
  { intros o2 Hb2 Hv2 Hbs2 Hs2 t. unfold removeVolume. cbv zeta.
    rewrite Hn.
    set (o1 := set_storeClient _ _).
    assert (Hvol1 : forall k x, volumes o1 !! k = Some x -> known !! k = Some x).
    { intros k x. unfold o1. simpl. rewrite Hv2.
      destruct (decide (k = v)) as [->|Hne];
        [rewrite lookup_delete_eq; discriminate|].
      rewrite lookup_delete_ne by congruence. apply Hsub. }
    destruct (decide (storage.Backend vol = backendName)) as [Hbk|Hbk].
    - (* the volume is on the backend *)
      destruct Hstate as [(Hgone & Hsgone & Hall)
                         |(b & bp & Hb & Hoff & Hne & Hdone & Hrest & Hbp & Hpoff)].
      + assert (Hnone : backends o1 !! storage.Backend vol = None).
        { unfold o1. simpl. rewrite Hbk, Hbs2.
          rewrite lookup_alter_eq, Hgone. reflexivity. }
        rewrite Hnone. split; [exact Hb2|]. split; [exact Hvol1|]. left.
        unfold o1. simpl. rewrite Hbs2, Hs2, <- Hbk in *.
        rewrite lookup_alter_eq, Hgone. simpl.
        split; [reflexivity|]. split; [exact Hsgone|].
        intros k Hk. right. apply Hall. exact Hk.
      + assert (Hsome : backends o1 !! storage.Backend vol
                        = Some (set_bVolumes (delete v (bVolumes b)) b)).
        { unfold o1. simpl. rewrite Hbk, Hbs2.
          rewrite lookup_alter_eq, Hb. reflexivity. }
        rewrite Hsome. simpl.
        rewrite (bool_decide_eq_true_2 _ Hoff). simpl.
        destruct (isEmpty (delete v (bVolumes b))) eqn:Hem.
        * apply isEmpty_spec in Hem.
          split; [exact Hb2|]. split; [exact Hvol1|]. left. simpl.
          rewrite Hbk, !lookup_delete_eq.
          split; [reflexivity|]. split; [reflexivity|].
          intros k [x Hk].
          destruct (decide (k = v)) as [->|Hkv]; [left; reflexivity|].
          destruct (in_dec string_dec k done) as [Hin|Hnin];
            [right; exact Hin|].
          exfalso.
          assert (Hd : delete v (bVolumes b) !! k = Some x).
          { rewrite lookup_delete_ne by congruence.
            rewrite (Hrest k Hnin). exact Hk. }
          rewrite Hem, lookup_empty in Hd. discriminate.
        * apply isEmpty_false in Hem.
          split; [exact Hb2|]. split; [exact Hvol1|]. right.
          exists (set_bVolumes (delete v (bVolumes b)) b), bp.
          unfold o1. simpl. rewrite Hbs2, Hs2, Hbk.
          split; [rewrite lookup_alter_eq, Hb; reflexivity|].
          split; [exact Hoff|]. split; [exact Hem|].
          split; [|split; [|split; [exact Hbp | exact Hpoff]]].
          -- intros k [<-|Hin]; [apply lookup_delete_eq|].
             destruct (decide (k = v)) as [->|Hkv]; [apply lookup_delete_eq|].
             rewrite lookup_delete_ne by congruence. apply Hdone. exact Hin.
          -- intros k Hnin.
             assert (Hkv : v <> k) by (intros ->; apply Hnin; left; reflexivity).
             rewrite lookup_delete_ne by exact Hkv.
             apply Hrest. intros Hin. apply Hnin. right. exact Hin.
    - (* the volume is on another backend *)
      assert (Hnot : held !! v = None).
      { destruct (held !! v) eqn:Ho; [|reflexivity].
        exfalso. apply Hbk. apply (Hlisted v vol); [apply Hsub; exact Hv|].
        rewrite Ho. eauto. }
      assert (Hkeep : forall o3,
        bootstrapped o3 = true ->
        (forall k x, volumes o3 !! k = Some x -> known !! k = Some x) ->
        backends o3 !! backendName = backends o !! backendName ->
        sBackends (storeClient o3) !! backendName
        = sBackends (storeClient o) !! backendName ->
        draining held known backendName (v :: done) (clearJournal t o3)).
      { intros o3 Hb3 Hv3 Hbs3 Hs3.
        split; [exact Hb3|]. split; [exact Hv3|]. simpl.
        rewrite Hbs3, Hs3.
        destruct Hstate as [(Hgone & Hsgone & Hall)
                           |(b & bp & Hb & Hoff & Hne & Hdone & Hrest & Hbp & Hpoff)].
        - left. split; [exact Hgone|]. split; [exact Hsgone|].
          intros k Hk. right. apply Hall. exact Hk.
        - right. exists b, bp. split; [exact Hb|]. split; [exact Hoff|].
          split; [exact Hne|]. split; [|split; [|split; [exact Hbp|exact Hpoff]]].
          + intros k [<-|Hin]; [|apply Hdone; exact Hin].
            destruct (in_dec string_dec v done) as [Hin|Hnin];
              [apply Hdone; exact Hin|].
            rewrite (Hrest v Hnin). exact Hnot.
          + intros k Hnin. apply Hrest. intros Hin. apply Hnin. right.
            exact Hin. }
      assert (Hb1 : backends o1 !! backendName = backends o !! backendName).
      { unfold o1. simpl. rewrite Hbs2. apply lookup_alter_ne. exact Hbk. }
      assert (Hs1 : sBackends (storeClient o1) !! backendName
                    = sBackends (storeClient o) !! backendName).
      { unfold o1. simpl. rewrite Hs2. reflexivity. }
      destruct (backends o1 !! storage.Backend vol) as [b1|] eqn:Hb1';
        [|apply Hkeep; [exact Hb2 | exact Hvol1 | exact Hb1 | exact Hs1]].
      destruct (bool_decide (bState b1 = Offline) && isEmpty (bVolumes b1));
        [|apply Hkeep; [exact Hb2 | exact Hvol1 | exact Hb1 | exact Hs1]].
      apply Hkeep; simpl.
      + exact Hb2.
      + exact Hvol1.
      + rewrite lookup_delete_ne by exact Hbk. exact Hb1.
      + rewrite lookup_delete_ne by exact Hbk. exact Hs1. }
  destruct (driver _ _) as [[]|] eqn:Hd; try discriminate;
    inversion Hdel; subst o'; clear Hdel;
    apply Hrm; try reflexivity; exact Hboot.
Qed.

Lemma deleteVolumes_draining held known backendName names : forall done o o',
  (forall k vol, known !! k = Some vol ->
                 storage.Name (storage.Config vol) = k) ->
  (forall k vol, known !! k = Some vol -> is_Some (held !! k) ->
                 storage.Backend vol = backendName) ->
  draining held known backendName done o ->
  deleteVolumes driver names o = Some o' ->
  draining held known backendName (rev names ++ done) o'.
Proof.
  induction names as [|v names IH]; intros done o o' Hname Hlisted Hinv Hrun;
    simpl in *.
  - inversion Hrun; subst. exact Hinv.
  - destruct (DeleteVolume driver v o) as [[[[]|] [e|]] o1] eqn:Hdel;
      try discriminate.
    rewrite <- app_assoc. simpl.
    apply (IH (v :: done) o1 o' Hname Hlisted); [|exact Hrun].
    exact (DeleteVolume_draining held known backendName done v o o1
             Hname Hlisted Hinv Hdel).
Qed.


(** Read off at the end of a run: gone from memory and from the store if
    every volume held has been deleted, there and Offline with the rest
    otherwise. *)
Lemma draining_outcome held known backendName names o :
  draining held known backendName (rev names ++ []) o ->
  ((forall k, is_Some (held !! k) -> In k names) ->
     backends o !! backendName = None
     /\ sBackends (storeClient o) !! backendName = None)
  /\ (forall k, is_Some (held !! k) -> ~ In k names ->
        exists b bp,
          backends o !! backendName = Some b
          /\ bState b = Offline
          /\ (forall j, In j names -> bVolumes b !! j = None)
          /\ (forall j, ~ In j names -> bVolumes b !! j = held !! j)
          /\ sBackends (storeClient o) !! backendName = Some bp
          /\ bpState bp = Offline).
Proof.
  rewrite app_nil_r. intros (_ & _ & Hstate).
  assert (Hrev : forall k, In k (rev names) <-> In k names)
    by (intros k; symmetry; apply in_rev).
  destruct Hstate as [(Hgone & Hsgone & Hall)
                     |(b & bp & Hb & Hoff & Hne & Hdone & Hrest & Hbp & Hpoff)].
  - split; [auto|]. intros k Hk Hnin. exfalso. apply Hnin, Hrev, Hall, Hk.
  - split.
    + intros Hall. exfalso. apply Hne. apply map_eq. intros k.
      rewrite lookup_empty.
      destruct (in_dec string_dec k (rev names)) as [Hin|Hnin];
        [apply Hdone; exact Hin|].
      rewrite (Hrest k Hnin).
      destruct (held !! k) eqn:Hk; [|reflexivity].
      exfalso. apply Hnin, Hrev, Hall. rewrite Hk. eauto.
    + intros k Hk Hnin. exists b, bp.
      split; [exact Hb|]. split; [exact Hoff|].
      split; [intros j Hj; apply Hdone, Hrev, Hj|].
      split; [intros j Hj; apply Hrest; rewrite Hrev; exact Hj|].
      split; assumption.
Qed.

(** C3.  [DeleteBackend] on a backend that still holds a volume takes it
    Offline instead of removing it: the operation succeeds, the backend
    stays in memory with its volumes, every [GetVolume] answers as before,
    the Offline state is in the persistent store, and an [AddVolume]
    through a class whose pools were all on that backend fails.  The
    backend leaves memory and the store exactly when its last volume is
    deleted.  For one deletion: it is gone from both exactly if the
    deleted volume was the only one it held.  For any run of successful
    deletions, in an orchestrator that files each volume under its name
    and whose volumes listed by the backend name that backend (sections
    3 and 8, invariant 1): once every volume the backend held has been
    deleted it is in neither memory nor the store, and as long as one of
    them has not been deleted it is in both, Offline, holding exactly
    the volumes not yet deleted. *)
Theorem DeleteBackend_offlines_backend_in_use
  (o : TridentOrchestrator) (backendName : string) (backend : Backend) :
  bootstrapped o = true ->
  backends o !! backendName = Some backend ->
  bVolumes backend <> ∅ ->
  exists o' offline,
    DeleteBackend backendName o = ((Some tt, None), o')
    /\ backends o' !! backendName = Some offline
    /\ bState offline = Offline
    /\ bVolumes offline = bVolumes backend
    /\ (forall v, fst (GetVolume v o') = fst (GetVolume v o))
    /\ (exists bp, sBackends (storeClient o') !! backendName = Some bp
                   /\ bpState bp = Offline)
    /\ (forall cfg sc,
          storageClasses o !! storage.StorageClass cfg = Some sc ->
          Forall (fun bp => fst bp = backendName) (pools sc) ->
          exists e, Add cfg o' = ((None, Some e), o'))
    /\ (forall v vol o'',
          volumes o' !! v = Some vol ->
          storage.Backend vol = backendName ->
          storage.Name (storage.Config vol) = v ->
          Delete v o' = ((Some tt, None), o'') ->
          (backends o'' !! backendName = None
           /\ sBackends (storeClient o'') !! backendName = None)
          <-> (forall k, is_Some (bVolumes backend !! k) -> k = v))
    /\ (forall volumeNames o'',
          (forall k vol, volumes o !! k = Some vol ->
                         storage.Name (storage.Config vol) = k) ->
          (forall k vol, volumes o !! k = Some vol ->
                         is_Some (bVolumes backend !! k) ->
                         storage.Backend vol = backendName) ->
          deleteVolumes driver volumeNames o' = Some o'' ->
          ((forall k, is_Some (bVolumes backend !! k) -> In k volumeNames) ->
             backends o'' !! backendName = None
             /\ sBackends (storeClient o'') !! backendName = None)
          /\ (forall k, is_Some (bVolumes backend !! k) ->
                ~ In k volumeNames ->
                exists left bp,
                  backends o'' !! backendName = Some left
                  /\ bState left = Offline
                  /\ (forall j, In j volumeNames -> bVolumes left !! j = None)
                  /\ (forall j, ~ In j volumeNames ->
                                bVolumes left !! j = bVolumes backend !! j)
                  /\ sBackends (storeClient o'') !! backendName = Some bp
                  /\ bpState bp = Offline)).
Proof.
  intros Hboot Hb Hvols.
  unfold DeleteBackend, guarded, succeeds, returns. rewrite Hboot, Hb.
  pose proof Hvols as Hsome.
  apply isEmpty_false in Hvols. rewrite Hvols.
  eexists _, _. split; [reflexivity|]. simpl.
  split; [apply lookup_insert_eq|]. split; [reflexivity|].
  split; [reflexivity|]. split; [|split; [|split; [|split]]].
  - intros v. unfold GetVolume, guarded. simpl. rewrite Hboot.
    destruct (volumes o !! v); reflexivity.
  - eexists. split; [apply lookup_insert_eq | reflexivity].
  - intros cfg sc Hsc Hall.
    unfold Add, AddVolume, guarded, fails. simpl. rewrite Hboot.
    rewrite lookup_fmap, Hsc. simpl.
    destruct (volumes o !! storage.Name cfg); [eauto|].
    destruct (strconv.ParseInt (storage.Size cfg)) as [size [e|]]; [eauto|].
    assert (Hnone : List.filter
                      (fun bp => negb (String.eqb (fst bp) backendName))
                      (pools sc) = []).
    { clear Hsc. revert Hall. generalize (pools sc) as l.
      induction l as [|bp l IH]; intros Hall; [reflexivity|].
      inversion Hall as [|? ? Hx Hl]; subst. simpl.
      rewrite String.eqb_refl. simpl. apply IH. exact Hl. }
    rewrite Hnone. simpl. eauto.
  - intros v vol o'' Hv Hbk Hname Hdel.
    unfold Delete, DeleteVolume, guarded, fails, succeeds, returns in Hdel.
    simpl in Hdel, Hv. rewrite Hboot, Hv in Hdel.
    unfold callDriver in Hdel. simpl in Hdel.
    assert (Hrm : forall o2,
      backends o2 = <[backendName :=
                        set_bState Offline
                          (set_bStorage
                             (set_pStorageClasses [] <$> bStorage backend)
                             backend)]> (backends o) ->
      let o3 := removeVolume vol o2 in
      (backends o3 !! backendName = None
       /\ sBackends (storeClient o3) !! backendName = None)
      <-> (forall k, is_Some (bVolumes backend !! k) -> k = v)).
    { intros o2 Hbs. unfold removeVolume. simpl. rewrite Hbs, Hbk, Hname.
      rewrite lookup_alter_eq, lookup_insert_eq. simpl.
      destruct (isEmpty (delete v (bVolumes backend))) eqn:Hem; simpl.
      - apply isEmpty_spec in Hem. rewrite !lookup_delete_eq. split.
        + intros _ k [x Hk]. destruct (decide (k = v)) as [|Hne]; [assumption|].
          assert (Hd : delete v (bVolumes backend) !! k = Some x)
            by (rewrite lookup_delete_ne; [exact Hk | congruence]).
          rewrite Hem, lookup_empty in Hd. discriminate.
        + auto.
      - apply isEmpty_false in Hem. rewrite lookup_alter_eq, lookup_insert_eq.
        simpl. split; [intros [Hcontra _]; discriminate|].
        intros Hall. exfalso. apply Hem. apply map_eq. intros k.
        rewrite lookup_empty.
        destruct (decide (k = v)) as [->|Hne]; [apply lookup_delete_eq|].
        rewrite lookup_delete_ne by congruence.
        destruct (bVolumes backend !! k) eqn:Hk; [|reflexivity].
        exfalso. apply Hne. apply Hall. eauto. }
    destruct (driver _ _) as [[]|] eqn:Hd; try discriminate;
      inversion Hdel; subst o''; clear Hdel; simpl;
      apply (Hrm (set_driverLog _ (journal _ _))); reflexivity.
  - intros volumeNames o'' Hname Hlisted Hrun.
    apply (draining_outcome (bVolumes backend) (volumes o)).
    refine (deleteVolumes_draining (bVolumes backend) (volumes o) backendName
              volumeNames [] _ o'' Hname Hlisted _ Hrun).
    split; [exact Hboot|]. split; [auto|]. right. simpl.
    eexists _, _. split; [apply lookup_insert_eq|].
    split; [reflexivity|]. split; [exact Hsome|].
    split; [intros k []|]. split; [reflexivity|].
    split; [apply lookup_insert_eq | reflexivity].
Qed.

(** [DeleteVolume] goes through when the driver destroys the volume or no
    longer knows it. *)
Lemma DeleteVolume_succeeds
  (o : TridentOrchestrator) (v : string) (vol : storage.VolumeExternal) :
  bootstrapped o = true ->
  volumes o !! v = Some vol ->
  (forall log c, driver log c = None \/ driver log c = Some DriverNotFound) ->
  exists o', Delete v o = ((Some tt, None), o').
Proof.
  intros Hboot Hv Hdrv.
  unfold Delete, DeleteVolume, guarded, succeeds, returns.
  rewrite Hboot, Hv. unfold callDriver. simpl.
  destruct (Hdrv (driverLog o)
              (Destroy (storage.Backend vol)
                 (storage.InternalName (storage.Config vol))))
    as [-> | ->]; eauto.
Qed.

(** A successful [DeleteVolume] leaves the orchestrator ready and takes
    the record of the volume, filed under its name, out of memory. *)
Lemma DeleteVolume_volumes
  (o o' : TridentOrchestrator) (v : string) (vol : storage.VolumeExternal) :
  volumes o !! v = Some vol ->
  Delete v o = ((Some tt, None), o') ->
  bootstrapped o' = true
  /\ volumes o' = delete (storage.Name (storage.Config vol)) (volumes o).
Proof.
  intros Hv Hdel.
  unfold Delete, DeleteVolume, guarded, fails, succeeds, returns in Hdel.
  destruct (bootstrapped o) eqn:Hboot; [|discriminate].
  rewrite Hv in Hdel. unfold callDriver in Hdel. simpl in Hdel.
  assert (Hrm : forall o2 t,
    bootstrapped o2 = true -> volumes o2 = volumes o ->
    bootstrapped (clearJournal t (removeVolume vol o2)) = true
    /\ volumes (clearJournal t (removeVolume vol o2))
       = delete (storage.Name (storage.Config vol)) (volumes o)).
  { intros o2 t Hb2 Hv2. unfold removeVolume. cbv zeta.
    set (o1 := set_storeClient _ _).
    assert (H1 : bootstrapped o1 = true /\
                 volumes o1
                 = delete (storage.Name (storage.Config vol)) (volumes o)).
    { unfold o1. simpl. rewrite Hv2. auto. }
    destruct (backends o1 !! storage.Backend vol) as [b|]; [|exact H1].
    destruct (bool_decide (bState b = Offline) && isEmpty (bVolumes b));
      exact H1. }
  destruct (driver _ _) as [[]|]; try discriminate;
    inversion Hdel; subst o'; clear Hdel; apply Hrm; auto.
Qed.

(** A run of deletions goes through when the volumes are there, each
    filed under its name and named once, and the drivers destroy them or
    no longer know them. *)
Lemma deleteVolumes_succeeds (volumeNames : list string) : forall o,
  bootstrapped o = true ->
  (forall k vol, volumes o !! k = Some vol ->
                 storage.Name (storage.Config vol) = k) ->
  NoDup volumeNames ->
  (forall v, In v volumeNames -> is_Some (volumes o !! v)) ->
  (forall log c, driver log c = None \/ driver log c = Some DriverNotFound) ->
  exists o', deleteVolumes driver volumeNames o = Some o'.
Proof.
  induction volumeNames as [|v rest IH]; intros o Hboot Hname Hnd Hin Hdrv;
    simpl; [eauto|].
  destruct (Hin v (or_introl eq_refl)) as [vol Hv].
  destruct (DeleteVolume_succeeds o v vol Hboot Hv Hdrv) as [o1 Hdel].
  unfold Delete in Hdel. rewrite Hdel.
  destruct (DeleteVolume_volumes o o1 v vol Hv Hdel) as [Hboot1 Hvols1].
  rewrite (Hname v vol Hv) in Hvols1.
  apply NoDup_cons in Hnd as [Hfresh Hnd].
  apply IH; [exact Hboot1 | | exact Hnd | | exact Hdrv].
  - intros k x. rewrite Hvols1. intros Hk.
    apply lookup_delete_Some in Hk as [_ Hk]. exact (Hname k x Hk).
  - intros k Hk. rewrite Hvols1.
    rewrite lookup_delete_ne; [apply Hin; right; exact Hk|].
    intros ->. apply Hfresh. apply list_elem_of_In. exact Hk.
Qed.

(** *** Bootstrap and the residual transactions *)

Let Boot := Bootstrap GetInternalVolumeName driver.

Lemma fold_left_invariant {A B} (f : A -> B -> A) (P : A -> Prop)
  (Q : B -> Prop) (l : list B) : forall a,
  Forall Q l -> (forall a x, Q x -> P a -> P (f a x)) -> P a ->
  P (fold_left f l a).
Proof.
  induction l as [|x l IH]; intros a Hall Hstep Ha; simpl; [exact Ha|].
  inversion Hall; subst. apply IH; auto.
Qed.

Lemma scanBackends_state c bs bn :
  bState <$> (fst (scanBackends c bs) !! bn) = bState <$> (bs !! bn).
Proof.
  unfold scanBackends. simpl. rewrite map_lookup_imap.
  destruct (bs !! bn) as [b|]; [|reflexivity]. simpl.
  unfold CheckAndAddBackend. destruct (decide (bState b = Online)); reflexivity.
Qed.

Lemma restored_backends client name :
  restored client name (bootstrapBackends (NewTridentOrchestrator client)).
Proof.
  repeat split; try reflexivity.
  intros bn. simpl. rewrite lookup_fmap.
  destruct (sBackends client !! bn); reflexivity.
Qed.

Lemma restored_classes client name o :
  restored client name o -> restored client name (bootstrapStorageClasses o).
Proof.
  intros Hr. unfold bootstrapStorageClasses.
  apply (fold_left_invariant _ (restored client name) (fun _ => True));
    [apply Forall_forall; auto | | exact Hr].
  intros a kv _ (Hst & Hlog & Hcl & Hvol). unfold restoreClass.
  pose proof (scanBackends_state (snd kv) (backends a)) as Hs.
  destruct (scanBackends (snd kv) (backends a)) as [bs matched].
  simpl in Hs. repeat split; simpl; try assumption.
  intros bn. rewrite Hs. apply Hst.
Qed.





















(** [Bootstrap] completes whenever every persisted volume names a
    persisted backend; that is the one inconsistency it stops at. *)
Lemma Bootstrap_completes (client : Store) :
  (forall k v, sVolumes client !! k = Some v ->
               is_Some (sBackends client !! storage.Backend v)) ->
  exists o', Boot (NewTridentOrchestrator client) = (None, o').
Proof.
  intros Hcons. unfold Boot, Bootstrap. simpl.
  set (o0 := bootstrapStorageClasses
               (bootstrapBackends (NewTridentOrchestrator client))).
  assert (Hkeys : forall bn, is_Some (backends o0 !! bn)
                             <-> is_Some (sBackends client !! bn)).
  { intros bn.
    destruct (restored_classes client bn _ (restored_backends client bn))
      as (Hst & _). fold o0 in Hst. specialize (Hst bn).
    destruct (backends o0 !! bn), (sBackends client !! bn);
      simpl in Hst; try discriminate; split; intros [? ?]; eauto;
      discriminate. }
  assert (Hcl : storeClient o0 = client).
  { destruct (restored_classes client "" _ (restored_backends client ""))
      as (_ & _ & Hcl & _). exact Hcl. }
  assert (Hinv :
    let r := bootstrapVolumes o0 in
    fst r = None
    /\ forall bn, is_Some (backends (snd r) !! bn)
                  <-> is_Some (sBackends client !! bn)).
  { unfold bootstrapVolumes.
    apply (fold_left_invariant _
             (fun acc => fst acc = None
                         /\ forall bn, is_Some (backends (snd acc) !! bn)
                                       <-> is_Some (sBackends client !! bn))
             (fun kv => is_Some (sBackends client !! storage.Backend (snd kv)))).
    - apply Forall_forall. intros [k v] Hin.
      apply elem_of_map_to_list in Hin. rewrite Hcl in Hin. simpl. eauto.
    - intros [e a] [k v] Hv [He Ha]. simpl in *. subst e.
      apply Ha in Hv. destruct Hv as [b Hb]. rewrite Hb. simpl.
      split; [reflexivity|]. intros bn. rewrite <- Ha.
      destruct (decide (storage.Backend v = bn)) as [<-|Hne].
      + rewrite lookup_alter_eq, Hb. simpl. split; eauto.
      + rewrite lookup_alter_ne by exact Hne. reflexivity.
    - split; [reflexivity | exact Hkeys]. }
  destruct (bootstrapVolumes o0) as [e o1]. simpl in Hinv.
  destruct Hinv as [-> _]. eauto.
Qed.

End Engine_facts.

(** *** The test-suite, replayed *)
Import core_fixture.

(** Every row of the table of [TestAddStorageClassVolumes] passes: the
    pools recorded for each class are the expected ones. *)
Lemma scTests_pass : validate scTests (running testBackends) = true.
Proof. vm_compute. reflexivity. Qed.

(** The wording of the data-model section, taken literally, fails the
    rows in which a class names only additional pools. *)
Lemma scTests_worded_rows :
  map (fun t =>
         samePairs
           (concat
              (map (fun kb =>
                      map (fun kp => (fst kb, fst kp))
                        (List.filter
                           (fun kp => worded_match (testConfig t) (fst kb)
                                        (fst kp) (snd kp))
                           (map_to_list (bStorage (snd kb)))))
                 (map_to_list testBackends)))
           (expected t))
      scTests
  = [true; true; true; true; false; true; true; true; false; true; true].
Proof. vm_compute. reflexivity. Qed.

Lemma AddStorageClass_records_matches_witness :
  exists ext o',
    AddStorageClass updateBackendTest
      (running {[ "updateBackend" := updateBackend ]})
    = ((Some ext, None), o')
    /\ In ("updateBackend", "primary") (StoragePools ext).
Proof.
  assert (Hb : backends (running {[ "updateBackend" := updateBackend ]})
               !! "updateBackend" = Some updateBackend)
    by (vm_compute; reflexivity).
  assert (Hp : bStorage updateBackend !! "primary" = Some primary)
    by (vm_compute; reflexivity).
  destruct (AddStorageClass_records_matches updateBackendTest
              (running {[ "updateBackend" := updateBackend ]})
              "updateBackend" updateBackend "primary" primary
              eq_refl Hb Hp)
    as (ext & o' & Hrun & Hiff & _).
  exists ext, o'. split; [exact Hrun|].
  apply Hiff. split; [reflexivity|].
  apply Matches_spec. vm_compute. reflexivity.
Defined.

(** C1 as stated fails twice on the set-up of the test-suite.  The class
    [additionalPoolsNoMatch] names only additional pools: the two filters
    do not apply, so the worded predicate accepts pool [fast-small] of
    backend [fast-a], but the class is recorded with no pool at all.  And
    after [DeleteBackend] has taken [updateBackend] offline, the new class
    [updateBackendTest2] is not recorded for its pool [primary] although
    the predicate holds. *)
Lemma AddStorageClass_not_the_worded_predicate :
  (In {| testConfig := additionalPoolsNoMatch; expected := [] |} scTests
   /\ exists b p,
        backends (running testBackends) !! "fast-a" = Some b
        /\ bState b = Online
        /\ bStorage b !! FastSmall = Some p
        /\ worded_match additionalPoolsNoMatch "fast-a" FastSmall p = true
        /\ fst (AddStorageClass additionalPoolsNoMatch (running testBackends))
           = (Some {| extConfig := additionalPoolsNoMatch;
                      StoragePools := [] |}, None))
  /\ (exists b p,
        backends offlined !! "updateBackend" = Some b
        /\ bState b = Offline
        /\ bStorage b !! "primary" = Some p
        /\ worded_match updateBackendTest2 "updateBackend" "primary" p = true
        /\ fst (AddStorageClass updateBackendTest2 offlined)
           = (Some {| extConfig := updateBackendTest2;
                      StoragePools := [] |}, None)).
Proof.
  split; [split|].
  - simpl. do 8 right. left. reflexivity.
  - eexists _, _. split; [vm_compute; reflexivity|].
    split; [reflexivity|]. split; [vm_compute; reflexivity|].
    split; vm_compute; reflexivity.
  - eexists _, _. split; [vm_compute; reflexivity|].
    split; [reflexivity|]. split; [vm_compute; reflexivity|].
    split; vm_compute; reflexivity.
Qed.



(** The same run, spelled out: one driver call in all. *)
Example Bootstrap_recovery_log :
  driverLog
    (snd (Bootstrap fakeInternalName fakeDriver
            (NewTridentOrchestrator recoveryStore)))
  = [Destroy "addRecoveryBackend" "addRecoveryVolumeTxOnly-internal"].
Proof. vm_compute. reflexivity. Qed.

Lemma DeleteBackend_offlines_backend_in_use_witness :
  exists o' offline,
    DeleteBackend "updateBackend" withTwoVolumes = ((Some tt, None), o')
    /\ backends o' !! "updateBackend" = Some offline
    /\ bState offline = Offline
    /\ (exists bp, sBackends (storeClient o') !! "updateBackend" = Some bp
                   /\ bpState bp = Offline)
    /\ (exists o1 left bp,
          deleteVolumes fakeDriver ["updateVolume"] o' = Some o1
          /\ backends o1 !! "updateBackend" = Some left
          /\ bState left = Offline
          /\ bVolumes left !! "updateVolume" = None
          /\ is_Some (bVolumes left !! "secondVolume")
          /\ sBackends (storeClient o1) !! "updateBackend" = Some bp
          /\ bpState bp = Offline)
    /\ (exists o2,
          deleteVolumes fakeDriver ["updateVolume"; "secondVolume"] o'
          = Some o2
          /\ backends o2 !! "updateBackend" = None
          /\ sBackends (storeClient o2) !! "updateBackend" = None).
Proof.
  set (held := default updateBackend
                 (backends withTwoVolumes !! "updateBackend")).
  assert (Hb : backends withTwoVolumes !! "updateBackend" = Some held)
    by (vm_compute; reflexivity).
  assert (Hv : bVolumes held <> ∅).
  { apply isEmpty_false. vm_compute. reflexivity. }
  assert (Hkeys : forall k, is_Some (bVolumes held !! k) ->
                            k = "updateVolume" \/ k = "secondVolume").
  { intros k [x Hk].
    assert (Hm : map_Forall
                   (fun k _ => k = "updateVolume" \/ k = "secondVolume")
                   (bVolumes held))
      by (apply (bool_decide_unpack _); vm_compute; exact I).
    exact (Hm k x Hk). }
  assert (Hname : forall k vol,
            volumes withTwoVolumes !! k = Some vol ->
            storage.Name (storage.Config vol) = k).
  { assert (Hm : map_Forall
                   (fun k vol => storage.Name (storage.Config vol) = k)
                   (volumes withTwoVolumes))
      by (apply (bool_decide_unpack _); vm_compute; exact I).
    exact Hm. }
  assert (Hlisted : forall k vol,
            volumes withTwoVolumes !! k = Some vol ->
            is_Some (bVolumes held !! k) ->
            storage.Backend vol = "updateBackend").
  { assert (Hm : map_Forall
                   (fun _ vol => storage.Backend vol = "updateBackend")
                   (volumes withTwoVolumes))
      by (apply (bool_decide_unpack _); vm_compute; exact I).
    intros k vol Hk _. exact (Hm k vol Hk). }
  destruct (DeleteBackend_offlines_backend_in_use fakeInternalName fakeDriver
              withTwoVolumes "updateBackend" held eq_refl Hb Hv)
    as (o' & offline & Hrun & Hin & Hst & _ & _ & Hstore & _ & _ & Hruns).
  exists o', offline.
  split; [exact Hrun|]. split; [exact Hin|]. split; [exact Hst|].
  split; [exact Hstore|].
  assert (Ho' : o' = snd (DeleteBackend "updateBackend" withTwoVolumes))
    by (rewrite Hrun; reflexivity).
  split.
  - destruct (deleteVolumes fakeDriver ["updateVolume"] o') as [o1|] eqn:Hd;
      [|rewrite Ho' in Hd; vm_compute in Hd; discriminate].
    destruct (Hruns ["updateVolume"] o1 Hname Hlisted Hd) as [_ Hleft].
    destruct (Hleft "secondVolume") as (left & bp & H1 & H2 & H3 & H4 & H5 & H6).
    { vm_compute. eauto. }
    { intros [Heq|[]]. discriminate. }
    exists o1, left, bp. split; [reflexivity|]. split; [exact H1|].
    split; [exact H2|]. split; [apply H3; left; reflexivity|].
    split; [|split; [exact H5 | exact H6]].
    rewrite H4 by (intros [Heq|[]]; discriminate). vm_compute. eauto.
  - destruct (deleteVolumes fakeDriver ["updateVolume"; "secondVolume"] o')
      as [o2|] eqn:Hd;
      [|rewrite Ho' in Hd; vm_compute in Hd; discriminate].
    destruct (Hruns ["updateVolume"; "secondVolume"] o2 Hname Hlisted Hd)
      as [Hgone _].
    exists o2. split; [reflexivity|]. apply Hgone.
    intros k Hk. destruct (Hkeys k Hk) as [-> | ->]; simpl; auto.
Defined.

(** [TestBackendUpdateAndDelete], the end: with the backend offline, a
    new volume for its class is refused, the old volume is still there,
    and deleting it removes the backend from memory and from the store. *)
Example offline_backend_scenario :
  fst (fst (GetVolume "updateVolume" offlined)) <> None
  /\ fst (fst (AddVolume fakeInternalName fakeDriver
                 (generateVolumeConfig "offlineVolume" 50 "updateBackendTest" File)
                 offlined)) = None
  /\ fst (DeleteVolume fakeDriver "updateVolume" offlined) = (Some tt, None)
  /\ backends (snd (DeleteVolume fakeDriver "updateVolume" offlined))
     !! "updateBackend" = None
  /\ sBackends (storeClient (snd (DeleteVolume fakeDriver "updateVolume" offlined)))
     !! "updateBackend" = None.
Proof. repeat split; vm_compute; congruence. Qed.

End core_facts.

(** ** Decimal text of integers: [FormatInt] against [ParseInt] *)
Section strconv_round_trip.
Import strconv.

Lemma of_uint_acc_ge d : forall acc, (acc <= Pos.of_uint_acc d acc)%positive.
Proof.
  induction d; intros acc; simpl; try lia;
    match goal with |- (_ <= Pos.of_uint_acc _ ?a)%positive =>
      specialize (IHd a); lia end.
Qed.

Lemma digits_of_uint_acc d : forall acc,
  Z.pos (Pos.of_uint_acc d acc) <= maxUint64 ->
  digits (NilEmpty.string_of_uint d) (Z.pos acc)
  = Some (Z.pos (Pos.of_uint_acc d acc), false).
Proof.
  induction d; intros acc Hmax; simpl in *; [reflexivity| ..];
    match type of Hmax with Z.pos (Pos.of_uint_acc _ ?a) <= _ =>
      pose proof (of_uint_acc_ge d a) as Hge;
      specialize (IHd a Hmax)
    end.
  all: unfold digit_of; simpl.
  all: repeat match goal with |- context [Z.of_nat (nat_of_ascii ?c)] =>
         let v := eval vm_compute in (Z.of_nat (nat_of_ascii c)) in
         change (Z.of_nat (nat_of_ascii c)) with v end.
  all: match goal with |- context [maxUint64 <? ?e] =>
         match type of IHd with digits _ (Z.pos ?a) = _ =>
           replace e with (Z.pos a) by lia;
           destruct (Z.ltb_spec maxUint64 (Z.pos a));
             [unfold maxUint64 in *; lia|]
         end end.
  all: exact IHd.
Qed.

Lemma digits_of_uint d :
  Z.of_N (Pos.of_uint d) <= maxUint64 ->
  digits (NilEmpty.string_of_uint d) 0 = Some (Z.of_N (Pos.of_uint d), false).
Proof.
  induction d; intros Hmax; simpl in *; [reflexivity|..];
    unfold digit_of; simpl;
    first [ apply IHd, Hmax | apply digits_of_uint_acc, Hmax ].
Qed.

Lemma ParseUint_to_uint p :
  Z.pos p <= maxUint64 ->
  ParseUint (NilEmpty.string_of_uint (Pos.to_uint p)) = (Z.pos p, None).
Proof.
  intros Hmax.
  pose proof (DecimalPos.Unsigned.of_to p) as Hof.
  pose proof (digits_of_uint (Pos.to_uint p)) as Hd.
  rewrite Hof in Hd. specialize (Hd Hmax).
  unfold ParseUint.
  destruct (NilEmpty.string_of_uint (Pos.to_uint p)) eqn:Hs.
  - simpl in Hd. discriminate.
  - rewrite Hd. reflexivity.
Qed.

Lemma string_of_uint_head d c s :
  NilEmpty.string_of_uint d = String c s ->
  Ascii.eqb c "+" = false /\ Ascii.eqb c "-" = false.
Proof. destruct d; simpl; intros Heq; inversion Heq; subst; split; reflexivity. Qed.

Lemma string_of_uint_nonnil p :
  NilZero.string_of_uint (Pos.to_uint p)
  = NilEmpty.string_of_uint (Pos.to_uint p).
Proof.
  pose proof (DecimalPos.Unsigned.to_uint_nonnil p).
  destruct (Pos.to_uint p); [congruence|reflexivity..].
Qed.

(** What [FormatInt] prints for an [int64], [ParseInt] reads back. *)
Lemma ParseInt_FormatInt n :
  minInt64 <= n <= maxInt64 -> ParseInt (FormatInt n) = (n, None).
Proof.
  intros Hn. unfold FormatInt. destruct n as [|p|p]; [reflexivity|..]; simpl;
    rewrite string_of_uint_nonnil.
  - pose proof (ParseUint_to_uint p) as Hu.
    destruct (NilEmpty.string_of_uint (Pos.to_uint p)) as [|c s] eqn:Hs.
    + unfold maxInt64, maxUint64 in *. simpl in Hu.
      specialize (Hu ltac:(lia)). discriminate.
    + destruct (string_of_uint_head _ _ _ Hs) as [H1 H2].
      unfold ParseInt. rewrite H1, H2.
      rewrite Hu by (unfold maxInt64, maxUint64 in *; lia).
      simpl. destruct (Z.leb_spec (2^63) (Z.pos p));
        [unfold maxInt64 in *; lia|]. reflexivity.
  - unfold ParseInt.
    change (Ascii.eqb "-" "+") with false.
    change (Ascii.eqb "-" "-") with true.
    cbv iota beta.
    rewrite ParseUint_to_uint by (unfold minInt64, maxUint64 in *; lia).
    simpl. destruct (Z.ltb_spec (2^63) (Z.pos p));
      [unfold minInt64 in *; lia|]. reflexivity.
Qed.

Lemma to_int_proper n :
  Z.to_int n <> Decimal.Pos Decimal.Nil /\ Z.to_int n <> Decimal.Neg Decimal.Nil.
Proof.
  destruct n as [|p|p]; simpl; split; try discriminate;
    intros Heq; inversion Heq as [Hnil];
    exact (DecimalPos.Unsigned.to_uint_nonnil p Hnil).
Qed.

Lemma int_of_FormatInt n :
  NilZero.int_of_string (FormatInt n) = Some (Z.to_int n).
Proof.
  unfold FormatInt. destruct (to_int_proper n) as [H1 H2].
  apply NilZero.isi; assumption.
Qed.

(** Different integers print differently. *)
Lemma FormatInt_inj a b : FormatInt a = FormatInt b -> a = b.
Proof.
  intros Heq.
  assert (Hi : Some (Z.to_int a) = Some (Z.to_int b))
    by (rewrite <- !int_of_FormatInt, Heq; reflexivity).
  inversion Hi as [Hab].
  rewrite <- (DecimalZ.of_to a), <- (DecimalZ.of_to b), Hab. reflexivity.
Qed.

(** [FormatInt] and [ParseInt] are inverse on [int64]: what [FormatInt]
    prints for an [int64], [ParseInt] reads back as that number and
    without error; and no other integer prints the same text. *)
Theorem strconv_ParseInt_reads_FormatInt (n : Z) :
  minInt64 <= n <= maxInt64 ->
  ParseInt (FormatInt n) = (n, None)
  /\ forall m, FormatInt m = FormatInt n -> m = n.
Proof.
  intros Hn. split; [exact (ParseInt_FormatInt n Hn)|].
  intros m Heq. exact (FormatInt_inj m n Heq).
Qed.

Lemma strconv_ParseInt_reads_FormatInt_witness :
  ParseInt (FormatInt (-1073741824)) = (-1073741824, None).
Proof.
  apply (strconv_ParseInt_reads_FormatInt (-1073741824)).
  unfold minInt64, maxInt64. lia.
Defined.

End strconv_round_trip.

(** ** The CSI controller: the handlers beside [CreateVolume] *)
Section csicontroller_facts.
Import tridentconfig coreerr csi csicontroller.

(** The keys [stashIscsiTargetPortals] writes. *)
Lemma portal_key_inj a b :
  "p" +:+ strconv.FormatInt a = "p" +:+ strconv.FormatInt b -> a = b.
Proof.
  simpl. intros Heq. inversion Heq as [Hab]. exact (FormatInt_inj _ _ Hab).
Qed.

Lemma FormatInt_not (s : string) n :
  NilZero.int_of_string s = None -> strconv.FormatInt n <> s.
Proof.
  intros Hs Heq. pose proof (int_of_FormatInt n) as Hi.
  rewrite Heq, Hs in Hi. discriminate.
Qed.

Lemma stashPortals_other portals : forall i (m : gmap string string) k,
  (forall j, (j < length portals)%nat ->
             k <> "p" +:+ strconv.FormatInt (Z.of_nat (i + j) + 2)) ->
  stashPortals i portals m !! k = m !! k.
Proof.
  induction portals as [|p rest IH]; intros i m k Hk; simpl; [reflexivity|].
  rewrite IH.
  - apply lookup_insert_ne. intros Heq.
    apply (Hk 0%nat); [simpl; lia|]. rewrite Nat.add_0_r. symmetry. exact Heq.
  - intros j Hj. replace (S i + j)%nat with (i + S j)%nat by lia.
    apply Hk. simpl. lia.
Qed.

Lemma stashPortals_at portals : forall i (m : gmap string string) j,
  (j < length portals)%nat ->
  stashPortals i portals m
    !! ("p" +:+ strconv.FormatInt (Z.of_nat (i + j) + 2))
  = portals !! j.
Proof.
  induction portals as [|p rest IH]; intros i m j Hj; simpl in Hj; [lia|].
  destruct j as [|j]; simpl.
  - rewrite stashPortals_other.
    + rewrite Nat.add_0_r. apply lookup_insert_eq.
    + intros j Hj' Heq. apply portal_key_inj in Heq. lia.
  - replace (i + S j)%nat with (S i + j)%nat by lia.
    apply IH. lia.
Qed.

(** [stashIscsiTargetPortals] files the target portal and the further
    portals under [p1], [p2], ... in their order, with their number
    under [iscsiTargetPortalCount]: a reader that takes the count [n]
    and then looks up [p1] to [pn] gets back the portals, and every other
    key of the map is as it was. *)
Theorem csi_stashIscsiTargetPortals_lookup
  (publishInfo : gmap string string) (accessInfo : utils.VolumeAccessInfo) :
  let all := utils.IscsiTargetPortal accessInfo
             :: utils.IscsiPortals accessInfo in
  let stashed := stashIscsiTargetPortals publishInfo accessInfo in
  stashed !! "iscsiTargetPortalCount"
  = Some (strconv.FormatInt (Z.of_nat (length all)))
  /\ (forall j, (j < length all)%nat ->
        stashed !! ("p" +:+ strconv.FormatInt (Z.of_nat j + 1)) = all !! j)
  /\ (forall k, k <> "iscsiTargetPortalCount" ->
        (forall j, (j < length all)%nat ->
                   k <> "p" +:+ strconv.FormatInt (Z.of_nat j + 1)) ->
        stashed !! k = publishInfo !! k).
Proof.
  intros all stashed. unfold stashed, stashIscsiTargetPortals.
  set (portals := utils.IscsiPortals accessInfo).
  assert (Hkey : forall j : nat,
            "p" +:+ strconv.FormatInt (Z.of_nat (0 + j) + 2)
            = "p" +:+ strconv.FormatInt (Z.of_nat (S j) + 1)).
  { intros j. do 2 f_equal. lia. }
  split; [|split].
  - rewrite stashPortals_other by (intros j _; discriminate).
    rewrite lookup_insert_ne by discriminate.
    rewrite lookup_insert_eq. do 2 f_equal.
    unfold all. simpl length. fold portals. lia.
  - intros j Hj. unfold all in *. simpl in Hj. fold portals in Hj.
    destruct j as [|j].
    + rewrite stashPortals_other.
      * apply lookup_insert_eq.
      * intros j _ Heq.
        change "p1" with ("p" +:+ strconv.FormatInt 1) in Heq.
        apply portal_key_inj in Heq. lia.
    + rewrite <- Hkey. simpl. fold portals.
      apply (stashPortals_at portals 0%nat _ j). lia.
  - intros k Hcount Hk.
    rewrite stashPortals_other.
    + rewrite lookup_insert_ne.
      * apply lookup_insert_ne. congruence.
      * intros Heq. apply (Hk 0%nat); [simpl; lia|]. symmetry. exact Heq.
    + intros j Hj. rewrite Hkey. apply Hk. unfold all. simpl. fold portals. lia.
Qed.

Lemma stash_frame (m : gmap string string) (a : utils.VolumeAccessInfo) k :
  k <> "iscsiTargetPortalCount" ->
  (forall n : Z, k <> "p" +:+ strconv.FormatInt n) ->
  stashIscsiTargetPortals m a !! k = m !! k.
Proof.
  intros Hcount Hk. unfold stashIscsiTargetPortals.
  rewrite stashPortals_other by (intros j _; apply Hk).
  rewrite lookup_insert_ne.
  - apply lookup_insert_ne. congruence.
  - intros Heq. apply (Hk 1). symmetry. exact Heq.
Qed.

Lemma not_portal_key (rest : string) n :
  NilZero.int_of_string rest = None ->
  String "p" rest <> "p" +:+ strconv.FormatInt n.
Proof.
  intros Hrest Heq. simpl in Heq. inversion Heq as [Hr].
  symmetry in Hr. revert Hr. apply FormatInt_not. exact Hrest.
Qed.

(** X1.  The publish context by protocol.  It always carries the protocol of
    the volume under [protocol].  For a File volume it is exactly the
    protocol, the NFS server and the NFS path; for a Block volume it carries
    the iSCSI target with every portal, the CHAP credentials and what
    [PublishVolume] decided (file system, CHAP, shared target), and no NFS
    key; for any other protocol it is the protocol alone. *)
Theorem csi_publishContext_by_protocol
  (volume : storagefull.VolumeExternal) (info : utils.VolumePublishInfo) :
  let config := storagefull.Config volume in
  let access := storagefull.AccessInfo config in
  let ctx := publishContext volume info in
  ctx !! "protocol" = Some (Protocol_string (storagefull.Protocol config))
  /\ match storagefull.Protocol config with
     | File =>
         ctx = <["nfsPath" := utils.NfsPath access]>
                 (<["nfsServerIp" := utils.NfsServerIP access]>
                    {[ "protocol" := "file" ]})
     | Block =>
         ctx !! "iscsiTargetPortalCount"
         = Some (strconv.FormatInt
                   (1 + Z.of_nat (length (utils.IscsiPortals access))))
         /\ ctx !! "p1" = Some (utils.IscsiTargetPortal access)
         /\ (forall j, (j < length (utils.IscsiPortals access))%nat ->
               ctx !! ("p" +:+ strconv.FormatInt (Z.of_nat j + 2))
               = utils.IscsiPortals access !! j)
         /\ ctx !! "iscsiTargetIqn" = Some (utils.IscsiTargetIQN access)
         /\ ctx !! "iscsiUsername" = Some (utils.IscsiUsername access)
         /\ ctx !! "iscsiInitiatorSecret"
            = Some (utils.IscsiInitiatorSecret access)
         /\ ctx !! "iscsiTargetSecret"
            = Some (utils.IscsiTargetSecret access)
         /\ ctx !! "filesystemType" = Some (utils.FilesystemType info)
         /\ ctx !! "useCHAP"
            = Some (gostrings.FormatBool (utils.UseCHAP info))
         /\ ctx !! "sharedTarget"
            = Some (gostrings.FormatBool (utils.SharedTarget info))
         /\ ctx !! "nfsServerIp" = None /\ ctx !! "nfsPath" = None
     | ProtocolAny => ctx = {[ "protocol" := "" ]}
     end.
Proof.
  intros config access ctx. unfold ctx, publishContext.
  fold config. fold access.
  destruct (storagefull.Protocol config) eqn:Hp; simpl.
  - split; [|reflexivity].
    rewrite !lookup_insert_ne by discriminate. apply lookup_singleton_eq.
  - assert (Hother : forall k v,
              k <> "iscsiTargetPortalCount" ->
              (forall n : Z, k <> "p" +:+ strconv.FormatInt n) ->
              stashIscsiTargetPortals {[ "protocol" := v ]} access !! k
              = ({[ "protocol" := v ]} : gmap string string) !! k).
    { intros k v H1 H2. apply stash_frame; assumption. }
    repeat split.
    + rewrite !lookup_insert_ne by discriminate.
      rewrite Hother; [apply lookup_singleton_eq|discriminate|].
      intros n. apply not_portal_key. reflexivity.
    + rewrite !lookup_insert_ne by discriminate.
      unfold stashIscsiTargetPortals.
      rewrite stashPortals_other by (intros j _; discriminate).
      rewrite lookup_insert_ne by discriminate. apply lookup_insert_eq.
    + rewrite !lookup_insert_ne by discriminate.
      unfold stashIscsiTargetPortals.
      rewrite stashPortals_other.
      * apply lookup_insert_eq.
      * intros j _ Heq.
        change "p1" with ("p" +:+ strconv.FormatInt 1) in Heq.
        apply portal_key_inj in Heq. lia.
    + intros j Hj.
      rewrite !lookup_insert_ne
        by (intros Heq; symmetry in Heq; revert Heq;
            first [ discriminate | apply not_portal_key; reflexivity ]).
      unfold stashIscsiTargetPortals.
      apply (stashPortals_at _ 0%nat _ j Hj).
    + rewrite !lookup_insert_ne by discriminate. apply lookup_insert_eq.
    + rewrite !lookup_insert_ne by discriminate. apply lookup_insert_eq.
    + rewrite !lookup_insert_ne by discriminate. apply lookup_insert_eq.
    + rewrite !lookup_insert_ne by discriminate. apply lookup_insert_eq.
    + rewrite !lookup_insert_ne by discriminate. apply lookup_insert_eq.
    + rewrite !lookup_insert_ne by discriminate. apply lookup_insert_eq.
    + apply lookup_insert_eq.
    + rewrite !lookup_insert_ne by discriminate.
      rewrite Hother; [reflexivity|discriminate|discriminate].
    + rewrite !lookup_insert_ne by discriminate.
      rewrite Hother; [reflexivity|discriminate|discriminate].
  - split; [apply lookup_singleton_eq|reflexivity].
Qed.

Section WithOrchestrator.
Context {S : Type}.
Variable orchDeleteVolume : string -> S -> option OrchError * S.
Variable orchGetVolume :
  string -> S -> (option storagefull.VolumeExternal * option OrchError) * S.
Variable orchGetNode :
  string -> S -> (option utils.Node * option OrchError) * S.
Variable orchPublishVolume :
  string -> utils.VolumePublishInfo -> S ->
  (utils.VolumePublishInfo * option OrchError) * S.
Variable orchListVolumes :
  S -> (list (option storagefull.VolumeExternal) * option OrchError) * S.

Lemma hbind_run {A B} (m : H A) (k : A -> H B) (w : Session S) :
  csicontroller.bind m k w = k (fst (m w)) (snd (m w)).
Proof. unfold csicontroller.bind. destruct (m w); reflexivity. Qed.

Lemma hinvoke_run {A} (c : csicontroller.Call) (f : S -> A * S)
  (w : Session S) :
  csicontroller.invoke c f w =
  (fst (f (state w)),
   {| state := snd (f (state w)); log := log w ++ [c] |}).
Proof. unfold csicontroller.invoke. destruct (f (state w)); reflexivity. Qed.

Lemma getCSIError_codes (e : OrchError) :
  code (getCSIErrorForOrchestratorError e) = NotFound
  <-> IsNotReadyError e = false /\ IsBootstrapError e = false
      /\ IsNotFoundError e = true.
Proof.
  unfold getCSIErrorForOrchestratorError.
  destruct (IsNotReadyError e), (IsBootstrapError e), (IsNotFoundError e);
    simpl; split; intros Hc; try discriminate; try tauto;
    destruct Hc as (? & ? & ?); discriminate.
Qed.

(** X2.  [DeleteVolume] is idempotent towards the caller.  It succeeds
    exactly when the request names a volume and the orchestrator either
    deleted it or did not know it; it never answers NotFound; and the
    orchestrator is asked once, to delete the named volume, or not at all
    when the request names none. *)
Theorem csi_DeleteVolume_tolerates_missing_volume
  (req : option DeleteVolumeRequest) (w : Session S) :
  let id := delGetVolumeId req in
  let r := DeleteVolume orchDeleteVolume req w in
  (fst r = Ok tt <->
     id <> ""
     /\ match fst (orchDeleteVolume id (state w)) with
        | None => True
        | Some e => IsNotFoundError e = true
        end)
  /\ (forall st, fst r = Err st -> code st <> NotFound)
  /\ fst r <> Panic
  /\ log (snd r)
     = log w ++ (if decide (id = "") then [] else [CallDeleteVolume id]).
Proof.
  intros id r. unfold r, DeleteVolume. fold id.
  destruct (decide (id = "")) as [Hid|Hid].
  - simpl. rewrite app_nil_r. repeat split; try discriminate.
    + intros [Hne _]. contradiction.
    + intros st Hst. inversion Hst; subst. discriminate.
  - rewrite hbind_run, hinvoke_run. simpl.
    destruct (orchDeleteVolume id (state w)) as [[e|] s']; simpl.
    + destruct (IsNotFoundError e) eqn:Hnf; simpl.
      * repeat split; auto; discriminate.
      * repeat split; try discriminate.
        -- intros [_ Hc]. discriminate.
        -- intros st Hst. inversion Hst; subst.
           rewrite getCSIError_codes. intros (_ & _ & Hc). congruence.
    + repeat split; auto; discriminate.
Qed.

(** [ControllerPublishVolume] checks its arguments before it turns to
    the orchestrator: it answers InvalidArgument exactly when the volume
    id, the node id or the capability is missing (a nil request
    included), and then the orchestrator has not been called. *)
Lemma ControllerPublishVolume_checks_arguments
  (req : option ControllerPublishVolumeRequest) (w : Session S) :
  let r := ControllerPublishVolume orchGetVolume orchGetNode
             orchPublishVolume req w in
  let incomplete :=
    pubGetVolumeId req = "" \/ pubGetNodeId req = ""
    \/ pubGetVolumeCapability req = None in
  ((exists m, fst r = Err {| code := InvalidArgument; msg := m |})
   <-> incomplete)
  /\ (incomplete -> snd r = w)
  /\ (req = None -> incomplete).
Proof.
  intros r incomplete. unfold r, incomplete, ControllerPublishVolume.
  split; [|split].
  - destruct (decide (pubGetVolumeId req = "")) as [Hv|Hv];
      [split; [tauto | intros _; eexists; reflexivity]|].
    destruct (decide (pubGetNodeId req = "")) as [Hn|Hn];
      [split; [tauto | intros _; eexists; reflexivity]|].
    destruct (pubGetVolumeCapability req) as [cap|] eqn:Hc;
      [|split; [tauto | intros _; eexists; reflexivity]].
    split; [|intros [?|[?|?]]; congruence].
    intros [m Hm]. exfalso. revert Hm.
    rewrite hbind_run, hinvoke_run. simpl.
    destruct (orchGetVolume (pubGetVolumeId req) (state w))
      as [[volume [e|]] s1]; simpl.
    { unfold getCSIErrorForOrchestratorError.
      destruct (IsNotReadyError e), (IsBootstrapError e), (IsNotFoundError e);
        discriminate. }
    rewrite hbind_run, hinvoke_run. simpl.
    destruct (orchGetNode (pubGetNodeId req) s1) as [[[node|] [e|]] s2];
      simpl; try discriminate.
    destruct volume as [volume|]; [|discriminate].
    rewrite hbind_run, hinvoke_run. simpl.
    destruct (orchPublishVolume _ _ s2) as [[info [e|]] s3]; discriminate.
  - destruct (decide (pubGetVolumeId req = "")); [reflexivity|].
    destruct (decide (pubGetNodeId req = "")); [reflexivity|].
    destruct (pubGetVolumeCapability req); [|reflexivity].
    intros [?|[?|?]]; congruence.
  - intros ->. left. reflexivity.
Qed.


(** A successful [ControllerPublishVolume] has asked the orchestrator, in
    this order and once each, for the volume, for the node and to
    publish the volume to that node; each of the three answered without
    error, the publish call was made for the name the orchestrator gave
    the volume and with the IQN and name of the node, and the publish
    context is built from the volume and from the publish info as
    [PublishVolume] left it. *)
Lemma ControllerPublishVolume_publishes
  (req : option ControllerPublishVolumeRequest) (w : Session S)
  (resp : ControllerPublishVolumeResponse) :
  let r := ControllerPublishVolume orchGetVolume orchGetNode
             orchPublishVolume req w in
  fst r = Ok resp ->
  exists volume node info' s1 s2 s3,
    let name := storagefull.Name (storagefull.Config volume) in
    let info :=
      {| utils.Localhost := false; utils.HostIQN := [utils.IQN node];
         utils.HostIP := []; utils.HostName := utils.NodeName node;
         utils.FilesystemType := ""; utils.UseCHAP := false;
         utils.SharedTarget := false;
         utils.PublishAccessInfo := utils.noAccessInfo |} in
    orchGetVolume (pubGetVolumeId req) (state w) = ((Some volume, None), s1)
    /\ orchGetNode (pubGetNodeId req) s1 = ((Some node, None), s2)
    /\ orchPublishVolume name info s2 = ((info', None), s3)
    /\ snd r = {| state := s3;
                  log := log w ++ [CallGetVolume (pubGetVolumeId req);
                                   CallGetNode (pubGetNodeId req);
                                   CallPublishVolume name info] |}
    /\ PublishContext resp = publishContext volume info'.
Proof.
  intros r. unfold r, ControllerPublishVolume.
  destruct (decide (pubGetVolumeId req = "")); [discriminate|].
  destruct (decide (pubGetNodeId req = "")); [discriminate|].
  destruct (pubGetVolumeCapability req); [|discriminate].
  rewrite hbind_run, hinvoke_run. simpl.
  destruct (orchGetVolume (pubGetVolumeId req) (state w))
    as [[volume [e|]] s1] eqn:Hvol; simpl; [discriminate|].
  rewrite hbind_run, hinvoke_run. simpl.
  destruct (orchGetNode (pubGetNodeId req) s1)
    as [[[node|] [e|]] s2] eqn:Hnode; simpl; try discriminate.
  destruct volume as [volume|]; [|discriminate].
  rewrite hbind_run, hinvoke_run. simpl.
  destruct (orchPublishVolume _ _ s2) as [[info' [e|]] s3] eqn:Hpub;
    simpl; [discriminate|].
  intros Hok. inversion Hok; subst resp.
  exists volume, node, info', s1, s2, s3. simpl.
  rewrite Hpub. simpl. rewrite <- !app_assoc. simpl. auto.
Qed.

(** X3.  [ControllerPublishVolume] checks its arguments first and publishes
    last.  It answers InvalidArgument exactly when the volume id, the node
    id or the capability is missing (a nil request included), and then the
    orchestrator has not been called.  When it succeeds it has asked the
    orchestrator, in this order and once each, for the volume, for the node
    and to publish the volume to that node; each of the three answered
    without error, the publish call was made for the name the orchestrator
    gave the volume and with the IQN and name of the node, and the publish
    context is built from the volume and from the publish info as
    [PublishVolume] left it. *)
Theorem csi_ControllerPublishVolume_checks_then_publishes
  (req : option ControllerPublishVolumeRequest) (w : Session S) :
  let r := ControllerPublishVolume orchGetVolume orchGetNode
             orchPublishVolume req w in
  let incomplete :=
    pubGetVolumeId req = "" \/ pubGetNodeId req = ""
    \/ pubGetVolumeCapability req = None in
  ((exists m, fst r = Err {| code := InvalidArgument; msg := m |})
   <-> incomplete)
  /\ (incomplete -> snd r = w)
  /\ (req = None -> incomplete)
  /\ (forall resp, fst r = Ok resp ->
      exists volume node info' s1 s2 s3,
        let name := storagefull.Name (storagefull.Config volume) in
        let info :=
          {| utils.Localhost := false; utils.HostIQN := [utils.IQN node];
             utils.HostIP := []; utils.HostName := utils.NodeName node;
             utils.FilesystemType := ""; utils.UseCHAP := false;
             utils.SharedTarget := false;
             utils.PublishAccessInfo := utils.noAccessInfo |} in
        orchGetVolume (pubGetVolumeId req) (state w)
        = ((Some volume, None), s1)
        /\ orchGetNode (pubGetNodeId req) s1 = ((Some node, None), s2)
        /\ orchPublishVolume name info s2 = ((info', None), s3)
        /\ snd r = {| state := s3;
                      log := log w ++ [CallGetVolume (pubGetVolumeId req);
                                       CallGetNode (pubGetNodeId req);
                                       CallPublishVolume name info] |}
        /\ PublishContext resp = publishContext volume info').
Proof.
  intros r incomplete.
  destruct (ControllerPublishVolume_checks_arguments req w)
    as (Hiff & Hsame & Hnil).
  split; [exact Hiff|]. split; [exact Hsame|]. split; [exact Hnil|].
  intros resp Hok. exact (ControllerPublishVolume_publishes req w resp Hok).
Qed.

(** X4.  The same failed lookup surfaces differently from handler to
    handler.  For requests that pass the argument checks, when [GetVolume]
    fails with an error [e]: [ControllerPublishVolume] and
    [ControllerUnpublishVolume] answer with the status of [e] (NotFound for
    a missing volume, Unavailable while the orchestrator is not ready, ...),
    whereas [ValidateVolumeCapabilities] answers NotFound whatever [e] is.
    None of the three calls the orchestrator again. *)
Theorem csi_lookup_failure_codes
  (id nodeId : string) (cap : VolumeCapability) (caps : list VolumeCapability)
  (w : Session S) (volume : option storagefull.VolumeExternal)
  (e : OrchError) (s1 : S) :
  id <> "" -> nodeId <> "" ->
  orchGetVolume id (state w) = ((volume, Some e), s1) ->
  let w1 := {| state := s1; log := log w ++ [CallGetVolume id] |} in
  ControllerPublishVolume orchGetVolume orchGetNode orchPublishVolume
    (Some {| pubVolumeId := id; pubNodeId := nodeId;
             pubVolumeCapability := Some cap |}) w
  = (Err (getCSIErrorForOrchestratorError e), w1)
  /\ ControllerUnpublishVolume orchGetVolume
       (Some {| unpubVolumeId := id |}) w
     = (Err (getCSIErrorForOrchestratorError e), w1)
  /\ ValidateVolumeCapabilities orchGetVolume
       (Some {| valVolumeId := id; valVolumeCapabilities := Some caps |}) w
     = (Err {| code := NotFound; msg := "volume not found" |}, w1)
  /\ (IsNotReadyError e = true ->
      code (getCSIErrorForOrchestratorError e) = Unavailable).
Proof.
  intros Hid Hnode Hget w1.
  unfold ControllerPublishVolume, ControllerUnpublishVolume,
    ValidateVolumeCapabilities. simpl.
  destruct (decide (id = "")) as [|_]; [contradiction|].
  destruct (decide (nodeId = "")) as [|_]; [contradiction|].
  rewrite !hbind_run, !hinvoke_run, Hget. simpl.
  repeat split.
  unfold getCSIErrorForOrchestratorError. intros ->. reflexivity.
Qed.

Lemma validateLoop_spec (vol : storagefull.VolumeExternal) caps :
  Forall (fun v => capAccessMode v <> None) caps ->
  let fits (v : VolumeCapability) :=
    match capAccessMode v with
    | Some mode =>
        storagefull.AccessMode (storagefull.Config vol)
        = getAccessForCSIAccessMode mode
    | None => False
    end
    /\ storagefull.Protocol (storagefull.Config vol)
       = match capAccessType v with BlockVolume => Block | _ => File end in
  (validateLoop (Some vol) caps = Ok None /\ Forall fits caps)
  \/ (exists m, validateLoop (Some vol) caps = Ok (Some m) /\ m <> ""
                /\ Exists (fun v => ~ fits v) caps).
Proof.
  intros Hmodes fits. induction caps as [|v rest IH]; simpl.
  - left. split; [reflexivity|constructor].
  - inversion Hmodes as [|? ? Hmode Hrest]; subst.
    destruct (capAccessMode v) as [mode|] eqn:Hm; [|congruence].
    destruct (decide (storagefull.AccessMode (storagefull.Config vol)
                      <> getAccessForCSIAccessMode mode)) as [Hne|Heq].
    { right. eexists. split; [reflexivity|]. split; [discriminate|].
      apply Exists_cons_hd. unfold fits. rewrite Hm. tauto. }
    assert (Heq' : storagefull.AccessMode (storagefull.Config vol)
                   = getAccessForCSIAccessMode mode).
    { destruct (decide (storagefull.AccessMode (storagefull.Config vol)
                        = getAccessForCSIAccessMode mode)); tauto. }
    assert (Hstep : forall proto : tridentconfig.Protocol,
      proto = match capAccessType v with BlockVolume => Block | _ => File end ->
      (((if decide (storagefull.Protocol (storagefull.Config vol) <> proto)
         then Ok (Some (if decide (proto = Block)
                        then "Could not satisfy block protocol."
                        else "Could not satisfy file protocol."))
         else validateLoop (Some vol) rest) = Ok None
        /\ Forall fits (v :: rest))
       \/ (exists m,
             (if decide (storagefull.Protocol (storagefull.Config vol) <> proto)
              then Ok (Some (if decide (proto = Block)
                             then "Could not satisfy block protocol."
                             else "Could not satisfy file protocol."))
              else validateLoop (Some vol) rest) = Ok (Some m)
             /\ m <> "" /\ Exists (fun v => ~ fits v) (v :: rest)))).
    { intros proto Hproto.
      destruct (decide (storagefull.Protocol (storagefull.Config vol)
                        <> proto)) as [Hp|Hp].
      - right. eexists. split; [reflexivity|]. split.
        + destruct (decide (proto = Block)); discriminate.
        + apply Exists_cons_hd. unfold fits. rewrite <- Hproto. tauto.
      - assert (Hp' : storagefull.Protocol (storagefull.Config vol) = proto).
        { destruct (decide (storagefull.Protocol (storagefull.Config vol)
                            = proto)); tauto. }
        destruct (IH Hrest) as [[Hok Hall]|(m & Hm' & Hne & Hex)].
        + left. split; [exact Hok|]. constructor; [|exact Hall].
          unfold fits. rewrite Hm, <- Hproto. auto.
        + right. exists m. repeat split; auto. }
    destruct (capAccessType v) eqn:Ht.
    + apply (Hstep File). reflexivity.
    + apply (Hstep Block). reflexivity.
    + apply (Hstep File). reflexivity.
Qed.

(** X5.  [ValidateVolumeCapabilities] confirms a capability list exactly
    when every capability fits the volume: its access mode maps to the
    access mode of the volume, and the volume is a Block volume for a block
    capability and a File volume for any other.  For a request that passes
    the argument checks, a volume the orchestrator returns and capabilities
    that all carry an access mode, the handler answers without error; either
    it confirms the capabilities of the request with an empty message and
    all of them fit, or it confirms nothing, gives a message, and some
    capability does not fit. *)
Theorem csi_ValidateVolumeCapabilities_confirms_what_fits
  (id : string) (caps : list VolumeCapability) (w : Session S)
  (vol : storagefull.VolumeExternal) (s1 : S) :
  id <> "" ->
  Forall (fun v => capAccessMode v <> None) caps ->
  orchGetVolume id (state w) = ((Some vol, None), s1) ->
  let fits (v : VolumeCapability) :=
    match capAccessMode v with
    | Some mode =>
        storagefull.AccessMode (storagefull.Config vol)
        = getAccessForCSIAccessMode mode
    | None => False
    end
    /\ storagefull.Protocol (storagefull.Config vol)
       = match capAccessType v with BlockVolume => Block | _ => File end in
  exists resp,
    ValidateVolumeCapabilities orchGetVolume
      (Some {| valVolumeId := id; valVolumeCapabilities := Some caps |}) w
    = (Ok resp, {| state := s1; log := log w ++ [CallGetVolume id] |})
    /\ ((Confirmed resp = Some caps /\ Message resp = "" /\ Forall fits caps)
        \/ (Confirmed resp = None /\ Message resp <> ""
            /\ Exists (fun v => ~ fits v) caps)).
Proof.
  intros Hid Hmodes Hget fits.
  unfold ValidateVolumeCapabilities. simpl.
  destruct (decide (id = "")) as [|_]; [contradiction|].
  rewrite hbind_run, hinvoke_run, Hget. simpl.
  destruct (validateLoop_spec vol caps Hmodes)
    as [[Hok Hall]|(m & Hm & Hne & Hex)].
  - rewrite Hok. eexists. split; [reflexivity|]. left. simpl. auto.
  - rewrite Hm. eexists. split; [reflexivity|]. right. simpl. auto.
Qed.

Lemma listEntries_spec vols : forall entries,
  listEntries (map Some vols) entries
  = Ok (entries
        ++ map (fun v => getCSIVolumeFromTridentVolume (storagefull.view v))
             vols).
Proof.
  induction vols as [|v rest IH]; intros entries; simpl.
  - rewrite app_nil_r. reflexivity.
  - rewrite IH, <- app_assoc. reflexivity.
Qed.

(** X6.  [ListVolumes] lists every volume of the orchestrator, in the
    orchestrator's order: when [ListVolumes] of the orchestrator returns
    volumes without error, the entries are the volumes converted one by one,
    the id of each entry is the name of its volume, and a size that does not
    parse never drops a volume from the list. *)
Theorem csi_ListVolumes_lists_every_volume
  (vols : list storagefull.VolumeExternal) (w : Session S) (s1 : S) :
  orchListVolumes (state w) = ((map Some vols, None), s1) ->
  exists resp,
    ListVolumes orchListVolumes w
    = (Ok resp, {| state := s1; log := log w ++ [CallListVolumes] |})
    /\ length (Entries resp) = length vols
    /\ map VolumeId (Entries resp)
       = map (fun v => storagefull.Name (storagefull.Config v)) vols
    /\ Entries resp
       = map (fun v => getCSIVolumeFromTridentVolume (storagefull.view v))
           vols.
Proof.
  intros Hlist. unfold ListVolumes.
  rewrite hbind_run, hinvoke_run, Hlist. simpl.
  rewrite listEntries_spec. simpl.
  eexists. split; [reflexivity|]. simpl.
  split; [apply length_map|]. split; [|reflexivity].
  rewrite map_map. apply map_ext. intros v. reflexivity.
Qed.

End WithOrchestrator.

Import controller_fixture.

Lemma csi_ControllerPublishVolume_checks_then_publishes_witness :
  exists volume node info' s1 s2 s3,
    getVolume "iscsi" tt = ((Some volume, None), s1)
    /\ getNode "node1" s1 = ((Some node, None), s2)
    /\ publishVolume (storagefull.Name (storagefull.Config volume))
         {| utils.Localhost := false; utils.HostIQN := [utils.IQN node];
            utils.HostIP := []; utils.HostName := utils.NodeName node;
            utils.FilesystemType := ""; utils.UseCHAP := false;
            utils.SharedTarget := false;
            utils.PublishAccessInfo := utils.noAccessInfo |} s2
       = ((info', None), s3)
    /\ utils.UseCHAP info' = true.
Proof.
  destruct (csi_ControllerPublishVolume_checks_then_publishes
              getVolume getNode publishVolume
              (Some {| pubVolumeId := "iscsi"; pubNodeId := "node1";
                       pubVolumeCapability :=
                         Some (mount AccessMode_SINGLE_NODE_WRITER) |})
              start)
    as (_ & _ & _ & Hpublishes).
  destruct (Hpublishes
              {| PublishContext :=
                   publishContext iscsiVolume
                     (fst (fst (publishVolume "iscsi"
                        {| utils.Localhost := false;
                           utils.HostIQN := [utils.IQN node1];
                           utils.HostIP := []; utils.HostName := "node1";
                           utils.FilesystemType := ""; utils.UseCHAP := false;
                           utils.SharedTarget := false;
                           utils.PublishAccessInfo := utils.noAccessInfo |}
                        tt))) |}
              eq_refl)
    as (volume & node & info' & s1 & s2 & s3 & Hv & Hn & Hp & _ & _).
  exists volume, node, info', s1, s2, s3.
  repeat split; try assumption.
  simpl in Hv, Hn. inversion Hv; subst. inversion Hn; subst.
  simpl in Hp. inversion Hp; subst. reflexivity.
Defined.

Lemma csi_lookup_failure_codes_witness :
  ControllerUnpublishVolume getVolume (Some {| unpubVolumeId := "gone" |}) start
  = (Err {| code := NotFound; msg := "volume not found" |},
     {| state := tt; log := [CallGetVolume "gone"] |}).
Proof.
  destruct (csi_lookup_failure_codes getVolume getNode publishVolume
              "gone" "node1" (mount AccessMode_SINGLE_NODE_WRITER) []
              start None (notFound "volume") tt
              ltac:(discriminate) ltac:(discriminate) eq_refl)
    as (_ & Hunpublish & _ & _).
  exact Hunpublish.
Defined.

Lemma csi_ValidateVolumeCapabilities_confirms_what_fits_witness :
  exists resp,
    ValidateVolumeCapabilities getVolume
      (Some {| valVolumeId := "nfs";
               valVolumeCapabilities :=
                 Some [mount AccessMode_MULTI_NODE_MULTI_WRITER;
                       block AccessMode_MULTI_NODE_MULTI_WRITER] |}) start
    = (Ok resp, {| state := tt; log := [CallGetVolume "nfs"] |})
    /\ Confirmed resp = None.
Proof.
  destruct (csi_ValidateVolumeCapabilities_confirms_what_fits getVolume
              "nfs" [mount AccessMode_MULTI_NODE_MULTI_WRITER;
                     block AccessMode_MULTI_NODE_MULTI_WRITER]
              start nfsVolume tt
              ltac:(discriminate)
              ltac:(repeat constructor; discriminate) eq_refl)
    as (resp & Hrun & [(_ & _ & Hall)|(Hnone & _ & _)]).
  - exfalso. inversion Hall as [|? ? _ Hrest]; subst.
    inversion Hrest as [|? ? [_ Hproto] _]; subst. discriminate.
  - exists resp. split; assumption.
Defined.

Lemma csi_ListVolumes_lists_every_volume_witness :
  exists resp,
    ListVolumes listVolumes start
    = (Ok resp, {| state := tt; log := [CallListVolumes] |})
    /\ map VolumeId (Entries resp) = ["nfs"; "iscsi"].
Proof.
  destruct (csi_ListVolumes_lists_every_volume listVolumes
              [nfsVolume; iscsiVolume] start tt eq_refl)
    as (resp & Hrun & _ & Hids & _).
  exists resp. split; assumption.
Defined.

End csicontroller_facts.

(** ** The Kubernetes frontend: volumes *)
Section kubernetes_facts.
Import kubernetes.

Lemma found_In claimMode volumeAccessModes :
  found claimMode volumeAccessModes = true <-> In claimMode volumeAccessModes.
Proof.
  induction volumeAccessModes as [|m rest IH]; simpl.
  - split; [discriminate|tauto].
  - destruct (String.eqb_spec claimMode m) as [->|Hne].
    + split; auto.
    + rewrite IH. split; [auto|]. intros [Heq|Hin]; [congruence|exact Hin].
Qed.

Lemma allFound_incl claimAccessModes volumeAccessModes :
  allFound claimAccessModes volumeAccessModes = true
  <-> forall mode, In mode claimAccessModes -> In mode volumeAccessModes.
Proof.
  induction claimAccessModes as [|m rest IH]; simpl.
  - split; [intros _ mode []|reflexivity].
  - destruct (found m volumeAccessModes) eqn:Hf; simpl.
    + rewrite IH. apply found_In in Hf. split.
      * intros Hall mode [<-|Hin]; auto.
      * intros Hall mode Hin. apply Hall. auto.
    + split; [discriminate|]. intros Hall.
      assert (Hin : In m volumeAccessModes) by (apply Hall; auto).
      apply found_In in Hin. congruence.
Qed.

(** X8.  [canPVMatchWithPVC] decides what its comment promises: the volume
    states a capacity, that capacity is at least the size the claim requests
    (0 when the claim requests none), and every access mode of the claim is
    among the access modes of the volume. *)
Theorem kubernetes_canPVMatchWithPVC_iff
  (pv : PersistentVolume) (claim : PersistentVolumeClaim) :
  canPVMatchWithPVC pv claim = true
  <-> exists volumeSize,
        pvCapacity pv !! ResourceStorage = Some volumeSize
        /\ default 0 (pvcRequests claim !! ResourceStorage) <= volumeSize
        /\ forall mode, In mode (pvcAccessModes claim) ->
                        In mode (pvAccessModes pv).
Proof.
  unfold canPVMatchWithPVC.
  destruct (pvCapacity pv !! ResourceStorage) as [volumeSize|].
  - destruct (Z.ltb_spec volumeSize
                (default 0 (pvcRequests claim !! ResourceStorage)))
      as [Hlt|Hge].
    + split; [discriminate|]. intros (v & Hv & Hle & _).
      inversion Hv; subst. lia.
    + rewrite allFound_incl. split.
      * intros Hall. exists volumeSize. auto.
      * intros (v & _ & _ & Hall). exact Hall.
  - split; [discriminate|]. intros (v & Hv & _). discriminate.
Qed.

(** A volume that can serve a claim can serve every claim that asks for
    no more storage and for no other access modes. *)
Theorem kubernetes_canPVMatchWithPVC_weaker_claim
  (pv : PersistentVolume) (claim claim' : PersistentVolumeClaim) :
  canPVMatchWithPVC pv claim = true ->
  default 0 (pvcRequests claim' !! ResourceStorage)
  <= default 0 (pvcRequests claim !! ResourceStorage) ->
  (forall mode, In mode (pvcAccessModes claim') ->
                In mode (pvcAccessModes claim)) ->
  canPVMatchWithPVC pv claim' = true.
Proof.
  unfold canPVMatchWithPVC.
  destruct (pvCapacity pv !! ResourceStorage) as [volumeSize|];
    [|discriminate].
  destruct (Z.ltb_spec volumeSize
              (default 0 (pvcRequests claim !! ResourceStorage)));
    [discriminate|].
  intros Hall Hsize Hmodes.
  destruct (Z.ltb_spec volumeSize
              (default 0 (pvcRequests claim' !! ResourceStorage))); [lia|].
  rewrite allFound_incl in *. auto.
Qed.

Section Annotations.
Variables AnnFileSystem AnnProtocol AnnSnapshotPolicy AnnSnapshotReserve
  AnnSnapshotDir AnnExportPolicy AnnUnixPermissions AnnClass AnnBlockSize
  AnnCloneFromPVC AnnSplitOnClone : string.
Variables ReadWriteMany ModeAny : string.

Let config :=
  getVolumeConfig AnnFileSystem AnnProtocol AnnSnapshotPolicy
    AnnSnapshotReserve AnnSnapshotDir AnnExportPolicy AnnUnixPermissions
    AnnClass AnnBlockSize AnnCloneFromPVC AnnSplitOnClone ReadWriteMany
    ModeAny.

(** X9.  [getVolumeConfig] never leaves the file system open.  With a nil
    annotation map it panics, as it cannot store the default.  Otherwise the
    config names a file system: the one of the annotations when they name
    one, and [ext4] if not, which is then also written into the caller's
    map; no other annotation is touched; and on the map as it is left the
    function gives the same config and writes nothing more. *)
Theorem kubernetes_getVolumeConfig_file_system
  (accessModes : list string) (name : string) (size : Z)
  (annotations : option (gmap string string)) :
  match config accessModes name size annotations with
  | None => annotations = None
  | Some (cfg, written) =>
      exists m,
        annotations = Some m
        /\ FileSystem cfg <> ""
        /\ written !! AnnFileSystem = Some (FileSystem cfg)
        /\ (if decide (getAnnotation m AnnFileSystem = "")
            then FileSystem cfg = "ext4"
            else written = m)
        /\ (forall key, key <> AnnFileSystem -> written !! key = m !! key)
        /\ config accessModes name size (Some written) = Some (cfg, written)
  end.
Proof.
  unfold config, getVolumeConfig.
  destruct annotations as [m|]; [|reflexivity].
  destruct (decide (getAnnotation m AnnFileSystem = "")) as [Hempty|Hset].
  - assert (Hfs : getAnnotation (<[AnnFileSystem := "ext4"]> m) AnnFileSystem
                  = "ext4").
    { unfold getAnnotation. rewrite lookup_insert_eq. reflexivity. }
    exists m. split; [reflexivity|]. rewrite Hfs. simpl.
    destruct (decide (getAnnotation m AnnFileSystem = ""));
      [|contradiction].
    repeat split.
    + discriminate.
    + apply lookup_insert_eq.
    + intros key Hkey. apply lookup_insert_ne. congruence.
    + rewrite Hfs.
      destruct (decide ("ext4" = "")) as [Hd|_]; [discriminate|].
      reflexivity.
  - exists m. split; [reflexivity|]. simpl.
    destruct (decide (getAnnotation m AnnFileSystem = ""));
      [contradiction|].
    repeat split.
    + exact Hset.
    + unfold getAnnotation in *.
      destruct (m !! AnnFileSystem); [reflexivity|contradiction].
Qed.

End Annotations.

Section Client.
Context {K Version : Type}.
Variable Namespace : K -> string * K.
Variable CheckSecretExists : string -> K -> (bool * option string) * K.
Variable CreateCHAPSecret :
  string -> string -> string -> string -> K -> option string * K.
Variable AtLeast : Version -> string -> bool.
Variable GetCHAPSecretName : storagefull.VolumeExternal -> string.

(** X10.  Which calls [CreateISCSIPersistentVolumeSource] makes on the
    Kubernetes client, and when it fails.  The namespace is asked for from
    Kubernetes 1.9.0 on.  Without a target secret no secret is looked up or
    created and the source carries no CHAP settings.  With one, a Kubernetes
    older than 1.7.0 is refused before any secret is touched; otherwise the
    secret is looked up once and created only if it is missing, with the
    credentials of the volume, and the source refers to it.  The only other
    failure is a failed creation. *)
Theorem kubernetes_CHAP_secret_created_only_when_missing
  (kubeVersion : Version) (vol : storagefull.VolumeExternal)
  (k : K * list ClientCall) :
  let r := CreateISCSIPersistentVolumeSource Namespace CheckSecretExists
             CreateCHAPSecret AtLeast GetCHAPSecretName kubeVersion vol k in
  let info := storagefull.AccessInfo (storagefull.Config vol) in
  let name := GetCHAPSecretName vol in
  let k1 := if AtLeast kubeVersion "v1.9.0"
            then snd (Namespace (fst k)) else fst k in
  let wanted := negb (String.eqb (utils.IscsiTargetSecret info) "") in
  let missing := negb (fst (fst (CheckSecretExists name k1))) in
  let create :=
    CallCreateCHAPSecret name (utils.IscsiUsername info)
      (utils.IscsiInitiatorSecret info) (utils.IscsiTargetSecret info) in
  snd (snd r)
  = snd k
    ++ (if AtLeast kubeVersion "v1.9.0" then [CallNamespace] else [])
    ++ (if wanted && AtLeast kubeVersion "v1.7.0"
        then CallCheckSecretExists name :: (if missing then [create] else [])
        else [])
  /\ match fst r with
     | inl _ =>
         wanted = true
         /\ (AtLeast kubeVersion "v1.7.0" = false
             \/ (missing = true
                 /\ fst (CreateCHAPSecret name (utils.IscsiUsername info)
                           (utils.IscsiInitiatorSecret info)
                           (utils.IscsiTargetSecret info)
                           (snd (CheckSecretExists name k1))) <> None))
     | inr source =>
         DiscoveryCHAPAuth source = wanted
         /\ SessionCHAPAuth source = wanted
         /\ (SecretRef source <> None <-> wanted = true)
         /\ Portals source
            = (if AtLeast kubeVersion "v1.6.0"
               then utils.IscsiPortals info else [])
     end.
Proof.
  cbv zeta.
  unfold CreateISCSIPersistentVolumeSource, findOrCreateCHAPSecret.
  set (info := storagefull.AccessInfo (storagefull.Config vol)).
  set (name := GetCHAPSecretName vol).
  destruct (AtLeast kubeVersion "v1.9.0") eqn:H19.
  - destruct (Namespace (fst k)) as [ns k'] eqn:Hns. simpl fst. simpl snd.
    destruct (negb (String.eqb (utils.IscsiTargetSecret info) "")) eqn:Hw.
    + destruct (AtLeast kubeVersion "v1.7.0") eqn:H17; simpl.
      * destruct (CheckSecretExists name k') as [[secretExists e] k2] eqn:Hc.
        simpl. destruct secretExists; simpl.
        -- split; [rewrite <- !app_assoc; reflexivity|]. repeat split; auto; discriminate.
        -- destruct (CreateCHAPSecret name _ _ _ k2) as [[ce|] k3]; simpl.
           ++ split; [rewrite <- !app_assoc; reflexivity|].
              split; [reflexivity|]. right. split; [reflexivity|discriminate].
           ++ split; [rewrite <- !app_assoc; reflexivity|].
              repeat split; auto; discriminate.
      * split; [reflexivity|]. split; [reflexivity|]. left. reflexivity.
    + simpl. split; [reflexivity|].
      repeat split; auto; try discriminate; intros Hc; contradiction.
  - simpl fst. simpl snd.
    destruct (negb (String.eqb (utils.IscsiTargetSecret info) "")) eqn:Hw.
    + destruct (AtLeast kubeVersion "v1.7.0") eqn:H17; simpl.
      * destruct (CheckSecretExists name (fst k))
          as [[secretExists e] k2] eqn:Hc.
        simpl. destruct secretExists; simpl.
        -- split; [reflexivity|]. repeat split; auto; discriminate.
        -- destruct (CreateCHAPSecret name _ _ _ k2) as [[ce|] k3]; simpl.
           ++ split; [rewrite <- !app_assoc; reflexivity|].
              split; [reflexivity|]. right. split; [reflexivity|discriminate].
           ++ split; [rewrite <- !app_assoc; reflexivity|].
              repeat split; auto; discriminate.
      * split; [rewrite app_nil_r; reflexivity|].
        split; [reflexivity|]. left. reflexivity.
    + simpl. split; [rewrite app_nil_r; reflexivity|].
      repeat split; auto; try discriminate; intros Hc; contradiction.
Qed.

End Client.
End kubernetes_facts.

(** ** Go's string functions *)
Section gostrings_facts.
Import gostrings.

Lemma append_nil (s : string) : "" +:+ s = s.
Proof. reflexivity. Qed.

Lemma append_cons c (a b : string) : String c a +:+ b = String c (a +:+ b).
Proof. reflexivity. Qed.

Lemma HasPrefix_app (p s : string) : HasPrefix (p +:+ s) p = true.
Proof.
  induction p as [|c p IH]; [reflexivity|].
  rewrite append_cons. simpl. rewrite Ascii.eqb_refl. exact IH.
Qed.

Lemma from_app (p s : string) : from (String.length p) (p +:+ s) = s.
Proof.
  induction p as [|c p IH]; [reflexivity|].
  rewrite append_cons. simpl. exact IH.
Qed.

Lemma HasPrefix_from (s p : string) :
  HasPrefix s p = true -> p +:+ from (String.length p) s = s.
Proof.
  revert s. induction p as [|c p IH]; intros s Hp; [reflexivity|].
  destruct s as [|d s]; [discriminate|]. simpl in Hp.
  apply andb_true_iff in Hp as [Hc Hrest].
  apply Ascii.eqb_eq in Hc. subst d.
  rewrite append_cons. simpl. f_equal. exact (IH s Hrest).
Qed.

Lemma chars_append (a b : string) :
  list_ascii_of_string (a +:+ b)
  = list_ascii_of_string a ++ list_ascii_of_string b.
Proof.
  induction a as [|c a IH]; [reflexivity|].
  rewrite append_cons. simpl. rewrite IH. reflexivity.
Qed.

(** Replacing leaves only bytes of the text and of the replacement. *)
Lemma replaceFrom_chars o os new s : forall skip c,
  In c (list_ascii_of_string (replaceFrom skip o os new s)) ->
  In c (list_ascii_of_string s) \/ In c (list_ascii_of_string new).
Proof.
  induction s as [|d s IH]; intros skip c Hin; simpl in *; [tauto|].
  destruct skip as [|k].
  - destruct (Ascii.eqb d o && HasPrefix s os).
    + rewrite chars_append in Hin. apply in_app_or in Hin as [Hin|Hin].
      * auto.
      * apply IH in Hin. tauto.
    + simpl in Hin. destruct Hin as [->|Hin]; [auto|].
      apply IH in Hin. tauto.
  - apply IH in Hin. tauto.
Qed.

(** A byte that is replaced wherever it stands is gone, unless the
    replacement brings it back. *)
Lemma replace_byte_gone o new s :
  In o (list_ascii_of_string (replaceFrom 0 o "" new s)) ->
  In o (list_ascii_of_string new).
Proof.
  induction s as [|d s IH]; simpl; [tauto|].
  destruct (Ascii.eqb_spec d o) as [->|Hne]; simpl.
  - rewrite chars_append. intros Hin.
    apply in_app_or in Hin as [Hin|Hin]; auto.
  - intros [Heq|Hin]; [congruence|auto].
Qed.

Lemma replace_byte_length o n s :
  String.length (replaceFrom 0 o "" (String n "") s) = String.length s.
Proof.
  induction s as [|d s IH]; simpl; [reflexivity|].
  destruct (Ascii.eqb d o); simpl;
    rewrite ?append_cons, ?append_nil; simpl; rewrite IH; reflexivity.
Qed.

Lemma replace_byte_absent o new s :
  ~ In o (list_ascii_of_string s) -> replaceFrom 0 o "" new s = s.
Proof.
  induction s as [|d s IH]; simpl; intros Hno; [reflexivity|].
  destruct (Ascii.eqb_spec d o) as [->|Hne]; simpl.
  - exfalso. apply Hno. auto.
  - rewrite IH; [reflexivity|]. intros Hin. apply Hno. auto.
Qed.

Lemma Split_no_sep (s : string) sep :
  ~ In sep (list_ascii_of_string s) -> Split s sep = [s].
Proof.
  induction s as [|c s IH]; simpl; intros Hno; [reflexivity|].
  destruct (Ascii.eqb_spec c sep) as [->|Hne].
  - exfalso. apply Hno. auto.
  - rewrite IH; [reflexivity|]. intros Hin. apply Hno. auto.
Qed.

Lemma Split_field (a rest : string) sep :
  ~ In sep (list_ascii_of_string a) ->
  Split (a +:+ String sep rest) sep = a :: Split rest sep.
Proof.
  induction a as [|c a IH]; intros Hno.
  - rewrite append_nil. simpl. rewrite Ascii.eqb_refl. reflexivity.
  - rewrite append_cons. simpl in *.
    destruct (Ascii.eqb_spec c sep) as [->|Hne].
    + exfalso. apply Hno. auto.
    + rewrite IH; [reflexivity|]. intros Hin. apply Hno. auto.
Qed.

End gostrings_facts.

(** ** The SolidFire driver *)
Section solidfire_facts.
Import solidfire.

(** X11.  Volume names for SolidFire.  [MakeSolidFireName] turns every
    underscore into a hyphen and nothing else: the result has no underscore,
    the same length, and is left alone by a second pass.
    [GetInternalVolumeName] yields a name without underscores in either
    mode, and without dots when the store is not the passthrough store.  Its
    last pass halves runs of hyphens once: a run of four underscores still
    comes out as a double hyphen. *)
Theorem solidfire_names_have_no_underscore
  (UsingPassthroughStore : bool) (common : string -> string) (name : string) :
  let internal := GetInternalVolumeName UsingPassthroughStore common name in
  ~ In "_"%char (list_ascii_of_string (MakeSolidFireName name))
  /\ String.length (MakeSolidFireName name) = String.length name
  /\ MakeSolidFireName (MakeSolidFireName name) = MakeSolidFireName name
  /\ ~ In "_"%char (list_ascii_of_string internal)
  /\ (UsingPassthroughStore = false ->
      ~ In "."%char (list_ascii_of_string internal))
  /\ GetInternalVolumeName false (fun n => n) "a____b" = "a--b".
Proof.
  intros internal.
  assert (Hno : forall s,
            ~ In "_"%char
                (list_ascii_of_string (gostrings.Replace s "_" "" "-"))).
  { intros s Hin. apply replace_byte_gone in Hin.
    simpl in Hin. destruct Hin as [Hc|[]]. discriminate. }
  split; [apply Hno|]. split; [apply replace_byte_length|].
  split; [apply replace_byte_absent, Hno|]. split; [|split].
  - unfold internal, GetInternalVolumeName.
    destruct UsingPassthroughStore; [apply Hno|].
    intros Hin. apply replaceFrom_chars in Hin as [Hin|Hin].
    + apply replaceFrom_chars in Hin as [Hin|Hin].
      * exact (Hno _ Hin).
      * simpl in Hin. destruct Hin as [Hc|[]]. discriminate.
    + simpl in Hin. destruct Hin as [Hc|[]]. discriminate.
  - intros ->. unfold internal, GetInternalVolumeName.
    intros Hin. apply replaceFrom_chars in Hin as [Hin|Hin].
    + apply replace_byte_gone in Hin.
      simpl in Hin. destruct Hin as [Hc|[]]. discriminate.
    + simpl in Hin. destruct Hin as [Hc|[]]. discriminate.
  - reflexivity.
Qed.

Lemma diffSlices_seen (a : list Z) : forall (m : gmap Z bool) s,
  default false (fold_left (fun m s => <[s := true]> m) a m !! s)
  = existsb (Z.eqb s) a || default false (m !! s).
Proof.
  induction a as [|x a IH]; intros m s; simpl; [reflexivity|].
  rewrite IH. destruct (Z.eqb_spec s x) as [->|Hne].
  - rewrite lookup_insert_eq. simpl. apply orb_true_r.
  - rewrite lookup_insert_ne by congruence. reflexivity.
Qed.

Lemma diffSlices_filter (a b : list Z) :
  diffSlices a b = List.filter (fun s => negb (existsb (Z.eqb s) a)) b.
Proof.
  unfold diffSlices.
  assert (Hloop : forall r,
    fold_left
      (fun r s =>
         if negb (default false
                    (fold_left (fun m s => <[s := true]> m) a
                       (∅ : gmap Z bool) !! s))
         then r ++ [s] else r) b r
    = r ++ List.filter (fun s => negb (existsb (Z.eqb s) a)) b).
  { induction b as [|x b IH]; intros r; simpl.
    - rewrite app_nil_r. reflexivity.
    - rewrite IH, diffSlices_seen, lookup_empty. simpl. rewrite orb_false_r.
      destruct (existsb (Z.eqb x) a); simpl; [reflexivity|].
      rewrite <- app_assoc. reflexivity. }
  apply (Hloop []).
Qed.

(** [diffSlices a b] keeps the items of [b] that do not occur in [a], in
    the order and with the repetitions they have in [b]. *)
Theorem solidfire_diffSlices_keeps_what_is_missing (a b : list Z) :
  diffSlices a b = List.filter (fun s => negb (existsb (Z.eqb s) a)) b
  /\ (forall x, In x (diffSlices a b) <-> In x b /\ ~ In x a)
  /\ (diffSlices a b = [] <-> forall x, In x b -> In x a)
  /\ diffSlices a a = [].
Proof.
  assert (Hmem : forall x l, existsb (Z.eqb x) l = true <-> In x l).
  { intros x l. rewrite existsb_exists. split.
    - intros (y & Hy & Heq). apply Z.eqb_eq in Heq. subst. exact Hy.
    - intros Hin. exists x. split; [exact Hin|apply Z.eqb_refl]. }
  assert (Hin : forall x, In x (diffSlices a b) <-> In x b /\ ~ In x a).
  { intros x. rewrite diffSlices_filter, List.filter_In.
    rewrite negb_true_iff, <- not_true_iff_false, Hmem. reflexivity. }
  assert (Hnil : forall a b, diffSlices a b = [] <->
                             forall x, In x b -> In x a).
  { intros a0 b0. rewrite diffSlices_filter. split.
    - intros Hf x Hx. destruct (existsb (Z.eqb x) a0) eqn:He.
      + apply Hmem. exact He.
      + exfalso. assert (Hxf : In x (List.filter
                   (fun s => negb (existsb (Z.eqb s) a0)) b0)).
        { apply List.filter_In. rewrite He. auto. }
        rewrite Hf in Hxf. exact Hxf.
    - intros Hall. induction b0 as [|y b0 IH]; simpl; [reflexivity|].
      assert (Hy : existsb (Z.eqb y) a0 = true)
        by (apply Hmem, Hall; simpl; auto).
      rewrite Hy. simpl. apply IH. intros x Hx. apply Hall. simpl. auto. }
  split; [apply diffSlices_filter|]. split; [exact Hin|].
  split; [apply Hnil|]. apply Hnil. auto.
Qed.

(** X12.  [parseQOS] reports a bad number only in the last place.  For three
    fields without a comma, the three values are whatever [ParseInt] makes
    of each field (0 for text that is no number), and the error is the one
    of the third conversion alone: a malformed minimum or maximum goes
    unreported. *)
Theorem solidfire_parseQOS_reports_last_field_only (a b c : string) :
  ~ In ","%char (list_ascii_of_string a) ->
  ~ In ","%char (list_ascii_of_string b) ->
  ~ In ","%char (list_ascii_of_string c) ->
  parseQOS (a +:+ "," +:+ b +:+ "," +:+ c)
  = ({| MinIOPS := fst (strconv.ParseInt a);
        MaxIOPS := fst (strconv.ParseInt b);
        BurstIOPS := fst (strconv.ParseInt c) |},
     ErrNumber <$> snd (strconv.ParseInt c)).
Proof.
  intros Ha Hb Hc. unfold parseQOS.
  change (a +:+ "," +:+ b +:+ "," +:+ c)
    with (a +:+ String "," (b +:+ String "," c)).
  rewrite (Split_field a _ _ Ha), (Split_field b _ _ Hb),
    (Split_no_sep c _ Hc).
  destruct (strconv.ParseInt a), (strconv.ParseInt b), (strconv.ParseInt c).
  reflexivity.
Qed.

Lemma solidfire_parseQOS_reports_last_field_only_witness :
  parseQOS "fast,2000,4000"
  = ({| MinIOPS := 0; MaxIOPS := 2000; BurstIOPS := 4000 |}, None).
Proof.
  apply (solidfire_parseQOS_reports_last_field_only "fast" "2000" "4000");
    simpl; intuition discriminate.
Defined.

(** X13.  [GetVolumeOpts] always settles the [type] option, or fails on a
    nil pool.  It dereferences the nil pool exactly when there is no QoS
    type, no QoS and no clone source.  Otherwise [type] is the QoS type if
    one is given; empty if a QoS is given or the volume is a clone; and only
    then the name of the pool: the pool name written first is overwritten in
    every other case.  The other options are those of the volume config that
    are not empty. *)
Theorem solidfire_GetVolumeOpts_type
  (volConfig : storagefull.VolumeConfig) (pool : option string) :
  let given (s : string) := negb (String.eqb s "") in
  let optional (s : string) := if given s then Some s else None in
  match GetVolumeOpts volConfig pool with
  | None =>
      pool = None
      /\ storagefull.QoSType volConfig = ""
      /\ storagefull.QoS volConfig = ""
      /\ storagefull.CloneSourceVolume volConfig = ""
  | Some opts =>
      opts !! "type"
      = Some (if given (storagefull.QoSType volConfig)
              then storagefull.QoSType volConfig
              else if given (storagefull.QoS volConfig)
                      || given (storagefull.CloneSourceVolume volConfig)
                   then ""
                   else default "" pool)
      /\ opts !! "fileSystemType"
         = optional (storagefull.FileSystem volConfig)
      /\ opts !! "blocksize" = optional (storagefull.BlockSize volConfig)
      /\ opts !! "qos" = optional (storagefull.QoS volConfig)
      /\ (given (storagefull.QoSType volConfig)
          || given (storagefull.QoS volConfig)
          || given (storagefull.CloneSourceVolume volConfig) = false ->
          pool <> None)
  end.
Proof.
  intros given optional. unfold GetVolumeOpts, optional, given.
  destruct (String.eqb_spec (storagefull.QoSType volConfig) "") as [Ht|Ht];
  destruct (String.eqb_spec (storagefull.QoS volConfig) "") as [Hq|Hq];
  destruct (String.eqb_spec (storagefull.CloneSourceVolume volConfig) "")
    as [Hc|Hc];
  destruct (String.eqb_spec (storagefull.FileSystem volConfig) "") as [Hf|Hf];
  destruct (String.eqb_spec (storagefull.BlockSize volConfig) "") as [Hb|Hb];
  destruct pool as [poolName|]; simpl;
  try (repeat split; try assumption; try discriminate;
       rewrite ?lookup_insert_eq, ?lookup_insert_ne by discriminate;
       rewrite ?lookup_insert_eq, ?lookup_insert_ne by discriminate;
       rewrite ?lookup_insert_eq, ?lookup_insert_ne by discriminate;
       rewrite ?lookup_insert_eq, ?lookup_insert_ne by discriminate;
       rewrite ?lookup_empty; reflexivity).
Qed.

End solidfire_facts.

(** ** The SolidFire driver on the cluster API *)
Section solidfire_driver_facts.
Import solidfire.
Context {C : Type}.
Variable ListVolumesForAccount : Z -> C -> (string + list Volume) * C.
Variable DeleteVolume : Z -> C -> option string * C.
Variable DetachVolume : Volume -> C -> option string * C.
Variable ModifyVolume : ModifyVolumeRequest -> C -> option string * C.
Variable GetAccountByID : Z -> C -> (string + Account) * C.
Variable ListVolumeAccessGroups :
  Z -> Z -> C -> (string + list VolumeAccessGroup) * C.
Variable PrepareDeviceForRemoval : Z -> string -> C -> C.
Variable VolumeSizeWithinTolerance : Z -> Z -> string + bool.
Variable CheckVolumeSizeLimits : Z -> option string.
Variable OrchestratorAPIVersion : string.
Variable UnsetPool : string.
Variable d : SANStorageDriver.

Let listing := ApiListVolumesForAccount (drvAccountID d).

Lemma dbind_run {A B} (m : D A) (k : A -> D B) (w : Cluster C) :
  solidfire.bind m k w = k (fst (m w)) (snd (m w)).
Proof. unfold solidfire.bind. destruct (m w); reflexivity. Qed.

Lemma dcall_run {A} (c : ApiCall) (f : C -> A * C) (w : Cluster C) :
  solidfire.call c f w =
  (fst (f (client w)),
   {| client := snd (f (client w)); apiLog := apiLog w ++ [c] |}).
Proof. unfold solidfire.call. destruct (f (client w)); reflexivity. Qed.

Lemma filter_first {A} (f : A -> bool) (l : list A) v rest :
  List.filter f l = v :: rest ->
  exists before after,
    l = before ++ v :: after /\ f v = true
    /\ Forall (fun u => f u = false) before.
Proof.
  induction l as [|x l IH]; simpl; [discriminate|].
  destruct (f x) eqn:Hx.
  - intros Heq. inversion Heq; subst.
    exists [], l. repeat split; [exact Hx|constructor].
  - intros Heq. destruct (IH Heq) as (before & after & -> & Hv & Hall).
    exists (x :: before), after. repeat split; [exact Hv|].
    constructor; assumption.
Qed.

Lemma filter_none {A} (f : A -> bool) (l : list A) :
  List.filter f l = [] <-> Forall (fun u => f u = false) l.
Proof.
  induction l as [|x l IH]; simpl.
  - split; [constructor|reflexivity].
  - destruct (f x) eqn:Hx.
    + split; [discriminate|]. intros Hall. inversion Hall; congruence.
    + rewrite IH. split.
      * intros Hall. constructor; assumption.
      * intros Hall. inversion Hall; assumption.
Qed.

Lemma GetVolume_run (name : string) (w : Cluster C) :
  GetVolume ListVolumesForAccount d name w
  = (match fst (ListVolumesForAccount (drvAccountID d) (client w)) with
     | inl _ => inl "device reported API error"
     | inr volumes =>
         match List.filter (named d name) volumes with
         | [] => inl "volume not found"
         | v :: _ => inr v
         end
     end,
     {| client := snd (ListVolumesForAccount (drvAccountID d) (client w));
        apiLog := apiLog w ++ [listing] |}).
Proof.
  unfold GetVolume. rewrite dbind_run, dcall_run. simpl.
  destruct (fst (ListVolumesForAccount (drvAccountID d) (client w)))
    as [e|volumes]; [reflexivity|].
  destruct (List.filter (named d name) volumes); reflexivity.
Qed.

(** X15.  [GetVolume] answers with the first active volume of the account
    that goes by the name: one whose [docker-name] attribute is the name, or
    whose own name is the SolidFire form of the name, with or without the
    legacy prefix.  No volume ahead of it in the listing qualifies, a volume
    that is not active is never returned, and the cluster has been asked
    once, for the listing. *)
Theorem solidfire_GetVolume_first_active_match
  (name : string) (w : Cluster C) (v : Volume) :
  fst (GetVolume ListVolumesForAccount d name w) = inr v ->
  exists before after c',
    ListVolumesForAccount (drvAccountID d) (client w)
    = (inr (before ++ v :: after), c')
    /\ Forall (fun u => named d name u = false) before
    /\ Status v = "active"
    /\ (attr v "docker-name" = Some (AttrString name)
        \/ Name v = MakeSolidFireName (LegacyNamePrefix d +:+ name)
        \/ Name v = MakeSolidFireName name)
    /\ snd (GetVolume ListVolumesForAccount d name w)
       = {| client := c'; apiLog := apiLog w ++ [listing] |}.
Proof.
  rewrite GetVolume_run. simpl.
  destruct (ListVolumesForAccount (drvAccountID d) (client w))
    as [[e|volumes] c'] eqn:Hlist; simpl; [discriminate|].
  destruct (List.filter (named d name) volumes) as [|v0 rest] eqn:Hf;
    [discriminate|].
  intros Heq. inversion Heq; subst v0.
  destruct (filter_first _ _ _ _ Hf) as (before & after & -> & Hv & Hall).
  exists before, after, c'. split; [reflexivity|]. split; [exact Hall|].
  unfold named in Hv.
  destruct (String.eqb_spec (Status v) "active") as [Hact|Hact].
  - split; [exact Hact|]. split; [|reflexivity].
    destruct (bool_decide (attr v "docker-name" = Some (AttrString name)))
      eqn:Hattr.
    + left. apply bool_decide_eq_true in Hattr. exact Hattr.
    + simpl in Hv.
      destruct (String.eqb_spec (Name v)
                  (MakeSolidFireName (LegacyNamePrefix d +:+ name))); auto.
      destruct (String.eqb_spec (Name v) (MakeSolidFireName name)); auto.
      discriminate.
  - rewrite !andb_false_r in Hv. discriminate.
Qed.

(** X16.  [Destroy] is idempotent and deletes only what [GetVolume] found.
    When no active volume goes by the name, it succeeds after the listing
    alone.  When one does, the cluster is asked to delete that volume, by
    its id, exactly once, and the answer to that is the result; in the
    Docker context the device is first prepared for removal and detached,
    and a failed detach does not stop the delete.  A failed listing is
    reported and deletes nothing. *)
Theorem solidfire_Destroy_deletes_what_it_found
  (name : string) (w : Cluster C) :
  let r := Destroy ListVolumesForAccount DeleteVolume DetachVolume
             PrepareDeviceForRemoval d name w in
  let found := GetVolume ListVolumesForAccount d name w in
  match fst found with
  | inl e =>
      snd r = snd found
      /\ (fst r = None <-> e = "volume not found")
  | inr v =>
      let docker :=
        bool_decide (DriverContext_ (Config d) = ContextDocker) in
      apiLog (snd r)
      = apiLog w ++ [listing]
        ++ (if docker
            then [HostPrepareDeviceForRemoval 0 (Iqn v); ApiDetachVolume v]
            else [])
        ++ [ApiDeleteVolume (VolumeID v)]
      /\ exists c, (fst r, client (snd r)) = DeleteVolume (VolumeID v) c
  end.
Proof.
  intros r found. unfold r, found, Destroy.
  rewrite dbind_run.
  destruct (GetVolume ListVolumesForAccount d name w) as [[e|v] w1] eqn:Hg.
  - simpl. destruct (String.eqb_spec e "volume not found") as [->|Hne];
      simpl; split; try reflexivity; split; congruence.
  - simpl.
    assert (Hlog : apiLog w1 = apiLog w ++ [listing]).
    { rewrite GetVolume_run in Hg. inversion Hg; subst. reflexivity. }
    destruct (decide (DriverContext_ (Config d) = ContextDocker)) as [Hd|Hd].
    + rewrite (bool_decide_eq_true_2 _ Hd).
      rewrite !dbind_run, !dcall_run. simpl.
      destruct (DetachVolume v _) as [derr c2] eqn:Hdet. simpl.
      destruct (DeleteVolume (VolumeID v) c2) as [err c3] eqn:Hdel. simpl.
      split.
      * rewrite Hlog, <- !app_assoc. reflexivity.
      * exists c2. rewrite Hdel. reflexivity.
    + rewrite (bool_decide_eq_false_2 _ Hd).
      rewrite !dbind_run, !dcall_run. simpl.
      destruct (DeleteVolume (VolumeID v) (client w1)) as [err c3] eqn:Hdel.
      simpl. split.
      * rewrite Hlog, <- !app_assoc. reflexivity.
      * exists (client w1). rewrite Hdel. reflexivity.
Qed.

(** X17.  [Resize] never shrinks a volume.  Whatever it is asked, the
    cluster is asked to modify a volume at most once, after the listing; and
    when it is, the request is for the volume [GetVolume] found, whose id is
    not 0, and the size asked for is not below the size the volume has (as
    unsigned numbers); for sizes that fit an [int64] the new total size is
    at least the old one. *)
Theorem solidfire_Resize_never_shrinks
  (name : string) (sizeBytes : Z) (w : Cluster C) :
  let r := Resize ListVolumesForAccount ModifyVolume
             VolumeSizeWithinTolerance CheckVolumeSizeLimits d name
             sizeBytes w in
  apiLog (snd r) = apiLog w ++ [listing]
  \/ exists v req,
       fst (GetVolume ListVolumesForAccount d name w) = inr v
       /\ apiLog (snd r) = apiLog w ++ [listing; ApiModifyVolume req]
       /\ VolumeID v <> 0
       /\ modVolumeID req = VolumeID v
       /\ modAccountID req = AccountID v
       /\ modTotalSize req = int64 sizeBytes
       /\ uint64 (TotalSize v) <= sizeBytes
       /\ (0 <= TotalSize v < 2 ^ 63 -> sizeBytes < 2 ^ 63 ->
           TotalSize v <= modTotalSize req).
Proof.
  intros r. unfold r, Resize. rewrite dbind_run.
  destruct (GetVolume ListVolumesForAccount d name w) as [[e|v] w1] eqn:Hg;
    assert (Hlog : apiLog w1 = apiLog w ++ [listing])
      by (rewrite GetVolume_run in Hg; inversion Hg; subst; reflexivity);
    simpl.
  - left. exact Hlog.
  - destruct (Z.eqb_spec (VolumeID v) 0) as [Hz|Hnz]; [left; exact Hlog|].
    destruct (VolumeSizeWithinTolerance (int64 sizeBytes) (TotalSize v))
      as [e|[|]]; try (left; exact Hlog).
    destruct (Z.ltb_spec sizeBytes (uint64 (TotalSize v))) as [Hlt|Hge];
      [left; exact Hlog|].
    destruct (CheckVolumeSizeLimits sizeBytes); [left; exact Hlog|].
    right. rewrite dcall_run. simpl.
    eexists v, _. split; [reflexivity|].
    split; [rewrite Hlog, <- app_assoc; reflexivity|].
    simpl. repeat split; try assumption.
    intros Hpos Hfit. unfold uint64, int64 in *.
    rewrite Z.mod_small in Hge by lia.
    rewrite (Z.mod_small (sizeBytes + 2 ^ 63)) by lia. lia.
Qed.

(** X18.  [Publish] always publishes with CHAP.  When it succeeds, the
    publish info names the storage virtual IP as target portal, the IQN of
    the volume [GetVolume] found, LUN 0 and the initiator interface of the
    driver; it carries the user name and the initiator secret of the account
    of that volume; CHAP is on and the target is not shared; the file system
    is the [fstype] attribute of the volume when that is a string and [ext4]
    otherwise; and what it was handed about the host is unchanged. *)
Theorem solidfire_Publish_uses_CHAP
  (name : string) (publishInfo info' : utils.VolumePublishInfo)
  (w : Cluster C) :
  fst (Publish ListVolumesForAccount GetAccountByID d name publishInfo w)
  = (info', None) ->
  exists v account,
    fst (GetVolume ListVolumesForAccount d name w) = inr v
    /\ fst (GetAccountByID (AccountID v)
              (client (snd (GetVolume ListVolumesForAccount d name w))))
       = inr account
    /\ utils.UseCHAP info' = true
    /\ utils.SharedTarget info' = false
    /\ utils.FilesystemType info'
       = match attr v "fstype" with
         | Some (AttrString str) => str
         | _ => "ext4"
         end
    /\ utils.IscsiTargetPortal (utils.PublishAccessInfo info')
       = SVIP (Config d)
    /\ utils.IscsiTargetIQN (utils.PublishAccessInfo info') = Iqn v
    /\ utils.IscsiLunNumber (utils.PublishAccessInfo info') = 0
    /\ utils.IscsiInterface (utils.PublishAccessInfo info')
       = InitiatorIFace d
    /\ utils.IscsiUsername (utils.PublishAccessInfo info')
       = Username account
    /\ utils.IscsiInitiatorSecret (utils.PublishAccessInfo info')
       = InitiatorSecret account
    /\ utils.HostIQN info' = utils.HostIQN publishInfo
    /\ utils.HostName info' = utils.HostName publishInfo.
Proof.
  unfold Publish. rewrite dbind_run.
  destruct (GetVolume ListVolumesForAccount d name w) as [[e|v] w1];
    simpl; [discriminate|].
  rewrite dbind_run, dcall_run. simpl.
  destruct (GetAccountByID (AccountID v) (client w1))
    as [[e|account] c2] eqn:Hacc; simpl; [discriminate|].
  intros Heq. inversion Heq; subst info'.
  exists v, account. simpl. rewrite Hacc. repeat split.
Qed.

Lemma getVolumes_map (volumes : list Volume) :
  forall (volMap : gmap string Volume) key v,
    fold_left
      (fun volMap volume =>
         if negb (String.eqb (Status volume) "deleted")
         then <[dockerName d volume := volume]> volMap
         else volMap) volumes volMap !! key = Some v ->
    volMap !! key = Some v
    \/ (In v volumes /\ Status v <> "deleted" /\ key = dockerName d v).
Proof.
  induction volumes as [|x volumes IH]; intros volMap key v Hlook; simpl in *.
  - auto.
  - apply IH in Hlook as [Hlook|(Hin & Hst & Hkey)]; [|auto].
    destruct (String.eqb_spec (Status x) "deleted") as [Hdel|Hdel];
      simpl in Hlook; [auto|].
    destruct (decide (key = dockerName d x)) as [->|Hne].
    + rewrite lookup_insert_eq in Hlook. inversion Hlook; subst. auto.
    + rewrite lookup_insert_ne in Hlook by congruence. auto.
Qed.

Lemma getVolumes_covers (volumes : list Volume) :
  forall (volMap : gmap string Volume) x,
    In x volumes -> Status x <> "deleted" ->
    is_Some (fold_left
               (fun volMap volume =>
                  if negb (String.eqb (Status volume) "deleted")
                  then <[dockerName d volume := volume]> volMap
                  else volMap) volumes volMap !! dockerName d x).
Proof.
  assert (Hkeep : forall volumes (volMap : gmap string Volume) key,
            is_Some (volMap !! key) ->
            is_Some (fold_left
               (fun volMap volume =>
                  if negb (String.eqb (Status volume) "deleted")
                  then <[dockerName d volume := volume]> volMap
                  else volMap) volumes volMap !! key)).
  { induction volumes0 as [|y volumes0 IH]; intros volMap key Hs; simpl;
      [exact Hs|].
    apply IH. destruct (negb (String.eqb (Status y) "deleted")); [|exact Hs].
    destruct (decide (key = dockerName d y)) as [->|Hne].
    - rewrite lookup_insert_eq. eauto.
    - rewrite lookup_insert_ne by congruence. exact Hs. }
  induction volumes as [|y volumes IH]; intros volMap x Hin Hst; simpl in *;
    [contradiction|].
  destruct Hin as [->|Hin].
  - apply Hkeep.
    destruct (String.eqb_spec (Status x) "deleted"); [contradiction|].
    simpl. rewrite lookup_insert_eq. eauto.
  - apply IH; assumption.
Qed.

Lemma san_sent_shape (w : Cluster C) :
  let sent := fst (GetVolumeExternalWrappers ListVolumesForAccount
                     OrchestratorAPIVersion UnsetPool d w) in
  match fst (ListVolumesForAccount (drvAccountID d) (client w)) with
  | inl e => sent = [(None, Some e)]
  | inr volumes =>
      Forall
        (fun p =>
           snd p = None
           /\ exists v,
                In v volumes /\ Status v <> "deleted"
                /\ fst p = Some (getVolumeExternal OrchestratorAPIVersion
                                   UnsetPool (dockerName d v) v))
        sent
  end.
Proof.
  intros sent. unfold sent, GetVolumeExternalWrappers, getVolumes.
  rewrite !dbind_run, dcall_run. simpl.
  destruct (ListVolumesForAccount (drvAccountID d) (client w))
    as [[e|volumes] c'] eqn:Hlist; simpl; [reflexivity|].
  apply List.Forall_forall. intros p Hp.
  apply in_map_iff in Hp as ([key v] & <- & Hkv).
  apply list_elem_of_In, elem_of_map_to_list in Hkv.
  apply getVolumes_map in Hkv as [Hkv|(Hin & Hst & ->)];
    [rewrite lookup_empty in Hkv; discriminate|].
  simpl. split; [reflexivity|]. exists v. repeat split; assumption.
Qed.

(** X19.  What the driver writes to the channel of
    [GetVolumeExternalWrappers].  If the listing fails, one wrapper with the
    error and no volume.  Otherwise no wrapper carries an error, every
    wrapper carries a volume, and that volume is a Block volume with access
    mode ReadWriteOnce made from a listed volume that is not deleted, under
    the name [getVolumes] files it by; and every listed volume that is not
    deleted has its name among the wrappers.  A nil volume is only ever sent
    together with an error. *)
Theorem solidfire_GetVolumeExternalWrappers_shape (w : Cluster C) :
  let sent := fst (GetVolumeExternalWrappers ListVolumesForAccount
                     OrchestratorAPIVersion UnsetPool d w) in
  Forall (fun p => fst p = None -> snd p <> None) sent
  /\ match fst (ListVolumesForAccount (drvAccountID d) (client w)) with
     | inl e => sent = [(None, Some e)]
     | inr volumes =>
         Forall
           (fun p =>
              snd p = None
              /\ exists v ext,
                   In v volumes /\ Status v <> "deleted"
                   /\ fst p = Some ext
                   /\ ext = getVolumeExternal OrchestratorAPIVersion
                              UnsetPool (dockerName d v) v
                   /\ storagefull.Protocol (storagefull.Config ext)
                      = tridentconfig.Block
                   /\ storagefull.AccessMode (storagefull.Config ext)
                      = tridentconfig.ReadWriteOnce)
           sent
         /\ forall v, In v volumes -> Status v <> "deleted" ->
              exists ext,
                In (Some ext, None) sent
                /\ storagefull.Name (storagefull.Config ext)
                   = dockerName d v
     end.
Proof.
  intros sent. pose proof (san_sent_shape w) as Hshape.
  cbv zeta in Hshape. fold sent in Hshape.
  destruct (fst (ListVolumesForAccount (drvAccountID d) (client w)))
    as [e|volumes] eqn:Hlist.
  - rewrite Hshape. split; [|reflexivity].
    repeat constructor. simpl. discriminate.
  - split; [|split].
    + eapply Forall_impl; [exact Hshape|].
      intros p (_ & v & _ & _ & Hp) Hnone. congruence.
    + eapply Forall_impl; [exact Hshape|].
      intros p (Herr & v & Hin & Hst & Hp). split; [exact Herr|].
      exists v. eexists. repeat split; eassumption.
    + intros v Hin Hst.
      destruct (getVolumes_covers volumes ∅ v Hin Hst) as [u Hu].
      exists (getVolumeExternal OrchestratorAPIVersion UnsetPool
                (dockerName d v) u).
      split; [|reflexivity].
      unfold sent, GetVolumeExternalWrappers, getVolumes.
      rewrite !dbind_run, dcall_run. simpl.
      destruct (ListVolumesForAccount (drvAccountID d) (client w))
        as [[e|volumes'] c']; simpl in *; [discriminate|].
      inversion Hlist; subst volumes'.
      apply in_map_iff. exists (dockerName d v, u). split; [reflexivity|].
      apply list_elem_of_In, elem_of_map_to_list. exact Hu.
Qed.

(** X20.  [VerifyVags] returns the configured access groups the cluster does
    not list: when the cluster answers, the result holds exactly the given
    ids that are the id of no listed group, and it is empty exactly when
    every given id is listed. *)
Theorem solidfire_VerifyVags_missing_groups
  (vags : list Z) (w : Cluster C) :
  let r := VerifyVags ListVolumeAccessGroups vags w in
  apiLog (snd r) = apiLog w ++ [ApiListVolumeAccessGroups 0 0]
  /\ match fst (ListVolumeAccessGroups 0 0 (client w)) with
     | inl _ => exists m, fst r = inl m
     | inr discovered =>
         exists missing,
           fst r = inr missing
           /\ (forall x, In x missing <->
                  In x vags /\ ~ In x (map VAGID discovered))
           /\ (missing = [] <->
               forall x, In x vags -> In x (map VAGID discovered))
     end.
Proof.
  intros r. unfold r, VerifyVags. rewrite dbind_run, dcall_run. simpl.
  destruct (ListVolumeAccessGroups 0 0 (client w)) as [[e|discovered] c'];
    simpl.
  - split; [reflexivity|]. eexists; reflexivity.
  - split; [reflexivity|]. eexists. split; [reflexivity|].
    assert (Hmem : forall x l, existsb (Z.eqb x) l = true <-> In x l).
    { intros x l. rewrite existsb_exists. split.
      - intros (y & Hy & Heq). apply Z.eqb_eq in Heq. subst. exact Hy.
      - intros Hin. exists x. split; [exact Hin|apply Z.eqb_refl]. }
    rewrite diffSlices_filter. split.
    + intros x. rewrite List.filter_In, negb_true_iff,
        <- not_true_iff_false, Hmem. reflexivity.
    + rewrite filter_none, List.Forall_forall. split.
      * intros Hall x Hx. specialize (Hall x Hx).
        apply negb_false_iff in Hall. apply Hmem. exact Hall.
      * intros Hall x Hx. apply negb_false_iff, Hmem. auto.
Qed.

End solidfire_driver_facts.

Section solidfire_config_facts.
Import solidfire.
Variable ConvertSizeToBytes : string -> string + string.
Variable DefaultVolumeSize : string.

(** X14.  [populateConfigurationDefaults] forces CHAP where the plugin
    cannot manage access groups.  It fails only on a default size that is
    given and does not convert.  Otherwise the storage prefix is empty, the
    default size is the one given or the built-in default, CHAP is on in the
    Docker and CSI contexts whatever the file said, CHAP is never switched
    off, and nothing else is changed. *)
Theorem solidfire_defaults_force_CHAP (config : SolidfireStorageDriverConfig) :
  match populateConfigurationDefaults ConvertSizeToBytes DefaultVolumeSize
          config with
  | inl _ =>
      Size config <> ""
      /\ exists e, ConvertSizeToBytes (Size config) = inl e
  | inr config' =>
      StoragePrefix config' = Some ""
      /\ Size config'
         = (if String.eqb (Size config) "" then DefaultVolumeSize
            else Size config)
      /\ (DriverContext_ config = ContextDocker
          \/ DriverContext_ config = ContextCSI -> UseCHAP config' = true)
      /\ (UseCHAP config = true -> UseCHAP config' = true)
      /\ (DriverContext_ config <> ContextDocker ->
          DriverContext_ config <> ContextCSI ->
          UseCHAP config' = UseCHAP config)
      /\ DriverContext_ config' = DriverContext_ config
      /\ cfgAccessGroups config' = cfgAccessGroups config
      /\ SVIP config' = SVIP config /\ EndPoint config' = EndPoint config
      /\ TenantName config' = TenantName config
  end.
Proof.
  unfold populateConfigurationDefaults.
  destruct (String.eqb_spec (Size config) "") as [Hs|Hs].
  - simpl. repeat split.
    + intros [Hc|Hc]; rewrite Hc; destruct (UseCHAP config); reflexivity.
    + intros Hc. rewrite Hc. destruct (DriverContext_ config); reflexivity.
    + intros H1 H2. destruct (DriverContext_ config); congruence.
  - destruct (ConvertSizeToBytes (Size config)) as [e|bytes] eqn:Hconv.
    + split; [exact Hs|]. exists e. reflexivity.
    + simpl. repeat split.
      * intros [Hc|Hc]; rewrite Hc; destruct (UseCHAP config); reflexivity.
      * intros Hc. rewrite Hc. destruct (DriverContext_ config); reflexivity.
      * intros H1 H2. destruct (DriverContext_ config); congruence.
Qed.

End solidfire_config_facts.

(** ** The ONTAP NAS driver *)
Section ontap_facts.
Import ontap.

(** X21.  How [getVolumeExternal] names a discovered volume.  Of the
    pointers it follows itself, it fails on a nil storage prefix or a nil
    security block and on nothing else.  Otherwise the internal name is the
    name of the flexvol, and the name is the internal name without the
    storage prefix when it starts with it: a volume created as prefix plus
    name is discovered under that name again, and a volume that lacks the
    prefix keeps its full name.  The volume is a File volume with access
    mode ReadWriteMany, placed in the aggregate that holds it. *)
Theorem ontap_getVolumeExternal_strips_prefix
  (version : string) (d : NASStorageDriver) (volumeAttrs : VolumeAttributes) :
  match getVolumeExternal version d volumeAttrs with
  | None =>
      StoragePrefix (Config d) = None
      \/ VolumeSecurityAttributesPtr volumeAttrs = None
  | Some ext =>
      let config := storagefull.Config ext in
      exists prefix,
        StoragePrefix (Config d) = Some prefix
        /\ storagefull.InternalName config = vaName volumeAttrs
        /\ (forall name, vaName volumeAttrs = prefix +:+ name ->
                         storagefull.Name config = name)
        /\ (gostrings.HasPrefix (vaName volumeAttrs) prefix = false ->
            storagefull.Name config = vaName volumeAttrs)
        /\ (storagefull.Name config = storagefull.InternalName config
            \/ prefix +:+ storagefull.Name config
               = storagefull.InternalName config)
        /\ storagefull.Protocol config = tridentconfig.File
        /\ storagefull.AccessMode config = tridentconfig.ReadWriteMany
        /\ storagefull.Pool ext = ContainingAggregateName volumeAttrs
  end.
Proof.
  unfold getVolumeExternal.
  destruct (VolumeSecurityAttributesPtr volumeAttrs) as [permissions|];
    [|auto].
  destruct (StoragePrefix (Config d)) as [prefix|]; [|auto].
  exists prefix. simpl. split; [reflexivity|]. split; [reflexivity|].
  split; [|split; [|split]].
  - intros name ->. rewrite HasPrefix_app. apply from_app.
  - intros ->. reflexivity.
  - destruct (gostrings.HasPrefix (vaName volumeAttrs) prefix) eqn:Hp.
    + right. apply HasPrefix_from. exact Hp.
    + left. reflexivity.
  - repeat split.
Qed.

(** X22.  [GetUpdateType] flags exactly what changed among the three
    settings it compares.  Against a driver of another kind the update is
    invalid and nothing else is flagged.  Against an ONTAP NAS driver, a
    flag is raised for the data LIF, the password and the user name each
    exactly when it differs; the bitmap is empty exactly when all three are
    the same, so a change to any other setting goes unflagged. *)
Theorem ontap_GetUpdateType_flags (d : NASStorageDriver)
  (driverOrig : option NASStorageDriver) :
  let bitmap := GetUpdateType d driverOrig in
  (In InvalidUpdate bitmap <-> driverOrig = None)
  /\ (driverOrig = None -> bitmap = [InvalidUpdate])
  /\ (forall dOrig, driverOrig = Some dOrig ->
        (In VolumeAccessInfoChange bitmap
         <-> DataLIF (Config d) <> DataLIF (Config dOrig))
        /\ (In PasswordChange bitmap
            <-> Password (Config d) <> Password (Config dOrig))
        /\ (In UsernameChange bitmap
            <-> Username (Config d) <> Username (Config dOrig))
        /\ (bitmap = [] <->
            DataLIF (Config d) = DataLIF (Config dOrig)
            /\ Password (Config d) = Password (Config dOrig)
            /\ Username (Config d) = Username (Config dOrig)))
  /\ NoDup bitmap.
Proof.
  intros bitmap. unfold bitmap, GetUpdateType.
  destruct driverOrig as [dOrig|].
  - destruct (String.eqb_spec (DataLIF (Config d)) (DataLIF (Config dOrig)));
    destruct (String.eqb_spec (Password (Config d))
                (Password (Config dOrig)));
    destruct (String.eqb_spec (Username (Config d))
                (Username (Config dOrig)));
    simpl.
    all: split; [split; [intuition discriminate | discriminate]|].
    all: split; [discriminate|].
    all: split; [|apply (bool_decide_unpack _); vm_compute; exact I].
    all: intros dOrig' Heq; inversion Heq; subst dOrig'.
    all: repeat split; intros;
           try discriminate; try congruence; try tauto;
           intuition (try discriminate; try congruence).
  - simpl. split; [split; auto|]. split; [reflexivity|].
    split; [discriminate|].
    apply (bool_decide_unpack _); vm_compute; exact I.
Qed.

End ontap_facts.

Section ontap_driver_facts.
Import ontap.
Context {C : Type}.
Variable VolumeGetAll :
  string -> C -> (string + option (list VolumeAttributes)) * C.
Variable VolumeDestroy : string -> bool -> C -> (string + ZapiError) * C.
Variable EVOLUMEDOESNOTEXIST : string.
Variable OrchestratorAPIVersion : string.
Variable d : NASStorageDriver.

Lemma wrapAll_shape (volumes : list VolumeAttributes) :
  Forall
    (fun p =>
       snd p = None
       /\ exists a ext,
            In a volumes
            /\ getVolumeExternal OrchestratorAPIVersion d a = Some ext
            /\ fst p = Some ext)
    (fst (wrapAll OrchestratorAPIVersion d volumes)).
Proof.
  induction volumes as [|a rest IH]; simpl; [constructor|].
  destruct (getVolumeExternal OrchestratorAPIVersion d a) as [ext|] eqn:Hext;
    [|constructor].
  destruct (wrapAll OrchestratorAPIVersion d rest) as [sent panicked].
  simpl in *. constructor.
  - simpl. split; [reflexivity|]. exists a, ext. auto.
  - eapply Forall_impl; [exact IH|].
    intros p (Herr & a' & ext' & Hin & Hext' & Hp).
    split; [exact Herr|]. exists a', ext'. auto.
Qed.

Lemma nas_sent_shape (w : C * list ApiCall) :
  Forall
    (fun p =>
       (fst p = None /\ snd p <> None)
       \/ (snd p = None
           /\ exists a ext,
                getVolumeExternal OrchestratorAPIVersion d a = Some ext
                /\ fst p = Some ext))
    (fst (fst (GetVolumeExternalWrappers VolumeGetAll OrchestratorAPIVersion
                 d w))).
Proof.
  unfold GetVolumeExternalWrappers.
  destruct (StoragePrefix (Config d)) as [prefix|]; [|constructor].
  destruct (VolumeGetAll prefix (fst w)) as [[e|[volumes|]] c']; simpl.
  - repeat constructor. simpl. discriminate.
  - eapply Forall_impl; [apply wrapAll_shape|].
    intros p (Herr & a & ext & _ & Hext & Hp). right.
    split; [exact Herr|]. exists a, ext. auto.
  - constructor.
Qed.

(** X23.  [Destroy] is idempotent towards its caller: it asks the controller
    once to destroy the volume, by force, and succeeds when the ZAPI call
    passed or failed only because the volume does not exist; every other
    answer is an error. *)
Theorem ontap_Destroy_tolerates_missing_volume
  (name : string) (w : C * list ApiCall) :
  let r := Destroy VolumeDestroy EVOLUMEDOESNOTEXIST name w in
  snd (snd r) = snd w ++ [ApiVolumeDestroy name true]
  /\ fst (snd r) = snd (VolumeDestroy name true (fst w))
  /\ (fst r = None <->
      exists zerr,
        fst (VolumeDestroy name true (fst w)) = inr zerr
        /\ (IsPassed zerr = true \/ Code zerr = EVOLUMEDOESNOTEXIST)).
Proof.
  intros r. unfold r, Destroy.
  destruct (VolumeDestroy name true (fst w)) as [[e|zerr] c'] eqn:Hd; simpl.
  - repeat split; try discriminate. intros (z & Hz & _). discriminate.
  - destruct (IsPassed zerr) eqn:Hp; simpl.
    + repeat split; eauto.
    + destruct (String.eqb_spec (Code zerr) EVOLUMEDOESNOTEXIST) as [Hc|Hc];
        simpl.
      * repeat split; eauto.
      * repeat split; try discriminate.
        intros (z & Hz & [Hpass|Hcode]); inversion Hz; subst; congruence.
Qed.

End ontap_driver_facts.

(** ** Discovered volumes on their way to the frontends *)
Section discovery_facts.
Import tridentconfig csi.

(** X7.  A discovered volume is listed with its size and under its name.
    For sizes that are [int64] values, the CSI volume made from a volume
    that the SolidFire or the ONTAP NAS driver reports has the size the
    storage system reports as its capacity: printing the size and reading it
    back loses nothing.  Its id is the name the driver gave the volume, and
    the context names the protocol of the driver and the internal name. *)
Theorem csi_lists_discovered_volumes
  (version pool name : string) (v : solidfire.Volume)
  (d : ontap.NASStorageDriver) (a : ontap.VolumeAttributes)
  (ext : storagefull.VolumeExternal) :
  strconv.minInt64 <= solidfire.TotalSize v <= strconv.maxInt64 ->
  strconv.minInt64 <= ontap.vaSize a <= strconv.maxInt64 ->
  ontap.getVolumeExternal version d a = Some ext ->
  let san :=
    getCSIVolumeFromTridentVolume
      (storagefull.view (solidfire.getVolumeExternal version pool name v)) in
  let nas := getCSIVolumeFromTridentVolume (storagefull.view ext) in
  CapacityBytes san = solidfire.TotalSize v
  /\ VolumeId san = name
  /\ VolumeContext san !! "protocol" = Some "block"
  /\ VolumeContext san !! "internalName" = Some (solidfire.Name v)
  /\ CapacityBytes nas = ontap.vaSize a
  /\ VolumeId nas = storagefull.Name (storagefull.Config ext)
  /\ VolumeContext nas !! "protocol" = Some "file"
  /\ VolumeContext nas !! "internalName" = Some (ontap.vaName a).
Proof.
  intros Hv Ha Hext san nas.
  unfold ontap.getVolumeExternal in Hext.
  destruct (ontap.VolumeSecurityAttributesPtr a); [|discriminate].
  destruct (ontap.StoragePrefix (ontap.Config d)); [|discriminate].
  inversion Hext; subst ext. clear Hext.
  unfold san, nas, getCSIVolumeFromTridentVolume. simpl.
  rewrite !ParseInt_FormatInt by assumption. simpl.
  repeat split;
    rewrite ?lookup_insert_ne by discriminate; apply lookup_insert_eq.
Qed.

End discovery_facts.

Section drivers_behind_passthrough.
Import tridentconfig storage persistentstore.
Context {C1 C2 : Type}.
Variable ListVolumesForAccount :
  Z -> C1 -> (string + list solidfire.Volume) * C1.
Variable VolumeGetAll :
  string -> C2 -> (string + option (list ontap.VolumeAttributes)) * C2.
Variable OrchestratorAPIVersion : string.
Variable UnsetPool : string.

(** X24.  The passthrough store in front of the two drivers.  When every
    live backend is driven by the SolidFire driver or by the ONTAP NAS
    driver, [GetVolumes] never returns a nil volume, whatever the order of
    delivery: the drivers send a nil volume only together with an error, and
    such a wrapper is skipped.  Every volume returned is a Block volume with
    access mode ReadWriteOnce or a File volume with access mode
    ReadWriteMany, and carries the name of a live backend. *)
Theorem passthrough_GetVolumes_from_drivers
  (sched : list nat) (c : PassthroughClient) :
  (forall key b, liveBackends c !! key = Some b ->
     (exists d w,
        DriverWrappers b
        = map passthrough.wrapper
            (fst (solidfire.GetVolumeExternalWrappers ListVolumesForAccount
                    OrchestratorAPIVersion UnsetPool d w)))
     \/ (exists d w,
           DriverWrappers b
           = map passthrough.wrapper
               (fst (fst (ontap.GetVolumeExternalWrappers VolumeGetAll
                            OrchestratorAPIVersion d w))))) ->
  Forall
    (fun returned =>
       exists v,
         returned = Some v
         /\ ((Protocol (Config v) = Block
              /\ AccessMode (Config v) = ReadWriteOnce)
             \/ (Protocol (Config v) = File
                 /\ AccessMode (Config v) = ReadWriteMany))
         /\ exists key b,
              liveBackends c !! key = Some b /\ storage.Backend v = Name b)
    (fst (GetVolumes sched c)).
Proof.
  intros Hdriven.
  assert (Hperm : Permutation (fst (GetVolumes sched c))
            (concat (map (fun kv => reportedVolumes (snd kv))
                       (map_to_list (liveBackends c))))).
  { unfold GetVolumes. simpl. rewrite collect_filter. simpl.
    rewrite <- received_sequential.
    apply Permutation_map, filter_Permutation, deliver_Permutation. }
  apply List.Forall_forall. intros returned Hin.
  apply (Permutation_in _ Hperm) in Hin.
  apply in_concat in Hin as (l & Hl & Hr).
  apply in_map_iff in Hl as ([key b] & <- & Hkv).
  apply list_elem_of_In, elem_of_map_to_list in Hkv.
  unfold reportedVolumes in Hr. simpl in Hr.
  apply in_map_iff in Hr as (wr & Hwr & Hf).
  apply List.filter_In in Hf as [Hwin Herr].
  apply bool_decide_eq_true in Herr.
  destruct (Hdriven key b Hkv) as [(d & w & Hb)|(d & w & Hb)];
    rewrite Hb in Hwin; apply in_map_iff in Hwin as (p & <- & Hp).
  - pose proof (san_sent_shape ListVolumesForAccount OrchestratorAPIVersion
                  UnsetPool d w) as Hshape.
    cbv zeta in Hshape.
    destruct (fst (ListVolumesForAccount (solidfire.drvAccountID d)
                     (solidfire.client w))) as [e|volumes].
    + rewrite Hshape in Hp. destruct Hp as [<-|[]]. discriminate.
    + rewrite List.Forall_forall in Hshape.
      destruct (Hshape p Hp) as (_ & v & _ & _ & Hfst).
      unfold passthrough.wrapper in Hwr. rewrite Hfst in Hwr.
      simpl in Hwr. subst returned.
      eexists. split; [reflexivity|]. split; [left; split; reflexivity|].
      exists key, b. split; [exact Hkv|reflexivity].
  - pose proof (nas_sent_shape VolumeGetAll OrchestratorAPIVersion d w)
      as Hshape.
    rewrite List.Forall_forall in Hshape.
    destruct (Hshape p Hp) as [[_ Hne]|(_ & a & ext & Hext & Hfst)].
    + unfold passthrough.wrapper in Herr. simpl in Herr. contradiction.
    + unfold passthrough.wrapper in Hwr. rewrite Hfst in Hwr.
      simpl in Hwr. subst returned.
      unfold ontap.getVolumeExternal in Hext.
      destruct (ontap.VolumeSecurityAttributesPtr a); [|discriminate].
      destruct (ontap.StoragePrefix (ontap.Config d)); [|discriminate].
      inversion Hext; subst ext.
      eexists. split; [reflexivity|]. split; [right; split; reflexivity|].
      exists key, b. split; [exact Hkv|reflexivity].
Qed.

End drivers_behind_passthrough.

(** ** The passthrough client: backends and what is not kept *)
Section passthrough_more_facts.
Import storage persistentstore.

Lemma run_op_keys (op : BackendOp) (c : PassthroughClient) :
  (forall key b, liveBackends c !! key = Some b -> Name b = key) ->
  forall key b, liveBackends (run_op op c) !! key = Some b -> Name b = key.
Proof.
  intros Hinv key b.
  destruct op as [x|x|x|]; simpl.
  - destruct (decide (key = Name x)) as [->|Hne].
    + rewrite lookup_insert_eq. congruence.
    + rewrite lookup_insert_ne by congruence. apply Hinv.
  - unfold UpdateBackend. destruct (liveBackends c !! Name x); simpl;
      [|apply Hinv].
    destruct (decide (key = Name x)) as [->|Hne].
    + rewrite lookup_insert_eq. congruence.
    + rewrite lookup_insert_ne by congruence. apply Hinv.
  - unfold DeleteBackend. destruct (liveBackends c !! Name x); simpl;
      [|apply Hinv].
    destruct (decide (key = Name x)) as [->|Hne].
    + rewrite lookup_delete_eq. discriminate.
    + rewrite lookup_delete_ne by congruence. apply Hinv.
  - rewrite lookup_empty. discriminate.
Qed.

(** X25.  The live backends are filed under their own names.  On a client
    whose live backends have been cleared ([DeleteBackends], as after [Stop]
    or at creation), whatever sequence of backend writes follows, every live
    backend sits under the key that is its name: two live backends never
    share a name, and [GetVolumes] stamps volumes with the key their backend
    is filed under. *)
Theorem passthrough_live_backends_by_name
  (ops : list BackendOp) (c : PassthroughClient) :
  let c' := run_ops ops (snd (DeleteBackends c)) in
  (forall key b, liveBackends c' !! key = Some b -> Name b = key)
  /\ (forall key1 key2 b1 b2,
        liveBackends c' !! key1 = Some b1 ->
        liveBackends c' !! key2 = Some b2 ->
        Name b1 = Name b2 -> key1 = key2 /\ b1 = b2)
  /\ bootBackends c' = bootBackends c.
Proof.
  intros c'.
  assert (Hinv : forall key b,
            liveBackends c' !! key = Some b -> Name b = key).
  { unfold c', run_ops.
    assert (Hgen : forall ops c0,
              (forall key b, liveBackends c0 !! key = Some b -> Name b = key) ->
              forall key b,
                liveBackends (fold_left (fun c op => run_op op c) ops c0)
                  !! key = Some b -> Name b = key).
    { induction ops0 as [|op ops0 IH]; intros c0 H0; simpl; [exact H0|].
      apply IH. apply run_op_keys. exact H0. }
    apply Hgen. simpl. intros key b Hl. rewrite lookup_empty in Hl.
    discriminate. }
  split; [exact Hinv|]. split.
  - intros key1 key2 b1 b2 H1 H2 Hname.
    pose proof (Hinv _ _ H1) as Hk1. pose proof (Hinv _ _ H2) as Hk2.
    assert (Hk : key1 = key2) by congruence.
    split; [exact Hk|]. rewrite Hk in H1. congruence.
  - unfold c'. rewrite run_ops_bootBackends. reflexivity.
Qed.

(** X26.  Writing a backend.  [AddBackend] always succeeds.  [UpdateBackend]
    and [DeleteBackend] succeed exactly when a backend of that name is live,
    and otherwise report KeyNotFound for the name and change nothing; an
    update never adds a name.  Adding a backend whose name is not live and
    deleting it again gives back the client as it was. *)
Theorem passthrough_backend_writes_need_the_name
  (backend : Backend) (c : PassthroughClient) :
  fst (AddBackend backend c) = None
  /\ liveBackends (snd (AddBackend backend c)) !! Name backend = Some backend
  /\ (fst (UpdateBackend backend c) = None
      <-> is_Some (liveBackends c !! Name backend))
  /\ (fst (DeleteBackend backend c) = None
      <-> is_Some (liveBackends c !! Name backend))
  /\ (liveBackends c !! Name backend = None ->
      UpdateBackend backend c
      = (Some (NewPersistentStoreError KeyNotFoundErr (Name backend)), c)
      /\ DeleteBackend backend c
         = (Some (NewPersistentStoreError KeyNotFoundErr (Name backend)), c)
      /\ snd (DeleteBackend backend (snd (AddBackend backend c))) = c)
  /\ (forall key,
        is_Some (liveBackends (snd (UpdateBackend backend c)) !! key)
        <-> is_Some (liveBackends c !! key))
  /\ liveBackends (snd (DeleteBackend backend c)) !! Name backend = None.
Proof.
  unfold AddBackend, UpdateBackend, DeleteBackend. simpl.
  split; [reflexivity|]. split; [apply lookup_insert_eq|].
  destruct (liveBackends c !! Name backend) as [old|] eqn:Hold; simpl.
  - split; [split; eauto|]. split; [split; eauto|].
    split; [discriminate|]. split.
    + intros key. destruct (decide (key = Name backend)) as [->|Hne].
      * rewrite lookup_insert_eq, Hold. split; eauto.
      * rewrite lookup_insert_ne by congruence. reflexivity.
    + apply lookup_delete_eq.
  - split; [split; [discriminate|intros [x Hx]; discriminate]|].
    split; [split; [discriminate|intros [x Hx]; discriminate]|].
    split.
    + intros _. split; [reflexivity|]. split; [reflexivity|].
      rewrite lookup_insert_eq. simpl.
      rewrite delete_insert_id by exact Hold.
      destruct c; reflexivity.
    + split; [reflexivity|exact Hold].
Qed.

(** [Stop] is the one operation that forgets the boot backends.  After
    [Stop] the client lists no backend and finds no volume;
    [DeleteBackends] empties the live backends alone, so [GetVolumes]
    finds nothing while [GetBackends] answers as before. *)
Theorem passthrough_Stop_forgets_everything
  (sched : list nat) (c : PassthroughClient) :
  fst (Stop c) = None
  /\ GetBackends (snd (Stop c)) = ([], None)
  /\ GetVolumes sched (snd (Stop c)) = ([], None)
  /\ fst (DeleteBackends c) = None
  /\ GetVolumes sched (snd (DeleteBackends c)) = ([], None)
  /\ GetBackends (snd (DeleteBackends c)) = GetBackends c.
Proof.
  assert (Hempty : forall c0 : PassthroughClient,
            liveBackends c0 = ∅ -> GetVolumes sched c0 = ([], None)).
  { intros c0 Hlive. unfold GetVolumes, producers_of.
    rewrite Hlive, map_to_list_empty. simpl.
    assert (Hd : forall s, deliver (A := VolumeExternalWrapper) s [] = []).
    { induction s as [|i s IH]; simpl; [reflexivity|exact IH]. }
    rewrite Hd. reflexivity. }
  split; [reflexivity|]. split; [reflexivity|].
  split; [apply Hempty; reflexivity|]. split; [reflexivity|].
  split; [apply Hempty; reflexivity|].
  rewrite !GetBackends_bootBackends. reflexivity.
Qed.

Section Records.
Context {Volume VolumeTransaction StorageClass Node : Type}.

(** X27.  The passthrough client keeps no records.  Whatever volumes,
    transactions, storage classes and nodes are written or deleted, in
    whatever order, every call reports success and the client is as it was;
    and afterwards, as before, no volume, storage class or node is found
    under any name and the lists of transactions, storage classes and nodes
    are empty. *)
Theorem passthrough_keeps_no_records
  (ops : list (passthrough.RecordOp (Volume := Volume)
                 (VolumeTransaction := VolumeTransaction)
                 (StorageClass := StorageClass) (Node := Node)))
  (c : PassthroughClient) (name : string) (volTxn : VolumeTransaction) :
  let c' := fold_left (fun c op => snd (passthrough.run_record_op op c))
              ops c in
  c' = c
  /\ Forall (fun op => forall c0,
               fst (passthrough.run_record_op op c0) = None) ops
  /\ passthrough.GetVolume name c'
     = (None, Some (NewPersistentStoreError KeyNotFoundErr name))
  /\ passthrough.GetStorageClass (StorageClass := StorageClass) name c'
     = (None, Some (NewPersistentStoreError KeyNotFoundErr name))
  /\ passthrough.GetNode (Node := Node) name c'
     = (None, Some (NewPersistentStoreError KeyNotFoundErr name))
  /\ passthrough.GetVolumeTransactions
       (VolumeTransaction := VolumeTransaction) c' = ([], None)
  /\ passthrough.GetExistingVolumeTransaction volTxn c' = (None, None)
  /\ passthrough.GetStorageClasses (StorageClass := StorageClass) c'
     = ([], None)
  /\ passthrough.GetNodes (Node := Node) c' = ([], None).
Proof.
  intros c'. split.
  - unfold c'. induction ops as [|op ops IH]; simpl; [reflexivity|].
    destruct op; simpl; exact IH.
  - split; [|repeat split].
    apply List.Forall_forall. intros op _ c0. destruct op; reflexivity.
Qed.

End Records.
End passthrough_more_facts.

Section passthrough_boot_facts.
Import persistentstore.
Variable Stat : string -> StatResult.
Variable ReadDir : string -> string + list (string * bool).
Variable ReadFile : string -> option string.
Variable Join : string -> string -> string.
Variable YAMLToJSON : string -> string + string.
Variable ValidateCommonSettings : string -> string + StorageDriverName.
Variable OrchestratorAPIVersion : string.
Variable jsonUnmarshal : string -> string -> option string.

Let parse :=
  parseBackend ReadFile YAMLToJSON ValidateCommonSettings
    OrchestratorAPIVersion jsonUnmarshal.

Lemma parseBackend_online path b :
  parse path = Some b ->
  bpState b = Online /\ bpName b = ""
  /\ bpVersion b = OrchestratorAPIVersion
  /\ In (bpConfigType b)
       ["ontap_config"; "solidfire_config"; "eseries_config"; "aws_config";
        "fake_config"].
Proof.
  unfold parse, parseBackend, unmarshalConfig.
  destruct (ReadFile path) as [contents|]; [|discriminate].
  destruct (YAMLToJSON contents) as [e|configJSON]; [discriminate|].
  destruct (ValidateCommonSettings configJSON) as [e|name]; [discriminate|].
  destruct name; simpl; try discriminate;
    match goal with
    | |- context [jsonUnmarshal ?t ?c] =>
        destruct (jsonUnmarshal t c); [|discriminate]
    end;
    intros Heq; inversion Heq; subst; simpl; repeat split; tauto.
Qed.

(** X28.  What the passthrough client boots with.  A client that
    [NewPassthroughClient] returns was given a config path; it has no live
    backend yet; and each of its boot backends is Online, has no name,
    carries the API version of the orchestrator, and holds its driver config
    under one of the five known config types, the four ONTAP drivers sharing
    one. *)
Theorem passthrough_boot_backends_are_online
  (configPath : string) (c : PassthroughClient) :
  NewPassthroughClient Stat ReadDir ReadFile Join YAMLToJSON
    ValidateCommonSettings OrchestratorAPIVersion jsonUnmarshal configPath
  = Loaded c ->
  configPath <> ""
  /\ liveBackends c = ∅
  /\ Forall
       (fun b =>
          bpState b = Online /\ bpName b = ""
          /\ bpVersion b = OrchestratorAPIVersion
          /\ In (bpConfigType b)
               ["ontap_config"; "solidfire_config"; "eseries_config";
                "aws_config"; "fake_config"])
       (bootBackends c).
Proof.
  unfold NewPassthroughClient, initialize.
  destruct (decide (configPath = "")) as [|Hpath]; [discriminate|].
  intros Hnew. split; [exact Hpath|].
  assert (Hall : forall paths bs,
            Forall2 (fun path b => parse path = Some b) paths bs ->
            Forall
              (fun b =>
                 bpState b = Online /\ bpName b = ""
                 /\ bpVersion b = OrchestratorAPIVersion
                 /\ In (bpConfigType b)
                      ["ontap_config"; "solidfire_config"; "eseries_config";
                       "aws_config"; "fake_config"]) bs).
  { intros paths bs H2. induction H2 as [|path b paths bs Hp _ IH];
      constructor; [exact (parseBackend_online _ _ Hp)|exact IH]. }
  destruct (Stat configPath); try discriminate.
  - destruct (ReadDir configPath) as [e|files]; [discriminate|].
    apply loadFiles_Loaded in Hnew as (bs & Hbs & Hboot & Hlive).
    simpl in Hboot, Hlive. rewrite Hboot, Hlive.
    split; [reflexivity|]. exact (Hall _ _ Hbs).
  - apply loadBackend_Loaded in Hnew as (b & Hp & Hboot & Hlive).
    simpl in Hboot, Hlive. rewrite Hboot, Hlive.
    split; [reflexivity|]. constructor; [|constructor].
    exact (parseBackend_online _ _ Hp).
Qed.

End passthrough_boot_facts.

(** ** The command line client *)
Section cli_facts.
Import cli.
Context {T Backend Node : Type}.
Variable GetBaseURL : string + string.
Variable InvokeRESTAPI :
  string -> string -> option string -> T -> (string + Response) * T.
Variable GetErrorFromHTTPResponse : Response -> string.
Variable decodeListBackends : string -> string + list string.
Variable decodeGetBackend : string -> string + Backend.
Variable decodeUpdateBackend : string -> string + string.
Variable decodeListNodes : string -> string + list string.
Variable decodeGetNode : string -> string + option Node.

Let Sh : Type := Shell T Backend Node.

Lemma invokeREST_run method url body (w : Sh) :
  let r := invokeREST InvokeRESTAPI method url body w in
  requests (snd r) = requests w ++ [Invoke method url body]
  /\ writtenBackends (snd r) = writtenBackends w
  /\ writtenNodes (snd r) = writtenNodes w.
Proof.
  unfold invokeREST. destruct (InvokeRESTAPI method url body (server w)).
  simpl. auto.
Qed.

Lemma GetBackend_run baseURL backendName (w : Sh) :
  let r := GetBackend InvokeRESTAPI GetErrorFromHTTPResponse decodeGetBackend
             baseURL backendName w in
  requests (snd r)
  = requests w ++ [Invoke "GET" (baseURL +:+ "/backend/" +:+ backendName) None]
  /\ writtenBackends (snd r) = writtenBackends w
  /\ writtenNodes (snd r) = writtenNodes w.
Proof.
  unfold GetBackend.
  pose proof (invokeREST_run "GET" (baseURL +:+ "/backend/" +:+ backendName)
                None w) as Hrun.
  cbv zeta in Hrun.
  destruct (invokeREST InvokeRESTAPI "GET" _ None w) as [[e|response] w1];
    simpl in *; [exact Hrun|].
  destruct (negb (StatusCode response =? StatusOK)); exact Hrun.
Qed.

Lemma getEachBackend_run baseURL names : forall backends (w : Sh),
  let r := getEachBackend InvokeRESTAPI GetErrorFromHTTPResponse
             decodeGetBackend baseURL names backends w in
  writtenBackends (snd r) = writtenBackends w
  /\ writtenNodes (snd r) = writtenNodes w
  /\ match fst r with
     | inl _ =>
         exists k,
           (k < length names)%nat
           /\ requests (snd r)
              = requests w
                ++ map (fun n => Invoke "GET" (baseURL +:+ "/backend/" +:+ n)
                                   None)
                     (firstn (S k) names)
     | inr all =>
         exists fetched,
           all = backends ++ fetched
           /\ length fetched = length names
           /\ requests (snd r)
              = requests w
                ++ map (fun n => Invoke "GET" (baseURL +:+ "/backend/" +:+ n)
                                   None) names
     end.
Proof.
  induction names as [|name rest IH]; intros backends w; simpl.
  - repeat split. exists []. rewrite !app_nil_r. auto.
  - pose proof (GetBackend_run baseURL name w) as (Hreq & Hwb & Hwn).
    destruct (GetBackend InvokeRESTAPI GetErrorFromHTTPResponse
                decodeGetBackend baseURL name w) as [[e|backend] w1];
      simpl in *.
    + repeat split; try assumption.
      exists 0%nat. simpl. split; [lia|exact Hreq].
    + specialize (IH (backends ++ [backend]) w1). cbv zeta in IH.
      destruct IH as (Hwb' & Hwn' & Hres).
      split; [congruence|]. split; [congruence|].
      destruct (fst (getEachBackend InvokeRESTAPI GetErrorFromHTTPResponse
                       decodeGetBackend baseURL rest (backends ++ [backend])
                       w1)) as [e|all].
      * destruct Hres as (k & Hlen & Hreq').
        exists (S k). split; [lia|].
        rewrite Hreq', Hreq, <- app_assoc. reflexivity.
      * destruct Hres as (fetched & -> & Hlen & Hreq').
        exists (backend :: fetched). simpl.
        split; [rewrite <- app_assoc; reflexivity|].
        split; [lia|]. rewrite Hreq', Hreq, <- app_assoc. reflexivity.
Qed.

(** X29.  [update backend] takes exactly one backend name.  With none or
    with several it fails before any request is made.  A failure of any kind
    writes nothing.  When it succeeds, it has posted the data to the backend
    named on the command line, then fetched the backend whose id the server
    answered with (not necessarily that name), and has written that one
    backend. *)
Theorem cli_backendUpdate_takes_one_name
  (backendNames : list string) (postData : string) (w : Sh) :
  let r := backendUpdate GetBaseURL InvokeRESTAPI GetErrorFromHTTPResponse
             decodeGetBackend decodeUpdateBackend backendNames postData w in
  (length backendNames <> 1%nat -> fst r <> None /\ snd r = w)
  /\ (fst r <> None -> writtenBackends (snd r) = writtenBackends w)
  /\ (fst r = None ->
      exists name baseURL id backend,
        backendNames = [name]
        /\ GetBaseURL = inr baseURL
        /\ requests (snd r)
           = requests w
             ++ [Invoke "POST" (baseURL +:+ "/backend/" +:+ name)
                   (Some postData);
                 Invoke "GET" (baseURL +:+ "/backend/" +:+ id) None]
        /\ writtenBackends (snd r) = writtenBackends w ++ [[backend]])
  /\ writtenNodes (snd r) = writtenNodes w.
Proof.
  intros r. unfold r, backendUpdate.
  destruct backendNames as [|name [|name2 rest]]; simpl.
  - repeat split; try discriminate; congruence.
  - split; [intros Hlen; congruence|].
    assert (Hfail : forall (e : string) (w1 : Sh),
              writtenBackends w1 = writtenBackends w ->
              writtenNodes w1 = writtenNodes w ->
              (fst (Some e, w1) <> None ->
               writtenBackends (snd (Some e, w1)) = writtenBackends w)
              /\ (fst (Some e, w1) = None ->
                  exists name0 baseURL id backend,
                    [name] = [name0]
                    /\ GetBaseURL = inr baseURL
                    /\ requests (snd (Some e, w1))
                       = requests w
                         ++ [Invoke "POST"
                               (baseURL +:+ "/backend/" +:+ name0)
                               (Some postData);
                             Invoke "GET" (baseURL +:+ "/backend/" +:+ id)
                               None]
                    /\ writtenBackends (snd (Some e, w1))
                       = writtenBackends w ++ [[backend]])
              /\ writtenNodes (snd (Some e, w1)) = writtenNodes w).
    { intros e w1 Hwb Hwn. simpl. split; [intros _; exact Hwb|].
      split; [discriminate|exact Hwn]. }
    destruct GetBaseURL as [e|baseURL] eqn:Hbase;
      [apply Hfail; reflexivity|].
    pose proof (invokeREST_run "POST" (baseURL +:+ "/backend/" +:+ name)
                  (Some postData) w) as Hpost.
    cbv zeta in Hpost.
    destruct (invokeREST InvokeRESTAPI "POST" _ (Some postData) w)
      as [[e|response] w1]; simpl in Hpost;
      destruct Hpost as (Hreq & Hwb & Hwn); [apply Hfail; assumption|].
    destruct (negb (StatusCode response =? StatusOK));
      [apply Hfail; assumption|].
    destruct (decodeUpdateBackend (responseBody response)) as [e|backendID];
      [apply Hfail; assumption|].
    pose proof (GetBackend_run baseURL backendID w1) as Hget.
    cbv zeta in Hget. destruct Hget as (Hreq2 & Hwb2 & Hwn2).
    destruct (GetBackend InvokeRESTAPI GetErrorFromHTTPResponse
                decodeGetBackend baseURL backendID w1) as [[e|backend] w2];
      simpl in Hreq2, Hwb2, Hwn2; [apply Hfail; congruence|].
    simpl. split; [congruence|]. split; [|congruence].
    intros _. exists name, baseURL, backendID, backend.
    split; [reflexivity|]. split; [reflexivity|]. split; [|congruence].
    rewrite Hreq2, Hreq, <- app_assoc. reflexivity.
  - repeat split; try discriminate; congruence.
Qed.

Lemma GetBackends_run baseURL (w : Sh) :
  let r := GetBackends InvokeRESTAPI GetErrorFromHTTPResponse
             decodeListBackends baseURL w in
  requests (snd r) = requests w ++ [Invoke "GET" (baseURL +:+ "/backend") None]
  /\ writtenBackends (snd r) = writtenBackends w
  /\ writtenNodes (snd r) = writtenNodes w.
Proof.
  unfold GetBackends.
  pose proof (invokeREST_run "GET" (baseURL +:+ "/backend") None w) as Hrun.
  cbv zeta in Hrun.
  destruct (invokeREST InvokeRESTAPI "GET" _ None w) as [[e|response] w1];
    simpl in *; [exact Hrun|].
  destruct (negb (StatusCode response =? StatusOK)); exact Hrun.
Qed.

Lemma GetNodes_run baseURL (w : Sh) :
  let r := GetNodes InvokeRESTAPI GetErrorFromHTTPResponse
             decodeListNodes baseURL w in
  requests (snd r) = requests w ++ [Invoke "GET" (baseURL +:+ "/node") None]
  /\ writtenBackends (snd r) = writtenBackends w
  /\ writtenNodes (snd r) = writtenNodes w.
Proof.
  unfold GetNodes.
  pose proof (invokeREST_run "GET" (baseURL +:+ "/node") None w) as Hrun.
  cbv zeta in Hrun.
  destruct (invokeREST InvokeRESTAPI "GET" _ None w) as [[e|response] w1];
    simpl in *; [exact Hrun|].
  destruct (negb (StatusCode response =? StatusOK)); exact Hrun.
Qed.

Lemma GetNode_run baseURL nodeName (w : Sh) :
  let r := GetNode InvokeRESTAPI GetErrorFromHTTPResponse decodeGetNode
             baseURL nodeName w in
  requests (snd r)
  = requests w ++ [Invoke "GET" (baseURL +:+ "/node/" +:+ nodeName) None]
  /\ writtenBackends (snd r) = writtenBackends w
  /\ writtenNodes (snd r) = writtenNodes w.
Proof.
  unfold GetNode.
  pose proof (invokeREST_run "GET" (baseURL +:+ "/node/" +:+ nodeName)
                None w) as Hrun.
  cbv zeta in Hrun.
  destruct (invokeREST InvokeRESTAPI "GET" _ None w) as [[e|response] w1];
    simpl in *; [exact Hrun|].
  destruct (negb (StatusCode response =? StatusOK)); exact Hrun.
Qed.

Lemma getEachNode_run baseURL names : forall nodes (w : Sh),
  let r := getEachNode InvokeRESTAPI GetErrorFromHTTPResponse
             decodeGetNode baseURL names nodes w in
  writtenBackends (snd r) = writtenBackends w
  /\ writtenNodes (snd r) = writtenNodes w
  /\ match fst r with
     | inl _ =>
         exists k,
           (k < length names)%nat
           /\ requests (snd r)
              = requests w
                ++ map (fun n => Invoke "GET" (baseURL +:+ "/node/" +:+ n)
                                   None)
                     (firstn (S k) names)
     | inr all =>
         exists fetched,
           all = nodes ++ fetched
           /\ length fetched = length names
           /\ requests (snd r)
              = requests w
                ++ map (fun n => Invoke "GET" (baseURL +:+ "/node/" +:+ n)
                                   None) names
     end.
Proof.
  induction names as [|name rest IH]; intros nodes w; simpl.
  - repeat split. exists []. rewrite !app_nil_r. auto.
  - pose proof (GetNode_run baseURL name w) as (Hreq & Hwb & Hwn).
    destruct (GetNode InvokeRESTAPI GetErrorFromHTTPResponse
                decodeGetNode baseURL name w) as [[e|[node|]] w1];
      simpl in *.
    + repeat split; try assumption.
      exists 0%nat. simpl. split; [lia|exact Hreq].
    + specialize (IH (nodes ++ [node]) w1). cbv zeta in IH.
      destruct IH as (Hwb' & Hwn' & Hres).
      split; [congruence|]. split; [congruence|].
      destruct (fst (getEachNode InvokeRESTAPI GetErrorFromHTTPResponse
                       decodeGetNode baseURL rest (nodes ++ [node])
                       w1)) as [e|all].
      * destruct Hres as (k & Hlen & Hreq').
        exists (S k). split; [lia|].
        rewrite Hreq', Hreq, <- app_assoc. reflexivity.
      * destruct Hres as (fetched & -> & Hlen & Hreq').
        exists (node :: fetched). simpl.
        split; [rewrite <- app_assoc; reflexivity|].
        split; [lia|]. rewrite Hreq', Hreq, <- app_assoc. reflexivity.
    + repeat split; try assumption.
      exists 0%nat. simpl. split; [lia|exact Hreq].
Qed.

(** [get backend] asks the server for the list of backends only when no
    name is given on the command line; with names it fetches exactly
    those.  It writes nothing unless every fetch succeeded, and then it
    writes once, one backend per name, after one GET per name in the
    order of the names.  It never writes nodes. *)
Lemma backendList_run
  (backendNames : list string) (w : Sh) :
  let r := backendList GetBaseURL InvokeRESTAPI GetErrorFromHTTPResponse
             decodeListBackends decodeGetBackend backendNames w in
  writtenNodes (snd r) = writtenNodes w
  /\ (fst r <> None -> writtenBackends (snd r) = writtenBackends w)
  /\ (fst r = None ->
      exists baseURL names backends,
        GetBaseURL = inr baseURL
        /\ (backendNames <> [] -> names = backendNames)
        /\ length backends = length names
        /\ writtenBackends (snd r) = writtenBackends w ++ [backends]
        /\ requests (snd r)
           = requests w
             ++ (if backendNames is [] then
                   [Invoke "GET" (baseURL +:+ "/backend") None]
                 else [])
             ++ map (fun n => Invoke "GET" (baseURL +:+ "/backend/" +:+ n)
                                None) names).
Proof.
  intros r. unfold r, backendList. clear r.
  destruct GetBaseURL as [e|baseURL] eqn:Hbase;
    [simpl; repeat split; try discriminate; congruence|].
  assert (Hcont : forall names (w1 : Sh),
            writtenBackends w1 = writtenBackends w ->
            writtenNodes w1 = writtenNodes w ->
            let r := (let '(r, w2) :=
                        getEachBackend InvokeRESTAPI GetErrorFromHTTPResponse
                          decodeGetBackend baseURL names [] w1 in
                      match r with
                      | inl err => (Some err, w2)
                      | inr backends => (None, WriteBackends backends w2)
                      end) in
            writtenNodes (snd r) = writtenNodes w
            /\ (fst r <> None -> writtenBackends (snd r) = writtenBackends w)
            /\ (fst r = None ->
                exists backends,
                  length backends = length names
                  /\ writtenBackends (snd r) = writtenBackends w ++ [backends]
                  /\ requests (snd r)
                     = requests w1
                       ++ map (fun n => Invoke "GET"
                                          (baseURL +:+ "/backend/" +:+ n)
                                          None) names)).
  { intros names w1 Hwb Hwn.
    pose proof (getEachBackend_run baseURL names [] w1) as Heach.
    cbv zeta in Heach.
    destruct (getEachBackend InvokeRESTAPI GetErrorFromHTTPResponse
                decodeGetBackend baseURL names [] w1) as [[e|backends] w2];
      simpl in Heach; destruct Heach as (Hwb2 & Hwn2 & Hres); simpl.
    - split; [congruence|]. split; [intros _; congruence|discriminate].
    - destruct Hres as (fetched & -> & Hlen & Hreq2).
      split; [congruence|]. split; [intros Hc; congruence|].
      intros _. exists fetched. split; [exact Hlen|].
      split; [congruence|exact Hreq2]. }
  destruct backendNames as [|n rest].
  - pose proof (GetBackends_run baseURL w) as Hlist. cbv zeta in Hlist.
    destruct (GetBackends InvokeRESTAPI GetErrorFromHTTPResponse
                decodeListBackends baseURL w) as [[e|names] w1];
      simpl in Hlist; destruct Hlist as (Hreq & Hwb & Hwn).
    + simpl. split; [congruence|]. split; [intros _; congruence|discriminate].
    + specialize (Hcont names w1 Hwb Hwn). cbv zeta in Hcont.
      destruct Hcont as (Hn & Hfail & Hok).
      split; [exact Hn|]. split; [exact Hfail|].
      intros Hnone. destruct (Hok Hnone) as (backends & Hlen & Hw & Hr).
      exists baseURL, names, backends.
      split; [reflexivity|]. split; [congruence|]. split; [exact Hlen|].
      split; [exact Hw|]. rewrite Hr, Hreq, <- app_assoc. reflexivity.
  - specialize (Hcont (n :: rest) w eq_refl eq_refl). cbv zeta in Hcont.
    destruct Hcont as (Hn & Hfail & Hok).
    split; [exact Hn|]. split; [exact Hfail|].
    intros Hnone. destruct (Hok Hnone) as (backends & Hlen & Hw & Hr).
    exists baseURL, (n :: rest), backends.
    split; [reflexivity|]. split; [reflexivity|]. split; [exact Hlen|].
    split; [exact Hw|]. exact Hr.
Qed.

Lemma GetNode_nil baseURL nodeName (w : Sh) :
  fst (GetNode InvokeRESTAPI GetErrorFromHTTPResponse decodeGetNode
         baseURL nodeName w) = inr None ->
  exists body, decodeGetNode body = inr None.
Proof.
  unfold GetNode.
  destruct (invokeREST InvokeRESTAPI "GET" _ None w) as [[e|response] w1];
    simpl; [discriminate|].
  destruct (negb (StatusCode response =? StatusOK)); simpl; [discriminate|].
  intros Hnil. exists (responseBody response). exact Hnil.
Qed.

Lemma getEachNode_nil baseURL names : forall nodes (w : Sh),
  fst (getEachNode InvokeRESTAPI GetErrorFromHTTPResponse decodeGetNode
         baseURL names nodes w) = inl NilNode ->
  exists body, decodeGetNode body = inr None.
Proof.
  induction names as [|name rest IH]; intros nodes w; simpl;
    [discriminate|].
  pose proof (GetNode_nil baseURL name w) as Hnil.
  destruct (GetNode InvokeRESTAPI GetErrorFromHTTPResponse decodeGetNode
              baseURL name w) as [[e|[node|]] w1]; simpl in *.
  - discriminate.
  - apply IH.
  - intros _. apply Hnil. reflexivity.
Qed.

Lemma getEachNode_error baseURL names : forall nodes (w : Sh),
  fst (getEachNode InvokeRESTAPI GetErrorFromHTTPResponse decodeGetNode
         baseURL names nodes w) <> inl (Returned None).
Proof.
  induction names as [|name rest IH]; intros nodes w; simpl;
    [discriminate|].
  destruct (GetNode InvokeRESTAPI GetErrorFromHTTPResponse decodeGetNode
              baseURL name w) as [[e|[node|]] w1]; simpl;
    [discriminate|apply IH|discriminate].
Qed.

(** [get node] follows the same course as [get backend], with one
    difference the code shows: it dereferences the node of each answer
    without a check.  So besides returning an error or nil it can stop
    on a nil dereference, which happens only when some answer decodes
    with no node in it, and does happen when the answer for the first
    name is such.  Whenever it stops short, by error or by dereference,
    it writes nothing; when it returns nil it has written one list of
    nodes, one per name, after one GET per name in their order.  It
    never writes backends. *)
Lemma nodeList_run
  (nodeNames : list string) (w : Sh) :
  let r := nodeList GetBaseURL InvokeRESTAPI GetErrorFromHTTPResponse
             decodeListNodes decodeGetNode nodeNames w in
  writtenBackends (snd r) = writtenBackends w
  /\ (fst r <> Returned None -> writtenNodes (snd r) = writtenNodes w)
  /\ (fst r = Returned None ->
      exists baseURL names nodes,
        GetBaseURL = inr baseURL
        /\ (nodeNames <> [] -> names = nodeNames)
        /\ length nodes = length names
        /\ writtenNodes (snd r) = writtenNodes w ++ [nodes]
        /\ requests (snd r)
           = requests w
             ++ (if nodeNames is [] then
                   [Invoke "GET" (baseURL +:+ "/node") None]
                 else [])
             ++ map (fun n => Invoke "GET" (baseURL +:+ "/node/" +:+ n)
                                None) names)
  /\ (fst r = NilNode -> exists body, decodeGetNode body = inr None)
  /\ (forall baseURL name rest,
        GetBaseURL = inr baseURL ->
        nodeNames = name :: rest ->
        fst (GetNode InvokeRESTAPI GetErrorFromHTTPResponse decodeGetNode
               baseURL name w) = inr None ->
        fst r = NilNode).
Proof.
  intros r. unfold r, nodeList. clear r.
  destruct GetBaseURL as [e|baseURL] eqn:Hbase;
    [simpl; repeat split; try discriminate; congruence|].
  assert (Hcont : forall names (w1 : Sh),
            writtenBackends w1 = writtenBackends w ->
            writtenNodes w1 = writtenNodes w ->
            let r := (let '(r, w2) :=
                        getEachNode InvokeRESTAPI GetErrorFromHTTPResponse
                          decodeGetNode baseURL names [] w1 in
                      match r with
                      | inl exit => (exit, w2)
                      | inr nodes => (Returned None, WriteNodes nodes w2)
                      end) in
            writtenBackends (snd r) = writtenBackends w
            /\ (fst r <> Returned None ->
                writtenNodes (snd r) = writtenNodes w)
            /\ (fst r = Returned None ->
                exists nodes,
                  length nodes = length names
                  /\ writtenNodes (snd r) = writtenNodes w ++ [nodes]
                  /\ requests (snd r)
                     = requests w1
                       ++ map (fun n => Invoke "GET"
                                          (baseURL +:+ "/node/" +:+ n)
                                          None) names)
            /\ (fst r = NilNode -> exists body, decodeGetNode body = inr None)).
  { intros names w1 Hwb Hwn.
    pose proof (getEachNode_run baseURL names [] w1) as Heach.
    pose proof (getEachNode_nil baseURL names [] w1) as Hnil.
    pose proof (getEachNode_error baseURL names [] w1) as Herr.
    cbv zeta in Heach.
    destruct (getEachNode InvokeRESTAPI GetErrorFromHTTPResponse
                decodeGetNode baseURL names [] w1) as [[exit|nodes] w2];
      simpl in Heach, Hnil, Herr; destruct Heach as (Hwb2 & Hwn2 & Hres);
      simpl.
    - split; [congruence|]. split; [intros _; congruence|].
      split; [intros ->; congruence|].
      intros ->. apply Hnil. reflexivity.
    - destruct Hres as (fetched & -> & Hlen & Hreq2).
      split; [congruence|]. split; [intros Hc; congruence|].
      split; [|discriminate].
      intros _. exists fetched. split; [exact Hlen|].
      split; [congruence|exact Hreq2]. }
  destruct nodeNames as [|n rest].
  - pose proof (GetNodes_run baseURL w) as Hlist. cbv zeta in Hlist.
    destruct (GetNodes InvokeRESTAPI GetErrorFromHTTPResponse
                decodeListNodes baseURL w) as [[e|names] w1];
      simpl in Hlist; destruct Hlist as (Hreq & Hwb & Hwn).
    + simpl. split; [congruence|]. split; [intros _; congruence|].
      repeat split; discriminate.
    + specialize (Hcont names w1 Hwb Hwn). cbv zeta in Hcont.
      destruct Hcont as (Hb & Hfail & Hok & Hnil).
      split; [exact Hb|]. split; [exact Hfail|].
      split; [|split; [exact Hnil|discriminate]].
      intros Hnone. destruct (Hok Hnone) as (nodes & Hlen & Hw & Hr).
      exists baseURL, names, nodes.
      split; [reflexivity|]. split; [congruence|]. split; [exact Hlen|].
      split; [exact Hw|]. rewrite Hr, Hreq, <- app_assoc. reflexivity.
  - specialize (Hcont (n :: rest) w eq_refl eq_refl). cbv zeta in Hcont.
    destruct Hcont as (Hb & Hfail & Hok & Hnil).
    split; [exact Hb|]. split; [exact Hfail|].
    split; [|split; [exact Hnil|]].
    + intros Hnone. destruct (Hok Hnone) as (nodes & Hlen & Hw & Hr).
      exists baseURL, (n :: rest), nodes.
      split; [reflexivity|]. split; [reflexivity|]. split; [exact Hlen|].
      split; [exact Hw|]. exact Hr.
    + intros baseURL' name rest' Hb' Hnames Hget.
      inversion Hb'; inversion Hnames; subst. simpl.
      destruct (GetNode InvokeRESTAPI GetErrorFromHTTPResponse decodeGetNode
                  baseURL' name w) as [[e|[node|]] w1]; simpl in Hget;
        try discriminate.
      reflexivity.
Qed.

(** X30.  The two [get] commands write all or nothing.  [get backend] and
    [get node] ask the server for the list of names only when none is given
    on the command line; each fetches the items one by one in the order of
    the names, and writes once, one item per name, only if every fetch
    succeeded; a failure of any kind writes nothing.  They differ in one
    point: [get node] dereferences the node of each answer without a check,
    so it can also stop on a nil dereference, which happens only when some
    answer decodes with no node in it, and does happen when the answer for
    the first name is such. *)
Theorem cli_get_writes_all_or_nothing (names : list string) (w : Sh) :
  let b := backendList GetBaseURL InvokeRESTAPI GetErrorFromHTTPResponse
             decodeListBackends decodeGetBackend names w in
  let n := nodeList GetBaseURL InvokeRESTAPI GetErrorFromHTTPResponse
             decodeListNodes decodeGetNode names w in
  let gets (kind baseURL : string) (fetched : list string) :=
    (if names is [] then [Invoke "GET" (baseURL +:+ kind) None] else [])
    ++ map (fun name => Invoke "GET" (baseURL +:+ kind +:+ "/" +:+ name) None)
         fetched in
  (writtenNodes (snd b) = writtenNodes w
   /\ (fst b <> None -> writtenBackends (snd b) = writtenBackends w)
   /\ (fst b = None ->
       exists baseURL fetched backends,
         GetBaseURL = inr baseURL
         /\ (names <> [] -> fetched = names)
         /\ length backends = length fetched
         /\ writtenBackends (snd b) = writtenBackends w ++ [backends]
         /\ requests (snd b) = requests w ++ gets "/backend" baseURL fetched))
  /\ (writtenBackends (snd n) = writtenBackends w
      /\ (fst n <> Returned None -> writtenNodes (snd n) = writtenNodes w)
      /\ (fst n = Returned None ->
          exists baseURL fetched nodes,
            GetBaseURL = inr baseURL
            /\ (names <> [] -> fetched = names)
            /\ length nodes = length fetched
            /\ writtenNodes (snd n) = writtenNodes w ++ [nodes]
            /\ requests (snd n) = requests w ++ gets "/node" baseURL fetched)
      /\ (fst n = NilNode -> exists body, decodeGetNode body = inr None)
      /\ (forall baseURL name rest,
            GetBaseURL = inr baseURL ->
            names = name :: rest ->
            fst (GetNode InvokeRESTAPI GetErrorFromHTTPResponse decodeGetNode
                   baseURL name w) = inr None ->
            fst n = NilNode)).
Proof.
  intros b n gets. subst b n gets. cbv beta. split.
  - destruct (backendList_run names w) as (Hn & Hfail & Hok).
    split; [exact Hn|]. split; [exact Hfail|].
    intros Hnone.
    destruct (Hok Hnone) as (baseURL & fetched & backends & Hb & Hf & Hl
                             & Hw & Hr).
    exists baseURL, fetched, backends.
    repeat (split; [assumption|]). rewrite Hr. reflexivity.
  - destruct (nodeList_run names w) as (Hb & Hfail & Hok & Hnil & Hfirst).
    split; [exact Hb|]. split; [exact Hfail|].
    split; [|split; [exact Hnil|exact Hfirst]].
    intros Hnone.
    destruct (Hok Hnone) as (baseURL & fetched & nodes & Hu & Hf & Hl
                             & Hw & Hr).
    exists baseURL, fetched, nodes.
    repeat (split; [assumption|]). rewrite Hr. reflexivity.
Qed.

End cli_facts.

(** ** The drivers on a cluster of three volumes and a controller of one *)
Section driver_examples.
Import persistentstore driver_fixture.

Lemma solidfire_GetVolume_first_active_match_witness :
  fst (solidfire.GetVolume listVolumesForAccount san "pvc_1" cluster0)
  = inr active1
  /\ exists before after,
       listVolumesForAccount 3 tt = (inr (before ++ active1 :: after), tt)
       /\ Forall (fun u => solidfire.named san "pvc_1" u = false) before.
Proof.
  assert (Hfound :
            fst (solidfire.GetVolume listVolumesForAccount san "pvc_1"
                   cluster0) = inr active1)
    by (vm_compute; reflexivity).
  split; [exact Hfound|].
  destruct (solidfire_GetVolume_first_active_match listVolumesForAccount san
              "pvc_1" cluster0 active1 Hfound)
    as (before & after & [] & Hlist & Hbefore & _).
  exists before, after. split; assumption.
Defined.

Lemma solidfire_Publish_uses_CHAP_witness :
  exists info',
    fst (solidfire.Publish listVolumesForAccount getAccountByID san "pvc_1"
           hostInfo cluster0) = (info', None)
    /\ utils.UseCHAP info' = true
    /\ utils.SharedTarget info' = false
    /\ utils.HostName info' = "node1".
Proof.
  assert (Hnone :
            snd (fst (solidfire.Publish listVolumesForAccount getAccountByID
                        san "pvc_1" hostInfo cluster0)) = None)
    by (vm_compute; reflexivity).
  destruct (fst (solidfire.Publish listVolumesForAccount getAccountByID san
                   "pvc_1" hostInfo cluster0)) as [info' e] eqn:Hrun.
  simpl in Hnone. subst e.
  destruct (solidfire_Publish_uses_CHAP listVolumesForAccount getAccountByID
              san "pvc_1" hostInfo info' cluster0 Hrun)
    as (v & account & _ & _ & Hchap & Hshared & _ & _ & _ & _ & _ & _ & _
        & _ & Hhost).
  exists info'. split; [reflexivity|]. split; [exact Hchap|].
  split; [exact Hshared|]. rewrite Hhost. reflexivity.
Defined.

Lemma csi_lists_discovered_volumes_witness :
  csi.CapacityBytes
    (csi.getCSIVolumeFromTridentVolume
       (storagefull.view (solidfire.getVolumeExternal "1" "" "data" other)))
  = 5000000000
  /\ exists ext,
       ontap.getVolumeExternal "1" nas flexvol = Some ext
       /\ csi.CapacityBytes
            (csi.getCSIVolumeFromTridentVolume (storagefull.view ext))
          = 1073741824
       /\ csi.VolumeId (csi.getCSIVolumeFromTridentVolume (storagefull.view ext))
          = storagefull.Name (storagefull.Config ext).
Proof.
  destruct (ontap.getVolumeExternal "1" nas flexvol) as [ext|] eqn:Hext;
    [|vm_compute in Hext; discriminate].
  destruct (csi_lists_discovered_volumes "1" "" "data" other nas flexvol ext)
    as (Hsan & _ & _ & _ & Hnas & Hid & _ & _);
    [unfold strconv.minInt64, strconv.maxInt64; simpl; lia..|exact Hext|].
  split; [exact Hsan|]. exists ext. split; [reflexivity|].
  split; [exact Hnas|exact Hid].
Defined.

Lemma passthrough_GetVolumes_from_drivers_witness :
  Forall (fun returned => returned <> None)
    (fst (GetVolumes [1; 0; 1]%nat driven)).
Proof.
  apply (Forall_impl _ _ _
           (passthrough_GetVolumes_from_drivers listVolumesForAccount
              volumeGetAll "1" "" [1; 0; 1]%nat driven
              ltac:(intros key b Hlive; unfold driven in Hlive;
                    simpl in Hlive;
                    destruct (decide (key = "ontapnas_10.0.0.7")) as [->|Hnas];
                    [rewrite lookup_insert_eq in Hlive; inversion Hlive;
                     right; exists nas, (tt, []); reflexivity|];
                    rewrite lookup_insert_ne in Hlive by congruence;
                    destruct (decide (key = "solidfire_10.0.0.6"))
                      as [->|Hsan];
                    [rewrite lookup_insert_eq in Hlive; inversion Hlive;
                     left; exists san, cluster0; reflexivity|];
                    rewrite lookup_insert_ne in Hlive by congruence;
                    rewrite lookup_empty in Hlive; discriminate))).
  intros returned (v & -> & _). discriminate.
Defined.

Import passthrough_fixture.

Lemma passthrough_boot_backends_are_online_witness :
  NewPassthroughClient Stat0 ReadDir0 ReadFile0 Join0 YAMLToJSON0 Validate0
    "1" jsonUnmarshal0 "conf" = Loaded booted
  /\ Forall (fun b => bpState b = Online /\ bpVersion b = "1")
       (bootBackends booted).
Proof.
  assert (Hnew :
            NewPassthroughClient Stat0 ReadDir0 ReadFile0 Join0 YAMLToJSON0
              Validate0 "1" jsonUnmarshal0 "conf" = Loaded booted)
    by reflexivity.
  split; [exact Hnew|].
  destruct (passthrough_boot_backends_are_online Stat0 ReadDir0 ReadFile0
              Join0 YAMLToJSON0 Validate0 "1" jsonUnmarshal0 "conf" booted
              Hnew) as (_ & _ & Hboot).
  apply (Forall_impl _ _ _ Hboot).
  intros b (Hstate & _ & Hversion & _). split; assumption.
Defined.

End driver_examples.
